(** * nanobanana-mcp: session broker for a generative-media backend

    A shallow embedding of [src/index.ts]: the per-session context store,
    the media-history reference grammar, request-part assembly for the
    chat / generate / edit tools, the streaming-response aggregation of
    [callGeminiImageAPI] and output-path materialisation, followed by the
    properties of the specification stated against that embedding.

    Conventions of the embedding.
    - JavaScript strings are [string]; the two regular expressions and
      [toLowerCase] of the source only inspect ASCII characters.
    - The [path] module of Node is modelled in its POSIX flavour.
    - The file system, the clock, [Math.random] and the two remote
      capabilities are oracles held in an environment record; the handler
      code is written in a state-and-exception monad over the server state.
    - The disk is a map from paths to the contents of readable files:
      [fs.access] and [fs.readFile] succeed on the same paths, directories
      are implicit and writing does not fail.
    - A tool call runs to its end before the next one starts; the
      interleaving of concurrent calls is outside the embedding. *)

From Stdlib Require Import Ascii String NArith DecimalString DecimalNat DecimalN.
From stdpp Require Import base option list strings gmap.

(** ** JavaScript string primitives used by the source *)

Module Js.

Abbreviation chars := String.list_ascii_of_string.
Abbreviation str := String.string_of_list_ascii.

Definition nl : string := String "010"%char EmptyString.
Definition dq : string := String "034"%char EmptyString.

(** [s.length > 0], the truthiness of a string. *)
Definition truthy (s : string) : bool :=
  match s with EmptyString => false | String _ _ => true end.

Definition lower_char (c : ascii) : ascii :=
  let n := nat_of_ascii c in
  if (65 <=? n)%nat && (n <=? 90)%nat then ascii_of_nat (n + 32) else c.

(** [s.toLowerCase()] on the ASCII letters. *)
Definition toLowerCase (s : string) : string := str (map lower_char (chars s)).

(** [s.endsWith(suf)]. *)
Definition endsWith (s suf : string) : bool :=
  bool_decide (chars suf `suffix_of` chars s).

(** [s.startsWith(p)]. *)
Fixpoint startsWith (s p : string) : bool :=
  match p with
  | EmptyString => true
  | String a p' =>
      match s with
      | String b s' => Ascii.eqb a b && startsWith s' p'
      | EmptyString => false
      end
  end.

(** [String(n)] for a non-negative integer. *)
Definition string_of_N (n : N) : string := NilZero.string_of_uint (N.to_uint n).
Definition string_of_nat (n : nat) : string := NilZero.string_of_uint (Nat.to_uint n).

(** [xs.join(sep)]. *)
Definition join (sep : string) (xs : list string) : string := String.concat sep xs.

(** [xs.slice(0, n)] and [xs.slice(-n)] on arrays. *)
Definition slice_first {A} (n : nat) (xs : list A) : list A := take n xs.
Definition slice_last {A} (n : nat) (xs : list A) : list A := drop (length xs - n) xs.

(** [xs.slice(0, -1)]. *)
Definition slice_but_last {A} (xs : list A) : list A := take (length xs - 1) xs.

(** The regular expression [/\.[^/.]+$/]: does it match the whole of [l]? *)
Definition not_slash_dot (c : ascii) : bool :=
  negb (Ascii.eqb c "/"%char) && negb (Ascii.eqb c "."%char).

Definition ext_at (l : list ascii) : bool :=
  match l with
  | d :: c :: rest => Ascii.eqb d "."%char && forallb not_slash_dot (c :: rest)
  | _ => false
  end.

(** [s.replace(/\.[^/.]+$/, '')]: the leftmost position at which the
    expression matches up to the end of the input is cut off. *)
Fixpoint cut_ext (l : list ascii) : list ascii :=
  if ext_at l then []
  else match l with
       | [] => []
       | c :: l' => c :: cut_ext l'
       end.

Definition replace_ext (s : string) : string := str (cut_ext (chars s)).

(** [s.match(/^history:(\d+)$/)], returning the captured digits. *)
Fixpoint strip_prefix (p l : list ascii) : option (list ascii) :=
  match p, l with
  | [], _ => Some l
  | a :: p', b :: l' => if Ascii.eqb a b then strip_prefix p' l' else None
  | _ :: _, [] => None
  end.

Definition match_history (reference : string) : option Decimal.uint :=
  match strip_prefix (chars "history:") (chars reference) with
  | Some digits => NilZero.uint_of_string (str digits)
  | None => None
  end.

(** [parseInt(digits, 10)] on a captured run of decimal digits, as the
    exact number: JavaScript rounds beyond 2^53, where no array has an
    element, so that an index lookup cannot tell the difference. *)
Definition parseInt (d : Decimal.uint) : nat := Nat.of_uint d.

End Js.

(** ** Node's [path] module (POSIX) *)

Module Path.
Import Js.

Definition slash : ascii := "/"%char.

Definition isAbsolute (p : string) : bool :=
  match p with String c _ => Ascii.eqb c slash | EmptyString => false end.

(** The segments between separators, empty ones included. *)
Fixpoint split (l : list ascii) : list (list ascii) :=
  match l with
  | [] => [[]]
  | c :: l' =>
      if Ascii.eqb c slash then [] :: split l'
      else match split l' with
           | seg :: segs => (c :: seg) :: segs
           | [] => [[c]]
           end
  end.

Definition is_dot (seg : list ascii) : bool := bool_decide (seg = ["."%char]).
Definition is_dotdot (seg : list ascii) : bool := bool_decide (seg = ["."%char; "."%char]).

(** One separator of [normalizeString]: [stack] holds the segments kept so
    far, last one first. *)
Definition norm_step (allowAboveRoot : bool)
    (stack : list (list ascii)) (seg : list ascii) : list (list ascii) :=
  match seg with
  | [] => stack
  | _ =>
    if is_dot seg then stack
    else if is_dotdot seg then
      match stack with
      | top :: rest =>
          if is_dotdot top then (if allowAboveRoot then seg :: stack else stack)
          else rest
      | [] => if allowAboveRoot then [seg] else []
      end
    else seg :: stack
  end.

Fixpoint unsplit (segs : list (list ascii)) : list ascii :=
  match segs with
  | [] => []
  | [seg] => seg
  | seg :: rest => seg ++ slash :: unsplit rest
  end.

Definition normalizeString (l : list ascii) (allowAboveRoot : bool) : list ascii :=
  unsplit (rev (fold_left (norm_step allowAboveRoot) (split l) [])).

Definition ends_with_slash (l : list ascii) : bool :=
  match rev l with c :: _ => Ascii.eqb c slash | [] => false end.

Definition normalize_chars (l : list ascii) : list ascii :=
  match l with
  | [] => ["."%char]
  | c :: _ =>
      let isAbs := Ascii.eqb c slash in
      let trailing := ends_with_slash l in
      match normalizeString l (negb isAbs) with
      | [] => if isAbs then [slash] else if trailing then ["."%char; slash] else ["."%char]
      | p =>
          let p' := if trailing then p ++ [slash] else p in
          if isAbs then slash :: p' else p'
      end
  end.

Definition normalize (p : string) : string := str (normalize_chars (chars p)).

(** [path.join(...args)]: empty arguments are skipped. *)
Definition join (args : list string) : string :=
  match filter (fun a => truthy a = true) args with
  | [] => "."
  | parts => normalize (Js.join "/" parts)
  end.

Fixpoint drop_slashes (l : list ascii) : list ascii :=
  match l with
  | c :: l' => if Ascii.eqb c slash then drop_slashes l' else l
  | [] => []
  end.

Fixpoint until_slash (l : list ascii) : list ascii :=
  match l with
  | c :: l' => if Ascii.eqb c slash then [] else c :: until_slash l'
  | [] => []
  end.

(** [path.basename(p)]: trailing separators are ignored, then the part
    after the last remaining separator is returned. *)
Definition basename_chars (l : list ascii) : list ascii :=
  rev (until_slash (drop_slashes (rev l))).

Definition basename (p : string) : string := str (basename_chars (chars p)).

Fixpoint after_segment (l : list ascii) : list ascii :=
  match l with
  | c :: l' => if Ascii.eqb c slash then l else after_segment l'
  | [] => []
  end.

(** [path.dirname(p)]: the scan runs from the end down to index 1. *)
Definition dirname_chars (l : list ascii) : list ascii :=
  match l with
  | [] => ["."%char]
  | c :: l' =>
      let hasRoot := Ascii.eqb c slash in
      match after_segment (drop_slashes (rev l')) with
      | [] => if hasRoot then [slash] else ["."%char]
      | _ :: before =>
          match before with
          | [] => if hasRoot then [slash; slash] else [c]
          | _ => c :: rev before
          end
      end
  end.

Definition dirname (p : string) : string := str (dirname_chars (chars p)).

(** Splitting at the first dot of a character list. *)
Fixpoint break_dot (l : list ascii) : option (list ascii * list ascii) :=
  match l with
  | [] => None
  | c :: l' =>
      if Ascii.eqb c "."%char then Some ([], l')
      else match break_dot l' with
           | Some (a, b) => Some (c :: a, b)
           | None => None
           end
  end.

(** [path.parse(p).name]: the base name without its last extension; a
    leading dot does not start an extension and [..] has none. *)
Definition name_of_base (b : list ascii) : list ascii :=
  match break_dot (rev b) with
  | None => b
  | Some (_, rpre) =>
      match rpre with
      | [] => b
      | _ => if is_dotdot b then b else rev rpre
      end
  end.

Definition parse_name (p : string) : string :=
  str (name_of_base (basename_chars (chars p))).

End Path.

(** ** Data model *)

(** [VALID_ASPECT_RATIOS] *)
Definition VALID_ASPECT_RATIOS : list string :=
  ["1:1"; "9:16"; "16:9"; "3:4"; "4:3"; "3:2"; "2:3"; "5:4"; "4:5"; "21:9"].

(** [VALID_ASPECT_RATIOS.includes(r)] *)
Definition valid_ratio (r : string) : bool := bool_decide (r ∈ VALID_ASPECT_RATIOS).

Definition MAX_IMAGE_HISTORY : nat := 10.
Definition MAX_REFERENCE_IMAGES : nat := 3.

Inductive ImageKind := generated | edited.

Record ImageHistoryEntry := {
  id : string;
  filePath : string;
  base64Data : string;
  mimeType : string;
  prompt : string;
  timestamp : N;
  type : ImageKind;
}.

Record InlineData := { inlineMimeType : string; data : string }.

(** [Part] of the chat SDK, as far as the source builds it. *)
Inductive Part :=
  | TextPart (t : string)
  | InlineDataPart (d : InlineData).

Inductive Role := user | model.

Record Turn := { role : Role; parts : list Part }.

Record ConversationContext := {
  history : list Turn;
  imageHistory : list ImageHistoryEntry;
  aspectRatio : option string;
}.

(** [GeminiImageRequestPart]: both fields are optional. The parts of a
    response chunk are read through the same two fields. *)
Record GeminiImageRequestPart := {
  text : option string;
  inlineData : option InlineData;
}.

Definition text_part (t : string) : GeminiImageRequestPart :=
  {| text := Some t; inlineData := None |}.
Definition image_part (mime payload : string) : GeminiImageRequestPart :=
  {| text := None; inlineData := Some {| inlineMimeType := mime; data := payload |} |}.

(** A response chunk: its candidates, each given by the parts of its
    content (an absent content or part list reads as no parts). *)
Record Chunk := { candidates : list (list GeminiImageRequestPart) }.

Record GeminiImageResponse := {
  imageData : option string;
  textResponse : string;
  error : option string;
}.

(** The value a tool call returns: the text of its single content item
    and the [isError] flag (absent reads as [false]). *)
Record ToolResult := { content : string; isError : bool }.

(** ** The world around the server *)

(** An HTTP response of the image endpoint: [json] is the result of
    [JSON.parse] on the body when it is an array of chunks that the
    aggregation loop can walk, [None] when parsing or walking throws. *)
Record Response := {
  status : N;
  body : string;
  json : option (list Chunk);
}.

(** [response.ok] *)
Definition ok (r : Response) : bool := (200 <=? status r)%N && (status r <=? 299)%N.

Inductive FetchResult :=
  | NetworkFailure (message : string)
  | Http (r : Response).

Inductive ChatResult :=
  | ChatFailure (message : string)
  | ChatText (t : string).

Inductive BackendCall :=
  | ImageCall (request : list GeminiImageRequestPart) (ratio : string)
  | ChatCall (systemInstruction : option string) (context : list Turn)
      (message : list Part).

(** What the process cannot decide by itself: its directories, the clock,
    the random source, the two remote capabilities (indexed by the number
    of remote calls made before), and three library renderings. *)
Record Env := {
  cwd : string;
  homedir : string;
  date_now : nat -> N;
  random_token : nat -> string;
  fetch_image : nat -> list GeminiImageRequestPart -> string -> FetchResult;
  send_chat : nat -> option string -> list Turn -> list Part -> ChatResult;
  base64_encode : string -> string;
  base64_decode : string -> string;
  json_history : list (nat * ImageHistoryEntry) -> string;
}.

(** The server state: the session registry, the files on disk (path to
    contents; directories are implicit, so [mkdir] has nothing to do), the
    number of clock readings and random draws made, and the remote calls
    issued so far, oldest first. *)
Record State := {
  conversations : gmap string ConversationContext;
  files : gmap string string;
  clock_reads : nat;
  random_draws : nat;
  calls : list BackendCall;
}.

Definition initial_state (disk : gmap string string) : State :=
  {| conversations := ∅; files := disk; clock_reads := 0; random_draws := 0;
     calls := [] |}.

(** ** A state-and-exception monad for the handler code *)

Inductive Outcome (A : Type) :=
  | Return (a : A)
  | Throw (message : string).
Arguments Return {A} a.
Arguments Throw {A} message.

Definition M (A : Type) : Type := State -> Outcome A * State.

Definition ret {A} (a : A) : M A := fun s => (Return a, s).
Definition throw {A} (message : string) : M A := fun s => (Throw message, s).
Definition bind {A B} (m : M A) (k : A -> M B) : M B :=
  fun s => match m s with
           | (Return a, s') => k a s'
           | (Throw e, s') => (Throw e, s')
           end.
(** [try { m } catch (error) { h error.message }]: effects made before the
    throw stay. *)
Definition try_catch {A} (m : M A) (h : string -> M A) : M A :=
  fun s => match m s with
           | (Return a, s') => (Return a, s')
           | (Throw e, s') => h e s'
           end.
Definition gets {A} (f : State -> A) : M A := fun s => (Return (f s), s).
Definition modify (f : State -> State) : M unit := fun s => (Return tt, f s).

Declare Scope js_scope.
Delimit Scope js_scope with js.
Notation "x <- m ;; k" := (bind m (fun x => k))
  (at level 100, m at next level, right associativity) : js_scope.
Notation "m ;;; k" := (bind m (fun _ => k))
  (at level 100, k at level 200, right associativity) : js_scope.
Local Open Scope js_scope.

(** A [for ... of] loop threading its mutable locals. *)
Fixpoint for_of {A B} (xs : list A) (acc : B) (bodyf : B -> A -> M B) : M B :=
  match xs with
  | [] => ret acc
  | x :: xs' => acc' <- bodyf acc x ;; for_of xs' acc' bodyf
  end.

(** Truthiness of an optional string: absent and empty both read false. *)
Definition truthy_opt (o : option string) : option string :=
  match o with
  | Some s => if Js.truthy s then Some s else None
  | None => None
  end.

(** ** The server *)

Section Server.
Import Js.
Variable env : Env.

(** *** Primitives of the runtime *)

Definition set_conversations (f : gmap string ConversationContext ->
    gmap string ConversationContext) (s : State) : State :=
  {| conversations := f (conversations s); files := files s;
     clock_reads := clock_reads s; random_draws := random_draws s;
     calls := calls s |}.

Definition set_files (f : gmap string string -> gmap string string)
    (s : State) : State :=
  {| conversations := conversations s; files := f (files s);
     clock_reads := clock_reads s; random_draws := random_draws s;
     calls := calls s |}.

Definition log_call (c : BackendCall) (s : State) : State :=
  {| conversations := conversations s; files := files s;
     clock_reads := clock_reads s; random_draws := random_draws s;
     calls := calls s ++ [c] |}.

(** [Date.now()] *)
Definition Date_now : M N := fun s =>
  (Return (date_now env (clock_reads s)),
   {| conversations := conversations s; files := files s;
      clock_reads := S (clock_reads s); random_draws := random_draws s;
      calls := calls s |}).

(** [Math.random().toString(36).substring(2, 11)] *)
Definition Math_random_token : M string := fun s =>
  (Return (random_token env (random_draws s)),
   {| conversations := conversations s; files := files s;
      clock_reads := clock_reads s; random_draws := S (random_draws s);
      calls := calls s |}).

Definition enoent (syscall p : string) : string :=
  "ENOENT: no such file or directory, " +:+ syscall +:+ " '" +:+ p +:+ "'".

(** [fs.access(p)] *)
Definition fs_access (p : string) : M unit := fun s =>
  match files s !! p with
  | Some _ => (Return tt, s)
  | None => (Throw (enoent "access" p), s)
  end.

(** [fs.readFile(p)] *)
Definition fs_readFile (p : string) : M string := fun s =>
  match files s !! p with
  | Some buffer => (Return buffer, s)
  | None => (Throw (enoent "open" p), s)
  end.

(** [fs.mkdir(dir, { recursive: true })] *)
Definition fs_mkdir (dir : string) : M unit := ret tt.

(** [fs.writeFile(p, buffer)] *)
Definition fs_writeFile (p buffer : string) : M unit :=
  modify (set_files (fun d => <[p := buffer]> d)).

(** [fetch(url, ...)] against the image endpoint, followed by reading the
    body: the call is recorded, a transport failure throws. *)
Definition fetch (request : list GeminiImageRequestPart) (ratio : string)
    : M Response := fun s =>
  let s' := log_call (ImageCall request ratio) s in
  match fetch_image env (length (calls s)) request ratio with
  | NetworkFailure message => (Throw message, s')
  | Http r => (Return r, s')
  end.

(** [model.startChat({ history }).sendMessage(parts)] and [response.text()] *)
Definition chat_sendMessage (systemInstruction : option string)
    (context : list Turn) (message : list Part) : M string := fun s =>
  let s' := log_call (ChatCall systemInstruction context message) s in
  match send_chat env (length (calls s)) systemInstruction context message with
  | ChatFailure e => (Throw e, s')
  | ChatText t => (Return t, s')
  end.

(** *** [callGeminiImageAPI] *)

(** The body of the inner loop, on the mutable locals [imageData] and
    [textParts]. *)
Definition aggregate_part (acc : option string * list string)
    (part : GeminiImageRequestPart) : option string * list string :=
  let '(imageData, textParts) := acc in
  match truthy_opt (data <$> inlineData part) with
  | Some payload => (Some payload, textParts)
  | None =>
      match truthy_opt (text part) with
      | Some t => (imageData, textParts ++ [t])
      | None => (imageData, textParts)
      end
  end.

(** [chunk?.candidates?.[0]?.content?.parts || []] *)
Definition chunk_parts (chunk : Chunk) : list GeminiImageRequestPart :=
  match candidates chunk with
  | c :: _ => c
  | [] => []
  end.

Definition aggregate_chunk (acc : option string * list string) (chunk : Chunk)
    : option string * list string :=
  fold_left aggregate_part (chunk_parts chunk) acc.

Definition aggregate (chunks : list Chunk) : option string * list string :=
  fold_left aggregate_chunk chunks (None, []).

Definition parse_response (r : Response) : GeminiImageResponse :=
  match json r with
  | Some chunks =>
      let '(imageData, textParts) := aggregate chunks in
      {| imageData := imageData; textResponse := join "" textParts;
         error := None |}
  | None =>
      {| imageData := None; textResponse := body r;
         error := Some "Failed to parse API response" |}
  end.

Definition callGeminiImageAPI (request : list GeminiImageRequestPart)
    (aspectRatio : string) : M GeminiImageResponse :=
  response <- fetch request aspectRatio ;;
  if negb (ok response) then
    throw ("API request failed: " +:+ string_of_N (status response) +:+ " - "
           +:+ body response)
  else ret (parse_response response).

(** *** Media history *)

Definition generateImageId : M string :=
  now <- Date_now ;;
  token <- Math_random_token ;;
  ret ("img_" +:+ string_of_N now +:+ "_" +:+ token).

Definition with_imageHistory (context : ConversationContext)
    (h : list ImageHistoryEntry) : ConversationContext :=
  {| history := history context; imageHistory := h;
     aspectRatio := aspectRatio context |}.

(** [push] then, above the bound, [shift]. *)
Definition addImageToHistory (context : ConversationContext)
    (entry : ImageHistoryEntry) : ConversationContext :=
  let pushed := imageHistory context ++ [entry] in
  with_imageHistory context
    (if (MAX_IMAGE_HISTORY <? length pushed)%nat then tail pushed else pushed).

Definition getImageFromHistory (context : ConversationContext)
    (reference : string) : option ImageHistoryEntry :=
  match imageHistory context with
  | [] => None
  | _ =>
      if String.eqb reference "last" then
        imageHistory context !! (length (imageHistory context) - 1)
      else
        match match_history reference with
        | Some digits => imageHistory context !! parseInt digits
        | None => None
        end
  end.

(** *** Session registry *)

Definition fresh_context : ConversationContext :=
  {| history := []; imageHistory := []; aspectRatio := None |}.

Definition getOrCreateContext (conversationId : string) : M ConversationContext :=
  fun s =>
    match conversations s !! conversationId with
    | Some context => (Return context, s)
    | None =>
        (Return fresh_context,
         set_conversations (fun m => <[conversationId := fresh_context]> m) s)
    end.

(** A mutation made through the reference [context] held by a handler: it
    lands in the registry entry of the session, and the updated context is
    handed back. *)
Definition mutate_context (conversationId : string)
    (f : ConversationContext -> ConversationContext) : M ConversationContext :=
  fun s =>
    let context := f (default fresh_context (conversations s !! conversationId)) in
    (Return context,
     set_conversations (fun m => <[conversationId := context]> m) s).

Definition push_turn (t : Turn) (context : ConversationContext)
    : ConversationContext :=
  {| history := history context ++ [t]; imageHistory := imageHistory context;
     aspectRatio := aspectRatio context |}.

Definition with_aspectRatio (r : string) (context : ConversationContext)
    : ConversationContext :=
  {| history := history context; imageHistory := imageHistory context;
     aspectRatio := Some r |}.

(** *** Files *)

Definition imageToBase64 (imagePath : string) : M string :=
  imageBuffer <- fs_readFile imagePath ;;
  ret (base64_encode env imageBuffer).

Definition saveImageFromBuffer (buffer outputPath : string) : M unit :=
  let dir := Path.dirname outputPath in
  fs_mkdir dir ;;;
  fs_writeFile outputPath buffer.

Definition default_dir : string :=
  Path.join [homedir env; "Documents"; "nanobanana_generated"].

(** [path.join(homeDir, 'Documents', 'nanobanana_generated', path.basename(ref))] *)
Definition alt_path (reference : string) : string :=
  Path.join [homedir env; "Documents"; "nanobanana_generated";
             Path.basename reference].

(** A relative path is joined to the working directory. *)
Definition against_cwd (p : string) : string :=
  if negb (Path.isAbsolute p) then Path.join [cwd env; p] else p.

(** *** Reference resolution *)

(** The file branch shared by the chat images (lines 416-436) and the
    edit reference images (lines 743-763): first the path itself, then
    the base name inside the default directory; a failing [access] of the
    second candidate or a failing read throws. *)
Definition resolve_file (imgRef : string) : M string :=
  let resolvedPath := against_cwd imgRef in
  resolvedPath <-
    try_catch (fs_access resolvedPath ;;; ret resolvedPath)
      (fun _ =>
         let altPath := alt_path imgRef in
         fs_access altPath ;;; ret altPath) ;;
  imageToBase64 resolvedPath.

(** A chat image or an edit reference image: history first, file second. *)
Definition resolve_image (context : ConversationContext) (imgRef : string)
    : M InlineData :=
  match getImageFromHistory context imgRef with
  | Some historyImage =>
      ret {| inlineMimeType := mimeType historyImage;
             data := base64Data historyImage |}
  | None =>
      base64 <- resolve_file imgRef ;;
      ret {| inlineMimeType := "image/png"; data := base64 |}
  end.

(** A reference image of [gemini_generate_image] (lines 528-545). *)
Definition resolve_generate_reference (imgPath : string) : M InlineData :=
  let resolvedPath := against_cwd imgPath in
  base64 <- imageToBase64 resolvedPath ;;
  ret {| inlineMimeType := "image/png"; data := base64 |}.

(** The subject of [gemini_edit_image] (lines 692-723): the path shown to
    the caller and the payload. *)
Definition resolve_subject (historyImage : option ImageHistoryEntry)
    (image_path : string) : M (string * string) :=
  match historyImage with
  | Some historyImage => ret (filePath historyImage, base64Data historyImage)
  | None =>
      let resolvedImagePath := against_cwd image_path in
      resolvedImagePath <-
        try_catch (fs_access resolvedImagePath ;;; ret resolvedImagePath)
          (fun _ =>
             let altPath := alt_path image_path in
             try_catch (fs_access altPath ;;; ret altPath)
               (fun _ =>
                  throw ("Image file not found: " +:+ image_path +:+
                         ". Use 'last' or 'history:N' to reference session images."))) ;;
      imageBase64 <- imageToBase64 resolvedImagePath ;;
      ret (resolvedImagePath, imageBase64)
  end.

(** The loop over reference strings with its two mutable arrays: the
    parts built so far and the failures ([path], [reason]). *)
Definition collect_images {P} (resolve : string -> M InlineData)
    (wrap : InlineData -> P) (refs : list string) (parts0 : list P)
    : M (list P * list (string * string)) :=
  for_of refs (parts0, [])
    (fun '(acc, failed) imgRef =>
       try_catch
         (d <- resolve imgRef ;; ret (acc ++ [wrap d], failed))
         (fun reason => ret (acc, failed ++ [(imgRef, reason)]))).

Definition request_image (d : InlineData) : GeminiImageRequestPart :=
  {| text := None; inlineData := Some d |}.

Definition history_part (img : ImageHistoryEntry) : GeminiImageRequestPart :=
  image_part (mimeType img) (base64Data img).

(** *** Output paths *)

(** Lines 602-607 and 821-826. *)
Definition requested_path (output_path : string) : string :=
  let finalPath := against_cwd output_path in
  if negb (endsWith (toLowerCase finalPath) ".png")
  then replace_ext finalPath +:+ ".png"
  else finalPath.

(** Lines 596-600 and 815-819, [stem] being the file name up to the
    time stamp. *)
Definition default_path (stem : string) : M string :=
  let tempDir := default_dir in
  fs_mkdir tempDir ;;;
  now <- Date_now ;;
  let filename := stem +:+ string_of_N now +:+ ".png" in
  ret (Path.join [tempDir; filename]).

(** *** Texts *)

Definition ratio_list : string := join ", " VALID_ASPECT_RATIOS.

Definition invalid_ratio (r : string) : ToolResult :=
  {| content := "Invalid aspect ratio: " +:+ r +:+ ". Valid: " +:+ ratio_list;
     isError := true |}.

Definition missing_ratio : ToolResult :=
  {| content := "Error: Aspect ratio not specified. Either pass aspect_ratio parameter or call set_aspect_ratio first."
                +:+ nl +:+ "Valid ratios: " +:+ ratio_list;
     isError := true |}.

Definition failure_line (f : string * string) : string :=
  "  - " +:+ f.1 +:+ ": " +:+ f.2.

Definition warning (what : string) (failed : list (string * string)) : string :=
  if (0 <? length failed)%nat then
    nl +:+ nl +:+ "Warning: " +:+ string_of_nat (length failed) +:+ what
    +:+ " could not be loaded:" +:+ nl +:+ join nl (map failure_line failed)
  else "".

Definition model_response (textResponse : string) : string :=
  if truthy textResponse then nl +:+ nl +:+ "Model response: " +:+ textResponse
  else "".

Definition no_image (textResponse : string) : string :=
  if truthy textResponse then "Model response: " +:+ textResponse
  else "No image returned from model".

Definition consistency_suffix : string :=
  nl +:+ nl +:+ "IMPORTANT: Maintain visual consistency with the provided reference images (same style, character appearance, color palette).".

Definition editing_prompt (edit_prompt : string) : string :=
  "Based on this image, generate a new edited version with the following modifications: "
  +:+ edit_prompt +:+ nl +:+ nl +:+
  "IMPORTANT: Create a completely new image that incorporates the requested changes while maintaining the style and overall composition of the original.".

(** [a ?? b] *)
Definition nullish {A} (a b : option A) : option A :=
  match a with Some x => Some x | None => b end.

(** [aspect_ratio && !VALID_ASPECT_RATIOS.includes(aspect_ratio)], with the
    ratio that fails the test. *)
Definition invalid_explicit (aspect_ratio : option string) : option string :=
  match truthy_opt aspect_ratio with
  | Some r => if negb (valid_ratio r) then Some r else None
  | None => None
  end.

(** *** The tools *)

Definition gemini_chat (message : string)
    (conversation_id system_prompt : option string)
    (images : option (list string)) : M ToolResult :=
  let conversation_id := default "default" conversation_id in
  let images := default [] images in
  context <- getOrCreateContext conversation_id ;;
  let messageParts := [TextPart message] in
  let imageRefs := slice_first 10 images in
  loaded <-
    collect_images (resolve_image context) InlineDataPart imageRefs messageParts ;;
  let '(messageParts, failedImages) := loaded in
  context <- mutate_context conversation_id
               (push_turn {| role := user; parts := messageParts |}) ;;
  t <- chat_sendMessage system_prompt (slice_but_last (history context))
         messageParts ;;
  mutate_context conversation_id
    (push_turn {| role := model; parts := [TextPart t] |}) ;;;
  let imageCount := (length messageParts - 1)%nat in
  let responseText :=
    if (0 <? imageCount)%nat
    then "[" +:+ string_of_nat imageCount +:+ " image(s) included]" +:+ nl
         +:+ nl +:+ t
    else t in
  ret {| content := responseText +:+ warning " image(s)" failedImages;
         isError := false |}.

Definition new_entry (finalPath imageData prompt : string) (kind : ImageKind)
    : M ImageHistoryEntry :=
  newId <- generateImageId ;;
  now <- Date_now ;;
  ret {| id := newId; filePath := finalPath; base64Data := imageData;
         mimeType := "image/png"; prompt := prompt; timestamp := now;
         type := kind |}.

(** The output path of a generate or edit call (lines 594-608 and
    812-827): an absent or empty [output_path] selects the default
    directory. *)
Definition output_path_for (output_path : option string) (stem : string)
    : M string :=
  match truthy_opt output_path with
  | None => default_path stem
  | Some requested => ret (requested_path requested)
  end.

(** Saving the image and recording it in the session (lines 610-623 and
    829-842); the final path and the updated context are handed back. *)
Definition save_and_record (conversation_id finalPath imageData prompt : string)
    (kind : ImageKind) : M ConversationContext :=
  let buffer := base64_decode env imageData in
  saveImageFromBuffer buffer finalPath ;;;
  entry <- new_entry finalPath imageData prompt kind ;;
  mutate_context conversation_id (fun c => addImageToHistory c entry).

Definition gemini_generate_image (prompt : string)
    (aspect_ratio output_path conversation_id : option string)
    (use_image_history : option bool) (reference_images : option (list string))
    : M ToolResult :=
  let conversation_id := default "default" conversation_id in
  let use_image_history := default false use_image_history in
  let reference_images := default [] reference_images in
  try_catch
    (context <- getOrCreateContext conversation_id ;;
     match invalid_explicit aspect_ratio with
     | Some r => ret (invalid_ratio r)
     | None =>
     match nullish aspect_ratio (aspectRatio context) with
     | None => ret missing_ratio
     | Some effectiveAspectRatio =>
       loaded <-
         (if (0 <? length reference_images)%nat
          then collect_images resolve_generate_reference request_image
                 reference_images []
          else ret ([], [])) ;;
       let '(parts, failedReferenceImages) := loaded in
       let parts :=
         if use_image_history && (0 <? length (imageHistory context))%nat
         then parts ++ map history_part
                         (slice_last MAX_REFERENCE_IMAGES (imageHistory context))
         else parts in
       let finalPrompt :=
         if use_image_history && (0 <? length (imageHistory context))%nat
         then prompt +:+ consistency_suffix
         else prompt in
       let parts := parts ++ [text_part finalPrompt] in
       apiResponse <- callGeminiImageAPI parts effectiveAspectRatio ;;
       match truthy_opt (error apiResponse) with
       | Some e =>
           ret {| content := "Image generation failed: " +:+ e +:+ nl
                             +:+ textResponse apiResponse;
                  isError := true |}
       | None =>
       match truthy_opt (imageData apiResponse) with
       | None =>
           ret {| content := "Image generation failed." +:+ nl +:+ "Prompt: "
                             +:+ dq +:+ prompt +:+ dq +:+ nl
                             +:+ no_image (textResponse apiResponse);
                  isError := true |}
       | Some imageData =>
           finalPath <- output_path_for output_path "generated_" ;;
           context <- save_and_record conversation_id finalPath imageData
                        prompt generated ;;
           ret {| content :=
                    "Image generated successfully!" +:+ nl
                    +:+ "Prompt: " +:+ dq +:+ prompt +:+ dq +:+ nl
                    +:+ "Saved to: " +:+ finalPath +:+ nl
                    +:+ "Session: " +:+ conversation_id +:+ " (history: "
                    +:+ string_of_nat (length (imageHistory context))
                    +:+ " images)"
                    +:+ warning " reference image(s)" failedReferenceImages
                    +:+ model_response (textResponse apiResponse);
                  isError := false |}
       end end end end)
    (fun message =>
       ret {| content := "Error generating image: " +:+ message;
              isError := false |}).

Definition gemini_edit_image (image_path edit_prompt : string)
    (aspect_ratio output_path conversation_id : option string)
    (reference_images : option (list string)) : M ToolResult :=
  let conversation_id := default "default" conversation_id in
  let reference_images := default [] reference_images in
  try_catch
    (context <- getOrCreateContext conversation_id ;;
     match invalid_explicit aspect_ratio with
     | Some r => ret (invalid_ratio r)
     | None =>
     match nullish aspect_ratio (aspectRatio context) with
     | None => ret missing_ratio
     | Some effectiveAspectRatio =>
       let historyImage := getImageFromHistory context image_path in
       subject <- resolve_subject historyImage image_path ;;
       let '(resolvedImagePath, imageBase64) := subject in
       let refImages := slice_first 10 reference_images in
       loaded <-
         collect_images (resolve_image context) request_image refImages [] ;;
       let '(parts, failedReferenceImages) := loaded in
       let parts := parts ++ [text_part (editing_prompt edit_prompt)] in
       let parts := parts ++ [image_part "image/png" imageBase64] in
       apiResponse <- callGeminiImageAPI parts effectiveAspectRatio ;;
       match truthy_opt (error apiResponse) with
       | Some e =>
           ret {| content := "Image editing failed: " +:+ e +:+ nl
                             +:+ textResponse apiResponse;
                  isError := true |}
       | None =>
       match truthy_opt (imageData apiResponse) with
       | None =>
           ret {| content := "Image editing failed." +:+ nl +:+ "Original: "
                             +:+ image_path +:+ nl +:+ "Edit request: "
                             +:+ dq +:+ edit_prompt +:+ dq +:+ nl
                             +:+ no_image (textResponse apiResponse);
                  isError := true |}
       | Some imageData =>
           let origName :=
             match historyImage with
             | Some h => "history_" +:+ id h
             | None => Path.parse_name image_path
             end in
           finalPath <- output_path_for output_path (origName +:+ "_edited_") ;;
           context <- save_and_record conversation_id finalPath imageData
                        edit_prompt edited ;;
           ret {| content :=
                    "Image edited successfully!" +:+ nl
                    +:+ "Original: "
                    +:+ (match historyImage with
                         | Some _ => "[" +:+ image_path +:+ "] " +:+ resolvedImagePath
                         | None => resolvedImagePath
                         end) +:+ nl
                    +:+ "Edit request: " +:+ dq +:+ edit_prompt +:+ dq +:+ nl
                    +:+ "Saved to: " +:+ finalPath +:+ nl
                    +:+ "Session: " +:+ conversation_id +:+ " (history: "
                    +:+ string_of_nat (length (imageHistory context))
                    +:+ " images)"
                    +:+ warning " reference image(s)" failedReferenceImages
                    +:+ model_response (textResponse apiResponse);
                  isError := false |}
       end end end end)
    (fun message =>
       ret {| content := "Error editing image: " +:+ message;
              isError := false |}).

Definition get_image_history (conversation_id : string) : M ToolResult :=
  registry <- gets conversations ;;
  match registry !! conversation_id with
  | Some context =>
      match imageHistory context with
      | [] =>
          ret {| content := "No image history found for session: "
                            +:+ conversation_id;
                 isError := false |}
      | _ =>
          let historyInfo := imap (fun index img => (index, img))
                               (imageHistory context) in
          ret {| content :=
                   "Image History for session " +:+ dq +:+ conversation_id
                   +:+ dq +:+ " ("
                   +:+ string_of_nat (length (imageHistory context))
                   +:+ " images):" +:+ nl +:+ nl
                   +:+ "Use " +:+ dq +:+ "last" +:+ dq
                   +:+ " to reference the most recent image, or " +:+ dq
                   +:+ "history:N" +:+ dq +:+ " (e.g., " +:+ dq +:+ "history:0"
                   +:+ dq +:+ ") to reference by index." +:+ nl +:+ nl
                   +:+ json_history env historyInfo;
                 isError := false |}
      end
  | None =>
      ret {| content := "No image history found for session: "
                        +:+ conversation_id;
             isError := false |}
  end.

Definition clear_conversation (conversation_id : string) : M ToolResult :=
  modify (set_conversations (fun m => delete conversation_id m)) ;;;
  ret {| content := "Conversation history cleared for ID: " +:+ conversation_id;
         isError := false |}.

Definition check_mark : string :=
  String "226"%char (String "156"%char (String "147"%char EmptyString)).

Definition set_aspect_ratio (aspect_ratio : string)
    (conversation_id : option string) : M ToolResult :=
  let conversation_id := default "default" conversation_id in
  if negb (valid_ratio aspect_ratio) then ret (invalid_ratio aspect_ratio)
  else
    getOrCreateContext conversation_id ;;;
    mutate_context conversation_id (with_aspectRatio aspect_ratio) ;;;
    ret {| content := check_mark +:+ " Aspect ratio set to " +:+ aspect_ratio
                      +:+ " for session: " +:+ conversation_id +:+ nl
                      +:+ "This will apply to both image generation and editing.";
           isError := false |}.

(** *** Dispatch *)

Inductive Request :=
  | Chat (message : string) (conversation_id system_prompt : option string)
      (images : option (list string))
  | GenerateImage (prompt : string)
      (aspect_ratio output_path conversation_id : option string)
      (use_image_history : option bool) (reference_images : option (list string))
  | EditImage (image_path edit_prompt : string)
      (aspect_ratio output_path conversation_id : option string)
      (reference_images : option (list string))
  | GetImageHistory (conversation_id : string)
  | ClearConversation (conversation_id : string)
  | SetAspectRatio (aspect_ratio : string) (conversation_id : option string)
  | UnknownTool (name : string).

Definition dispatch (request : Request) : M ToolResult :=
  match request with
  | Chat message conversation_id system_prompt images =>
      gemini_chat message conversation_id system_prompt images
  | GenerateImage prompt aspect_ratio output_path conversation_id
      use_image_history reference_images =>
      gemini_generate_image prompt aspect_ratio output_path conversation_id
        use_image_history reference_images
  | EditImage image_path edit_prompt aspect_ratio output_path conversation_id
      reference_images =>
      gemini_edit_image image_path edit_prompt aspect_ratio output_path
        conversation_id reference_images
  | GetImageHistory conversation_id => get_image_history conversation_id
  | ClearConversation conversation_id => clear_conversation conversation_id
  | SetAspectRatio aspect_ratio conversation_id =>
      set_aspect_ratio aspect_ratio conversation_id
  | UnknownTool name => throw ("Unknown tool: " +:+ name)
  end.

(** The request handler: whatever a tool throws becomes an error result. *)
Definition call_tool (request : Request) (s : State) : ToolResult * State :=
  match dispatch request s with
  | (Return r, s') => (r, s')
  | (Throw message, s') =>
      ({| content := "Error: " +:+ message; isError := true |}, s')
  end.

(** A run of the server over a list of requests. *)
Fixpoint run (requests : list Request) (s : State) : State :=
  match requests with
  | [] => s
  | r :: rest => run rest (call_tool r s).2
  end.
End Server.

(** * Vocabulary of the properties *)

Section Vocabulary.
Import Js.
Variable env : Env.

Definition is_digit (c : ascii) : bool :=
  let n := nat_of_ascii c in (48 <=? n)%nat && (n <=? 57)%nat.

(** A run of decimal digits, at least one: what [\d+] accepts. *)
Definition digit_run (s : string) : bool :=
  truthy s && forallb is_digit (chars s).

(** Where the file branch finds a reference: the path itself (joined to
    the working directory when relative), else its base name in the
    default directory. *)
Definition locate (disk : gmap string string) (reference : string)
    : option string :=
  match disk !! against_cwd env reference with
  | Some buffer => Some buffer
  | None => disk !! alt_path env reference
  end.

Definition not_found (image_path : string) : string :=
  "Image file not found: " +:+ image_path +:+
  ". Use 'last' or 'history:N' to reference session images.".

(** The context a handler works on: the registry entry of the session,
    or the fresh context that [getOrCreateContext] installs. *)
Definition session (s : State) (conversationId : string) : ConversationContext :=
  default fresh_context (conversations s !! conversationId).

Definition session_history (s : State) (conversationId : string)
    : list ImageHistoryEntry :=
  imageHistory (session s conversationId).

Definition put (conversationId : string) (context : ConversationContext)
    (s : State) : State :=
  set_conversations (fun m => <[conversationId := context]> m) s.

Definition touch (conversationId : string) (s : State) : State :=
  put conversationId (session s conversationId) s.

Definition tick (s : State) : State :=
  {| conversations := conversations s; files := files s;
     clock_reads := S (clock_reads s); random_draws := random_draws s;
     calls := calls s |}.

(** The reference loops only read: the images that load and the failures
    that are reported, both in the order of the references. *)
Definition loaded (resolve : string -> M InlineData) (s : State)
    (refs : list string) : list InlineData :=
  omap (fun r => match (resolve r s).1 with
                 | Return d => Some d
                 | Throw _ => None
                 end) refs.

Definition failures (resolve : string -> M InlineData) (s : State)
    (refs : list string) : list (string * string) :=
  omap (fun r => match (resolve r s).1 with
                 | Return _ => None
                 | Throw reason => Some (r, reason)
                 end) refs.

(** What a reference of the chat and edit tools loads as: a history record
    by its own type and payload, a file as a PNG. *)
Definition image_of (context : ConversationContext) (disk : gmap string string)
    (reference : string) : option InlineData :=
  match getImageFromHistory context reference with
  | Some h => Some {| inlineMimeType := mimeType h; data := base64Data h |}
  | None =>
      (fun buffer => {| inlineMimeType := "image/png";
                        data := base64_encode env buffer |})
      <$> locate disk reference
  end.

(** What a reference image of the generate tool loads as. *)
Definition file_of (disk : gmap string string) (reference : string)
    : option InlineData :=
  (fun buffer => {| inlineMimeType := "image/png";
                    data := base64_encode env buffer |})
  <$> disk !! against_cwd env reference.

(** The failures the two loops report. *)
Definition failed_images (context : ConversationContext)
    (disk : gmap string string) (refs : list string) : list (string * string) :=
  omap (fun r => match image_of context disk r with
                 | Some _ => None
                 | None => Some (r, enoent "access" (alt_path env r))
                 end) refs.

Definition failed_files (disk : gmap string string) (refs : list string)
    : list (string * string) :=
  omap (fun r => match file_of disk r with
                 | Some _ => None
                 | None => Some (r, enoent "open" (against_cwd env r))
                 end) refs.

Definition default_file (stem : string) (s : State) : string :=
  Path.join [default_dir env;
             stem +:+ string_of_N (date_now env (clock_reads s)) +:+ ".png"].

Definition chosen_path (output_path : option string) (stem : string)
    (s : State) : string :=
  match truthy_opt output_path with
  | None => default_file stem s
  | Some requested => requested_path env requested
  end.

Definition after_path (output_path : option string) (s : State) : State :=
  match truthy_opt output_path with
  | None => tick s
  | Some _ => s
  end.

(** The record a successful call stores. *)
Definition recorded_entry (finalPath imageData prompt : string)
    (kind : ImageKind) (s : State) : ImageHistoryEntry :=
  {| id := "img_" +:+ string_of_N (date_now env (clock_reads s)) +:+ "_"
           +:+ random_token env (random_draws s);
     filePath := finalPath; base64Data := imageData; mimeType := "image/png";
     prompt := prompt; timestamp := date_now env (S (clock_reads s));
     type := kind |}.

Definition recorded_context (conversationId finalPath imageData prompt : string)
    (kind : ImageKind) (s : State) : ConversationContext :=
  addImageToHistory (session s conversationId)
    (recorded_entry finalPath imageData prompt kind s).

Definition recorded_state (conversationId finalPath imageData prompt : string)
    (kind : ImageKind) (s : State) : State :=
  {| conversations :=
       <[conversationId :=
           recorded_context conversationId finalPath imageData prompt kind s]>
         (conversations s);
     files := <[finalPath := base64_decode env imageData]> (files s);
     clock_reads := S (S (clock_reads s));
     random_draws := S (random_draws s);
     calls := calls s |}.

Definition with_history (use_image_history : bool)
    (context : ConversationContext) : bool :=
  use_image_history && (0 <? length (imageHistory context))%nat.

(** The request of a generate call. *)
Definition generate_request (context : ConversationContext)
    (disk : gmap string string) (prompt : string) (use_image_history : bool)
    (reference_images : list string) : list GeminiImageRequestPart :=
  map request_image (omap (file_of disk) reference_images)
  ++ (if with_history use_image_history context
      then map history_part (slice_last MAX_REFERENCE_IMAGES (imageHistory context))
      else [])
  ++ [text_part (if with_history use_image_history context
                 then prompt +:+ consistency_suffix
                 else prompt)].

Definition generate_thrown (message : string) : ToolResult :=
  {| content := "Error generating image: " +:+ message; isError := false |}.

Definition api_request_failed (r : Response) : string :=
  "API request failed: " +:+ string_of_N (status r) +:+ " - " +:+ body r.

Definition generate_unparsed (e textResponse : string) : ToolResult :=
  {| content := "Image generation failed: " +:+ e +:+ nl +:+ textResponse;
     isError := true |}.

Definition generate_no_image (prompt textResponse : string) : ToolResult :=
  {| content := "Image generation failed." +:+ nl +:+ "Prompt: " +:+ dq
                +:+ prompt +:+ dq +:+ nl +:+ no_image textResponse;
     isError := true |}.

Definition generate_done (prompt finalPath conversation_id : string)
    (held : nat) (failed : list (string * string)) (textResponse : string)
    : ToolResult :=
  {| content := "Image generated successfully!" +:+ nl
                +:+ "Prompt: " +:+ dq +:+ prompt +:+ dq +:+ nl
                +:+ "Saved to: " +:+ finalPath +:+ nl
                +:+ "Session: " +:+ conversation_id +:+ " (history: "
                +:+ string_of_nat held +:+ " images)"
                +:+ warning " reference image(s)" failed
                +:+ model_response textResponse;
     isError := false |}.

(** The outcome of an image call once the request is sent: [thrown],
    [unparsed] and [no_image] build the three failure results,
    [done] the success result from the final path and the updated
    context. *)
Definition image_outcome (thrown : string -> ToolResult)
    (unparsed : string -> string -> ToolResult)
    (no_image_result : string -> ToolResult)
    (done_result : string -> ConversationContext -> string -> ToolResult)
    (conversationId prompt : string) (kind : ImageKind)
    (output_path : option string) (stem : string)
    (request : list GeminiImageRequestPart) (ratio : string) (s : State)
    : ToolResult * State :=
  let s2 := log_call (ImageCall request ratio) s in
  match fetch_image env (length (calls s)) request ratio with
  | NetworkFailure message => (thrown message, s2)
  | Http r =>
      if ok r then
        match truthy_opt (error (parse_response r)) with
        | Some e => (unparsed e (textResponse (parse_response r)), s2)
        | None =>
            match truthy_opt (imageData (parse_response r)) with
            | None => (no_image_result (textResponse (parse_response r)), s2)
            | Some payload =>
                let finalPath := chosen_path output_path stem s2 in
                let s3 := after_path output_path s2 in
                (done_result finalPath
                   (recorded_context conversationId finalPath payload prompt kind s3)
                   (textResponse (parse_response r)),
                 recorded_state conversationId finalPath payload prompt kind s3)
            end
        end
      else (thrown (api_request_failed r), s2)
  end.

Definition lift (x : ToolResult * State) : Outcome ToolResult * State :=
  (Return x.1, x.2).

(** The subject of an edit: the path reported to the caller and the
    payload, from the history, the path itself or the default directory. *)
Definition subject_of (context : ConversationContext)
    (disk : gmap string string) (image_path : string)
    : option (string * string) :=
  match getImageFromHistory context image_path with
  | Some h => Some (filePath h, base64Data h)
  | None =>
      match disk !! against_cwd env image_path with
      | Some buffer => Some (against_cwd env image_path, base64_encode env buffer)
      | None =>
          match disk !! alt_path env image_path with
          | Some buffer => Some (alt_path env image_path, base64_encode env buffer)
          | None => None
          end
      end
  end.

(** The request of an edit call. *)
Definition edit_request (context : ConversationContext)
    (disk : gmap string string) (edit_prompt imageBase64 : string)
    (reference_images : list string) : list GeminiImageRequestPart :=
  map request_image
    (omap (image_of context disk) (slice_first 10 reference_images))
  ++ [text_part (editing_prompt edit_prompt)]
  ++ [image_part "image/png" imageBase64].

Definition edit_thrown (message : string) : ToolResult :=
  {| content := "Error editing image: " +:+ message; isError := false |}.

Definition edit_unparsed (e textResponse : string) : ToolResult :=
  {| content := "Image editing failed: " +:+ e +:+ nl +:+ textResponse;
     isError := true |}.

Definition edit_no_image (image_path edit_prompt textResponse : string)
    : ToolResult :=
  {| content := "Image editing failed." +:+ nl +:+ "Original: " +:+ image_path
                +:+ nl +:+ "Edit request: " +:+ dq +:+ edit_prompt +:+ dq
                +:+ nl +:+ no_image textResponse;
     isError := true |}.

Definition edit_done (original edit_prompt finalPath conversation_id : string)
    (held : nat) (failed : list (string * string)) (textResponse : string)
    : ToolResult :=
  {| content := "Image edited successfully!" +:+ nl
                +:+ "Original: " +:+ original +:+ nl
                +:+ "Edit request: " +:+ dq +:+ edit_prompt +:+ dq +:+ nl
                +:+ "Saved to: " +:+ finalPath +:+ nl
                +:+ "Session: " +:+ conversation_id +:+ " (history: "
                +:+ string_of_nat held +:+ " images)"
                +:+ warning " reference image(s)" failed
                +:+ model_response textResponse;
     isError := false |}.

Definition edit_stem (context : ConversationContext) (image_path : string)
    : string :=
  match getImageFromHistory context image_path with
  | Some h => "history_" +:+ id h
  | None => Path.parse_name image_path
  end +:+ "_edited_".

Definition edit_original (context : ConversationContext)
    (image_path resolvedImagePath : string) : string :=
  match getImageFromHistory context image_path with
  | Some _ => "[" +:+ image_path +:+ "] " +:+ resolvedImagePath
  | None => resolvedImagePath
  end.

(** The parts of the user turn of a chat call. *)
Definition chat_message (context : ConversationContext)
    (disk : gmap string string) (message : string) (images : list string)
    : list Part :=
  [TextPart message]
  ++ map InlineDataPart (omap (image_of context disk) (slice_first 10 images)).

Definition chat_reply (messageParts : list Part)
    (failed : list (string * string)) (t : string) : ToolResult :=
  {| content :=
       (if (0 <? length messageParts - 1)%nat
        then "[" +:+ string_of_nat (length messageParts - 1)
             +:+ " image(s) included]" +:+ nl +:+ nl +:+ t
        else t) +:+ warning " image(s)" failed;
     isError := false |}.

(** The success texts of lines 625 and 844. *)
Definition succeeded (r : ToolResult) : bool :=
  Js.startsWith (content r) "Image generated successfully!"
  || Js.startsWith (content r) "Image edited successfully!".

(** A generate or edit call on the session [conversationId]. *)
Definition on_session (conversationId : string) (request : Request) : bool :=
  match request with
  | GenerateImage _ _ _ cid _ _ | EditImage _ _ _ _ cid _ =>
      bool_decide (default "default" cid = conversationId)
  | _ => false
  end.

Definition clears (conversationId : string) (request : Request) : bool :=
  match request with
  | ClearConversation cid => bool_decide (cid = conversationId)
  | _ => false
  end.

(** The records stored in a session by its successful generate and edit
    calls since it was created or last cleared, in call order: [acc] holds
    those of the calls made before [request]. *)
Definition advance (conversationId : string) (request : Request) (s : State)
    (acc : list ImageHistoryEntry) : list ImageHistoryEntry :=
  let x := call_tool env request s in
  if clears conversationId request then []
  else if on_session conversationId request && succeeded x.1
       then acc ++ option_list (last (session_history x.2 conversationId))
       else acc.

Fixpoint recorded (conversationId : string) (requests : list Request)
    (s : State) (acc : list ImageHistoryEntry) : list ImageHistoryEntry :=
  match requests with
  | [] => acc
  | r :: rest =>
      recorded conversationId rest (call_tool env r s).2
        (advance conversationId r s acc)
  end.

(** The number of those calls. *)
Fixpoint successes (conversationId : string) (requests : list Request)
    (s : State) (n : nat) : nat :=
  match requests with
  | [] => n
  | r :: rest =>
      let x := call_tool env r s in
      successes conversationId rest x.2
        (if clears conversationId r then 0
         else if on_session conversationId r && succeeded x.1 then S n else n)
  end.

(** The prompt and the kind of the record a generate or edit call stores
    when it succeeds. *)
Definition label (request : Request) : option (string * ImageKind) :=
  match request with
  | GenerateImage prompt _ _ _ _ _ => Some (prompt, generated)
  | EditImage _ edit_prompt _ _ _ _ => Some (edit_prompt, edited)
  | _ => None
  end.

(** The successful generate and edit calls of a session since it was
    created or last cleared, each by its prompt and kind, in call order. *)
Fixpoint asked (conversationId : string) (requests : list Request)
    (s : State) (acc : list (string * ImageKind)) : list (string * ImageKind) :=
  match requests with
  | [] => acc
  | r :: rest =>
      let x := call_tool env r s in
      asked conversationId rest x.2
        (if clears conversationId r then []
         else if on_session conversationId r && succeeded x.1
              then acc ++ option_list (label r)
              else acc)
  end.

(** What a generate or edit call does to the sessions: nothing when it
    fails, one more record of its prompt and kind in its own session when
    it succeeds. *)
Definition appends (cid prompt0 : string) (kind : ImageKind) (s : State)
    (x : ToolResult * State) : Prop :=
  (succeeded x.1 = false
   /\ forall j, session_history x.2 j = session_history s j)
  \/ (succeeded x.1 = true
      /\ exists entry,
           session x.2 cid = addImageToHistory (session s cid) entry
           /\ (prompt entry, type entry) = (prompt0, kind)
           /\ forall j, cid <> j -> session x.2 j = session s j).

(** The ratio a generate or edit call works with: [inl] is the result
    returned at once, [inr] the ratio passed to the backend. *)
Definition resolve_ratio (aspect_ratio sessionDefault : option string)
    : ToolResult + string :=
  match invalid_explicit aspect_ratio with
  | Some r => inl (invalid_ratio r)
  | None =>
      match nullish aspect_ratio sessionDefault with
      | None => inl missing_ratio
      | Some ratio => inr ratio
      end
  end.

(** The image payload a part carries, if any: a non-empty
    [inlineData.data]. *)
Definition payload_of (part : GeminiImageRequestPart) : option string :=
  truthy_opt (data <$> inlineData part).

(** The parts of a response in arrival order. *)
Definition arrival (chunks : list Chunk) : list GeminiImageRequestPart :=
  concat (map chunk_parts chunks).


(** The text the loop keeps from a part. *)
Definition kept_text (part : GeminiImageRequestPart) : option string :=
  match payload_of part with
  | Some _ => None
  | None => truthy_opt (text part)
  end.

(** A directory prefix: empty, or ending in a separator. *)
Definition dir_prefix (pre : list ascii) : Prop :=
  pre = [] \/ last pre = Some "/"%char.

(** A plain name: no separator in it, and kept as a segment of its own
    by [normalizeString]. *)
Definition plain (name : list ascii) : Prop :=
  name <> []
  /\ forallb (fun c => negb (Ascii.eqb c Path.slash)) name = true
  /\ forall allow stack, Path.norm_step allow stack name = name :: stack.

(** The directory part that [path.join(dir, name)] puts before a plain
    name. *)
Definition joined_dir (dir : list ascii) : list ascii :=
  match dir with
  | [] => []
  | c :: _ =>
      let stack := fold_left (Path.norm_step (negb (Ascii.eqb c Path.slash)))
                     (Path.split dir) [] in
      (if Ascii.eqb c Path.slash then [Path.slash] else [])
      ++ match stack with
         | [] => []
         | _ => Path.unsplit (rev stack) ++ [Path.slash]
         end
  end.
End Vocabulary.

(** ** Concrete worlds for the scenarios *)

(** A concrete world: the backend answers every image request with one
    text fragment and one image, and the chat capability is down. *)
Definition image_reply : Response :=
  {| status := 200;
     body := "[{...}]";
     json := Some [ {| candidates := [[text_part "Here it is."]] |};
                    {| candidates := [[image_part "image/png" "iVBORw0KGgo="]] |} ] |}.

Definition demo : Env :=
  {| cwd := "/work";
     homedir := "/home/u";
     date_now := fun k => (1700000000000 + N.of_nat k)%N;
     random_token := fun _ => "k3x9q2m1z";
     fetch_image := fun _ _ _ => Http image_reply;
     send_chat := fun _ _ _ _ => ChatFailure "fetch failed";
     base64_encode := fun buffer => buffer;
     base64_decode := fun payload => payload;
     json_history := fun _ => "[]" |}.

Definition disk : gmap string string :=
  {[ "/work/a.png" := "AAAA";
     "/home/u/Documents/nanobanana_generated/b.png" := "BBBB" ]}.

Definition generate_cat : Request :=
  GenerateImage "cat" (Some "1:1") None None None None.




(** ** Vocabulary of the properties of the registry, the files and the log *)

Section Sessions.
Variable env : Env.

(** The session a request names as the one it works on. *)
Definition target (request : Request) : option string :=
  match request with
  | Chat _ cid _ _ | GenerateImage _ _ _ cid _ _ | EditImage _ _ _ _ cid _
  | SetAspectRatio _ cid => Some (default "default" cid)
  | ClearConversation cid | GetImageHistory cid => Some cid
  | UnknownTool _ => None
  end.

(** A [set_aspect_ratio] or [clear_conversation] call on the session. *)
Definition configures (conversationId : string) (request : Request) : bool :=
  match request with
  | SetAspectRatio _ cid => bool_decide (default "default" cid = conversationId)
  | ClearConversation cid => bool_decide (cid = conversationId)
  | _ => false
  end.

(** A [gemini_chat] call on the session. *)
Definition chats (conversationId : string) (request : Request) : bool :=
  match request with
  | Chat _ cid _ _ => bool_decide (default "default" cid = conversationId)
  | _ => false
  end.

Definition is_chat (request : Request) : bool :=
  match request with Chat _ _ _ _ => true | _ => false end.

(** The tools that talk to a backend. *)
Definition remote (request : Request) : bool :=
  match request with
  | Chat _ _ _ _ | GenerateImage _ _ _ _ _ _ | EditImage _ _ _ _ _ _ => true
  | _ => false
  end.

(** A stored default ratio is absent or a member of the enumeration. *)
Definition ratio_ok (context : ConversationContext) : bool :=
  match aspectRatio context with
  | None => true
  | Some r => valid_ratio r
  end.

(** The default ratio of the session [j] after a call, from the one
    before it. *)
Definition ratio_after (request : Request) (j : string) (old : option string)
    : option string :=
  match request with
  | SetAspectRatio r cid =>
      if valid_ratio r && bool_decide (default "default" cid = j)
      then Some r else old
  | ClearConversation cid => if bool_decide (cid = j) then None else old
  | _ => old
  end.

(** What a generate or edit call leaves behind: nothing when it fails; when
    it succeeds, one more record in its session and the decoded payload of
    that record in the file the record names. *)
Definition stored (cid prompt0 : string) (kind : ImageKind) (s : State)
    (x : ToolResult * State) : Prop :=
  (succeeded x.1 = false
   /\ (forall j, session x.2 j = session s j)
   /\ files x.2 = files s)
  \/ (succeeded x.1 = true
      /\ exists entry,
           session x.2 cid = addImageToHistory (session s cid) entry
           /\ (forall j, cid <> j -> session x.2 j = session s j)
           /\ files x.2
              = <[filePath entry := base64_decode env (base64Data entry)]> (files s)
           /\ prompt entry = prompt0 /\ type entry = kind
           /\ mimeType entry = "image/png").

(** The replies of a run, in call order. *)
Fixpoint replies (requests : list Request) (s : State) : list ToolResult :=
  match requests with
  | [] => []
  | r :: rest =>
      let x := call_tool env r s in
      x.1 :: replies rest x.2
  end.

(** Two states that differ at most in which fresh sessions are
    registered. *)
Definition alike (s s' : State) : Prop :=
  (forall j, session s j = session s' j)
  /\ files s = files s'
  /\ clock_reads s = clock_reads s'
  /\ random_draws s = random_draws s'
  /\ calls s = calls s'.

(** A transcript in which every user turn starts with a text part and
    every model turn is a single text part that comes right after a user
    turn; [previous] is the role of the turn before [turns]. *)
Fixpoint follows (previous : option Role) (turns : list Turn) : bool :=
  match turns with
  | [] => true
  | t :: rest =>
      match role t, parts t, previous with
      | user, TextPart _ :: _, _ => follows (Some user) rest
      | model, [TextPart _], Some user => follows (Some model) rest
      | _, _, _ => false
      end
  end.

Definition dialogue (turns : list Turn) : bool := follows None turns.

(** A path with the extension [.png], in any letter case. *)
Definition png_path (p : string) : bool :=
  Js.endsWith (Js.toLowerCase p) ".png".

(** The text [needle] occurs in the text [hay]. *)
Definition occurs (needle hay : string) : Prop :=
  exists before after, hay = before +:+ needle +:+ after.

(** An extension: a dot followed by one or more characters, none of them
    a dot or a separator. *)
Definition extension (e : list ascii) : Prop :=
  exists body,
    e = "."%char :: body /\ body <> []
    /\ Forall (fun c => c <> "/"%char /\ c <> "."%char) body.

(** The extension of [resolved] forced to [.png]: a path that ends in
    [.png], in any letter case, is kept; otherwise the extension the path
    ends with is replaced by [.png], or [.png] is appended when the path
    ends with no extension. *)
Definition forced_png (resolved final : string) : Prop :=
  if Js.endsWith (Js.toLowerCase resolved) ".png" then final = resolved
  else (exists stem e,
          resolved = stem +:+ e /\ extension (Js.chars e)
          /\ final = stem +:+ ".png")
       \/ ((forall stem e, resolved = stem +:+ e -> ~ extension (Js.chars e))
           /\ final = resolved +:+ ".png").

(** The notice of [get_image_history] for a session without records. *)
Definition no_history (conversation_id : string) : string :=
  "No image history found for session: " +:+ conversation_id.
End Sessions.

(** A world whose image endpoint cannot be reached. *)
Definition demo_offline : Env :=
  {| cwd := cwd demo; homedir := homedir demo; date_now := date_now demo;
     random_token := random_token demo;
     fetch_image := fun _ _ _ => NetworkFailure "fetch failed";
     send_chat := send_chat demo; base64_encode := base64_encode demo;
     base64_decode := base64_decode demo; json_history := json_history demo |}.

(** A world whose chat capability answers. *)
Definition demo_chatty : Env :=
  {| cwd := cwd demo; homedir := homedir demo; date_now := date_now demo;
     random_token := random_token demo; fetch_image := fetch_image demo;
     send_chat := fun _ _ _ _ => ChatText "Hello!";
     base64_encode := base64_encode demo;
     base64_decode := base64_decode demo; json_history := json_history demo |}.

(** * Properties *)

(** ** Strings and lists *)

Section Text.
Import Js.

Lemma chars_app (a b : string) : chars (a +:+ b) = chars a ++ chars b.
Proof. induction a as [|c a IH]; simpl; [done | by rewrite IH]. Qed.

Lemma str_app (a b : list ascii) : str (a ++ b) = str a +:+ str b.
Proof. induction a as [|c a IH]; simpl; [done | by rewrite IH]. Qed.

Lemma strip_prefix_app (p l : list ascii) : strip_prefix p (p ++ l) = Some l.
Proof.
  induction p as [|c p IH]; simpl; [done |].
  by rewrite Ascii.eqb_refl.
Qed.

Lemma match_history_prefixed (suffix : string) :
  match_history ("history:" +:+ suffix) = NilZero.uint_of_string suffix.
Proof.
  unfold match_history. rewrite chars_app, strip_prefix_app.
  by rewrite String.string_of_list_ascii_of_string.
Qed.

(** The digits printed for an index are read back as that index. *)
Lemma parse_printed_index (K : nat) :
  parseInt <$> NilZero.uint_of_string (string_of_nat K) = Some K.
Proof.
  unfold string_of_nat, parseInt.
  destruct (Nat.to_uint K) eqn:E;
    [ simpl; f_equal; rewrite <- (DecimalNat.Unsigned.of_to K), E; reflexivity
    | rewrite NilZero.usu by discriminate; simpl; f_equal;
      rewrite <- E; apply DecimalNat.Unsigned.of_to .. ].
Qed.

Lemma uint_of_char_non_digit (c : ascii) (d : option Decimal.uint) :
  is_digit c = false -> uint_of_char c d = None.
Proof.
  destruct d as [d|]; [|done].
  destruct c as [[] [] [] [] [] [] [] []]; simpl; try done; discriminate.
Qed.

Lemma uint_of_string_non_digits (s : string) :
  forallb is_digit (chars s) = false -> NilEmpty.uint_of_string s = None.
Proof.
  induction s as [|c s IH]; simpl; [discriminate |].
  destruct (is_digit c) eqn:Ec; simpl.
  - intros H. rewrite (IH H). by destruct c as [[] [] [] [] [] [] [] []].
  - intros _. by apply uint_of_char_non_digit.
Qed.

Lemma match_history_malformed (suffix : string) :
  digit_run suffix = false -> match_history ("history:" +:+ suffix) = None.
Proof.
  rewrite match_history_prefixed. unfold digit_run.
  destruct suffix as [|c s]; [done |].
  intros H. simpl in H. unfold NilZero.uint_of_string.
  by apply uint_of_string_non_digits.
Qed.

Lemma omap_pointwise {A B} (f g : A -> option B) (l : list A) :
  (forall x, f x = g x) -> omap f l = omap g l.
Proof.
  intros H. induction l as [|x l IH]; [done |].
  csimpl. by rewrite H, IH.
Qed.


Lemma last_lookup_pred {A} (l : list A) : l !! (length l - 1) = last l.
Proof.
  rewrite last_lookup. f_equal. lia.
Qed.
End Text.

(** ** Reading files *)

Section Files.
Variable env : Env.

Lemma resolve_file_run (imgRef : string) (s : State) :
  resolve_file env imgRef s =
  (match locate env (files s) imgRef with
   | Some buffer => Return (base64_encode env buffer)
   | None => Throw (enoent "access" (alt_path env imgRef))
   end, s).
Proof.
  unfold resolve_file, locate, imageToBase64, bind, try_catch, fs_access,
    fs_readFile, ret.
  destruct (files s !! against_cwd env imgRef) as [b|] eqn:E1; simpl.
  - by rewrite E1.
  - destruct (files s !! alt_path env imgRef) as [b|] eqn:E2; simpl; [|done].
    by rewrite E2.
Qed.

Lemma resolve_image_run (context : ConversationContext) (imgRef : string)
    (s : State) :
  resolve_image env context imgRef s =
  (match getImageFromHistory context imgRef with
   | Some h => Return {| inlineMimeType := mimeType h; data := base64Data h |}
   | None =>
       match locate env (files s) imgRef with
       | Some buffer =>
           Return {| inlineMimeType := "image/png";
                     data := base64_encode env buffer |}
       | None => Throw (enoent "access" (alt_path env imgRef))
       end
   end, s).
Proof.
  unfold resolve_image.
  destruct (getImageFromHistory context imgRef); [done |].
  unfold bind. rewrite resolve_file_run.
  by destruct (locate env (files s) imgRef).
Qed.

Lemma resolve_subject_run (historyImage : option ImageHistoryEntry)
    (image_path : string) (s : State) :
  resolve_subject env historyImage image_path s =
  (match historyImage with
   | Some h => Return (filePath h, base64Data h)
   | None =>
       match files s !! against_cwd env image_path with
       | Some buffer => Return (against_cwd env image_path, base64_encode env buffer)
       | None =>
           match files s !! alt_path env image_path with
           | Some buffer => Return (alt_path env image_path, base64_encode env buffer)
           | None => Throw (not_found image_path)
           end
       end
   end, s).
Proof.
  unfold resolve_subject.
  destruct historyImage; [done |].
  unfold imageToBase64, bind, try_catch, fs_access, fs_readFile, ret.
  destruct (files s !! against_cwd env image_path) as [b|] eqn:E1; simpl.
  - by rewrite E1.
  - destruct (files s !! alt_path env image_path) as [b|] eqn:E2; simpl; [|done].
    by rewrite E2.
Qed.

Lemma resolve_generate_reference_run (imgPath : string) (s : State) :
  resolve_generate_reference env imgPath s =
  (match files s !! against_cwd env imgPath with
   | Some buffer =>
       Return {| inlineMimeType := "image/png"; data := base64_encode env buffer |}
   | None => Throw (enoent "open" (against_cwd env imgPath))
   end, s).
Proof.
  unfold resolve_generate_reference, imageToBase64, bind, fs_readFile, ret.
  by destruct (files s !! against_cwd env imgPath).
Qed.
End Files.

(** ** The reference grammar *)

Section Lookup.
Import Js.
Variable context : ConversationContext.

Lemma lookup_last : getImageFromHistory context "last" = last (imageHistory context).
Proof.
  unfold getImageFromHistory.
  destruct (imageHistory context) as [|e h] eqn:E; [done |].
  simpl String.eqb. cbv iota. apply last_lookup_pred.
Qed.

Lemma lookup_index (K : nat) :
  getImageFromHistory context ("history:" +:+ string_of_nat K)
  = imageHistory context !! K.
Proof.
  unfold getImageFromHistory.
  destruct (imageHistory context) as [|e h] eqn:E; [done |].
  simpl String.eqb. cbv iota.
  rewrite match_history_prefixed.
  pose proof (parse_printed_index K) as HK.
  destruct (NilZero.uint_of_string (string_of_nat K)); simpl in HK; [|done].
  by injection HK as ->.
Qed.

Lemma lookup_malformed (suffix : string) :
  digit_run suffix = false ->
  getImageFromHistory context ("history:" +:+ suffix) = None.
Proof.
  intros H. unfold getImageFromHistory.
  destruct (imageHistory context) as [|e h]; [done |].
  simpl String.eqb. cbv iota.
  by rewrite match_history_malformed.
Qed.
End Lookup.

(** C3. In every session context, ["last"] is looked up as the most
    recently inserted record and is not found exactly when the history is
    empty; ["history:K"] is looked up as the record at zero-based position
    [K], found exactly when [K] is below the length; a suffix that is not
    a run of decimal digits (a sign, letters, nothing) is never found in
    the history; and a reference that is not found in the history is
    resolved as a file by the chat and edit tools, whose only outcomes are
    a payload or a missing-file error. *)
Theorem C3_history_reference_lookup (env : Env) (context : ConversationContext) :
  getImageFromHistory context "last" = last (imageHistory context)
  /\ (getImageFromHistory context "last" = None <-> imageHistory context = [])
  /\ (forall K : nat,
        getImageFromHistory context ("history:" +:+ Js.string_of_nat K)
        = imageHistory context !! K)
  /\ (forall K : nat,
        is_Some (getImageFromHistory context ("history:" +:+ Js.string_of_nat K))
        <-> K < length (imageHistory context))
  /\ (forall suffix : string,
        digit_run suffix = false ->
        getImageFromHistory context ("history:" +:+ suffix) = None)
  /\ (forall (reference : string) (s : State),
        getImageFromHistory context reference = None ->
        resolve_image env context reference s
        = (match locate env (files s) reference with
           | Some buffer =>
               Return {| inlineMimeType := "image/png";
                         data := base64_encode env buffer |}
           | None => Throw (enoent "access" (alt_path env reference))
           end, s)
        /\ resolve_subject env (getImageFromHistory context reference) reference s
           = (match files s !! against_cwd env reference with
              | Some buffer =>
                  Return (against_cwd env reference, base64_encode env buffer)
              | None =>
                  match files s !! alt_path env reference with
                  | Some buffer =>
                      Return (alt_path env reference, base64_encode env buffer)
                  | None => Throw (not_found reference)
                  end
              end, s)).
Proof.
  repeat split.
  - apply lookup_last.
  - rewrite lookup_last. apply last_None.
  - intros Hnil. by rewrite lookup_last, Hnil.
  - apply lookup_index.
  - rewrite lookup_index. apply lookup_lt_is_Some_1.
  - rewrite lookup_index. apply lookup_lt_is_Some_2.
  - apply lookup_malformed.
  - rewrite resolve_image_run, H. done.
  - rewrite resolve_subject_run, H. done.
Qed.

(** ** Running the handler code *)

Section Runs.
Import Js.
Variable env : Env.

Lemma getOrCreateContext_run (conversationId : string) (s : State) :
  getOrCreateContext conversationId s
  = (Return (session s conversationId), touch conversationId s).
Proof.
  unfold getOrCreateContext, touch, put, session, set_conversations.
  destruct (conversations s !! conversationId) as [c|] eqn:E; simpl; [|done].
  rewrite insert_id by done. by destruct s.
Qed.

Lemma mutate_context_run (conversationId : string)
    (f : ConversationContext -> ConversationContext) (s : State) :
  mutate_context conversationId f s
  = (Return (f (session s conversationId)),
     put conversationId (f (session s conversationId)) s).
Proof. reflexivity. Qed.

Lemma session_put_eq (conversationId : string) (c : ConversationContext)
    (s : State) : session (put conversationId c s) conversationId = c.
Proof. unfold session, put; simpl. by rewrite lookup_insert_eq. Qed.

Lemma session_put_ne (i j : string) (c : ConversationContext) (s : State) :
  i <> j -> session (put i c s) j = session s j.
Proof. intros H. unfold session, put; simpl. by rewrite lookup_insert_ne. Qed.

Lemma session_touch (i j : string) (s : State) :
  session (touch i s) j = session s j.
Proof.
  unfold touch. destruct (decide (i = j)) as [->|H].
  - apply session_put_eq.
  - by apply session_put_ne.
Qed.

Lemma for_of_collect {P} (resolve : string -> M InlineData)
    (wrap : InlineData -> P) (refs : list string) (acc : list P)
    (failed : list (string * string)) (s : State) :
  (forall r, (resolve r s).2 = s) ->
  for_of refs (acc, failed)
    (fun '(acc, failed) imgRef =>
       try_catch
         (bind (resolve imgRef) (fun d => ret (acc ++ [wrap d], failed)))
         (fun reason => ret (acc, failed ++ [(imgRef, reason)]))) s
  = (Return (acc ++ map wrap (loaded resolve s refs),
             failed ++ failures resolve s refs), s).
Proof.
  intros Hread. revert acc failed.
  induction refs as [|r refs IH]; intros acc failed; simpl.
  - unfold ret. by rewrite !app_nil_r.
  - unfold bind at 1. unfold try_catch, bind at 1.
    pose proof (Hread r) as Hr.
    destruct (resolve r s) as [[d|reason] s'] eqn:E; simpl in Hr; subst s';
      unfold ret; rewrite IH; simpl.
    + by rewrite <- !app_assoc.
    + by rewrite <- !app_assoc.
Qed.

Lemma collect_images_run {P} (resolve : string -> M InlineData)
    (wrap : InlineData -> P) (refs : list string) (parts0 : list P)
    (s : State) :
  (forall r, (resolve r s).2 = s) ->
  collect_images resolve wrap refs parts0 s
  = (Return (parts0 ++ map wrap (loaded resolve s refs),
             failures resolve s refs), s).
Proof.
  intros H. unfold collect_images. by rewrite for_of_collect.
Qed.

Lemma loaded_resolve_image (context : ConversationContext) (s : State)
    (refs : list string) :
  loaded (resolve_image env context) s refs
  = omap (image_of env context (files s)) refs.
Proof.
  unfold loaded. apply omap_pointwise. intros r.
  rewrite resolve_image_run. unfold image_of. simpl.
  destruct (getImageFromHistory context r); [done |].
  by destruct (locate env (files s) r).
Qed.

Lemma loaded_resolve_generate (s : State) (refs : list string) :
  loaded (resolve_generate_reference env) s refs = omap (file_of env (files s)) refs.
Proof.
  unfold loaded. apply omap_pointwise. intros r.
  rewrite resolve_generate_reference_run. unfold file_of. simpl.
  by destruct (files s !! against_cwd env r).
Qed.

Lemma failures_resolve_image (context : ConversationContext) (s : State)
    (refs : list string) :
  failures (resolve_image env context) s refs
  = failed_images env context (files s) refs.
Proof.
  unfold failures, failed_images. apply omap_pointwise. intros r.
  rewrite resolve_image_run. unfold image_of. simpl.
  destruct (getImageFromHistory context r); [done |].
  by destruct (locate env (files s) r).
Qed.

Lemma failures_resolve_generate (s : State) (refs : list string) :
  failures (resolve_generate_reference env) s refs = failed_files env (files s) refs.
Proof.
  unfold failures, failed_files. apply omap_pointwise. intros r.
  rewrite resolve_generate_reference_run. unfold file_of. simpl.
  by destruct (files s !! against_cwd env r).
Qed.

Lemma collect_chat_images {P} (context : ConversationContext)
    (wrap : InlineData -> P) (refs : list string) (parts0 : list P) (s : State) :
  collect_images (resolve_image env context) wrap refs parts0 s
  = (Return (parts0 ++ map wrap (omap (image_of env context (files s)) refs),
             failed_images env context (files s) refs), s).
Proof.
  rewrite collect_images_run.
  - by rewrite loaded_resolve_image, failures_resolve_image.
  - intros r. by rewrite resolve_image_run.
Qed.

Lemma collect_generate_references (refs : list string) (s : State) :
  (if (0 <? length refs)%nat
   then collect_images (resolve_generate_reference env) request_image refs []
   else ret ([], [])) s
  = (Return (map request_image (omap (file_of env (files s)) refs),
             failed_files env (files s) refs), s).
Proof.
  destruct refs as [|r refs]; [done |].
  cbn [length Nat.ltb Nat.leb]. rewrite collect_images_run.
  - by rewrite loaded_resolve_generate, failures_resolve_generate.
  - intros r'. by rewrite resolve_generate_reference_run.
Qed.

Lemma callGeminiImageAPI_run (request : list GeminiImageRequestPart)
    (ratio : string) (s : State) :
  callGeminiImageAPI env request ratio s
  = (match fetch_image env (length (calls s)) request ratio with
     | NetworkFailure message => Throw message
     | Http r =>
         if ok r then Return (parse_response r)
         else Throw ("API request failed: " +:+ string_of_N (status r) +:+ " - "
                     +:+ body r)
     end, log_call (ImageCall request ratio) s).
Proof.
  unfold callGeminiImageAPI, bind, fetch.
  destruct (fetch_image env (length (calls s)) request ratio) as [m|r]; [done |].
  by destruct (ok r).
Qed.

(** *** Output path and recording *)

Lemma output_path_for_run (output_path : option string) (stem : string)
    (s : State) :
  output_path_for env output_path stem s
  = (Return (chosen_path env output_path stem s), after_path output_path s).
Proof.
  unfold output_path_for, chosen_path, after_path.
  by destruct (truthy_opt output_path).
Qed.

Lemma save_and_record_run (conversationId finalPath imageData prompt : string)
    (kind : ImageKind) (s : State) :
  save_and_record env conversationId finalPath imageData prompt kind s
  = (Return (recorded_context env conversationId finalPath imageData prompt kind s),
     recorded_state env conversationId finalPath imageData prompt kind s).
Proof. reflexivity. Qed.

(** *** [gemini_generate_image] *)

Lemma generate_run (prompt : string)
    (aspect_ratio output_path conversation_id : option string)
    (use_image_history : option bool) (reference_images : option (list string))
    (s : State) :
  let cid := default "default" conversation_id in
  let context := session s cid in
  let s1 := touch cid s in
  gemini_generate_image env prompt aspect_ratio output_path conversation_id
    use_image_history reference_images s
  = match invalid_explicit aspect_ratio with
    | Some r => (Return (invalid_ratio r), s1)
    | None =>
        match nullish aspect_ratio (aspectRatio context) with
        | None => (Return missing_ratio, s1)
        | Some ratio =>
            lift (image_outcome env generate_thrown
                    generate_unparsed
                    (generate_no_image prompt)
                    (fun finalPath context' textResponse =>
                       generate_done prompt finalPath cid
                         (length (imageHistory context'))
                         (failed_files env (files s) (default [] reference_images))
                         textResponse)
                    cid prompt generated output_path "generated_"
                    (generate_request env context (files s) prompt
                       (default false use_image_history)
                       (default [] reference_images))
                    ratio s1)
        end
    end.
Proof.
  intros cid context s1.
  unfold gemini_generate_image, try_catch.
  unfold bind at 1. rewrite getOrCreateContext_run. cbv beta iota zeta.
  fold cid. fold context. fold s1.
  destruct (invalid_explicit aspect_ratio) as [r|]; [reflexivity |].
  destruct (nullish aspect_ratio (aspectRatio context)) as [ratio|];
    [| reflexivity].
  unfold bind at 1. rewrite collect_generate_references. cbv beta iota.
  unfold bind at 1. rewrite callGeminiImageAPI_run.
  replace ((if default false use_image_history
               && (0 <? length (imageHistory context))%nat
            then map request_image
                   (omap (file_of env (files s1)) (default [] reference_images))
                 ++ map history_part
                      (slice_last MAX_REFERENCE_IMAGES (imageHistory context))
            else map request_image
                   (omap (file_of env (files s1)) (default [] reference_images)))
           ++ [text_part
                 (if default false use_image_history
                     && (0 <? length (imageHistory context))%nat
                  then prompt +:+ consistency_suffix
                  else prompt)])
    with (generate_request env context (files s) prompt
            (default false use_image_history) (default [] reference_images)).
  2:{ unfold generate_request, with_history.
      destruct (default false use_image_history
                && (0 <? length (imageHistory context))%nat); simpl.
      - by rewrite <- app_assoc.
      - done. }
  unfold lift, image_outcome.
  destruct (fetch_image env (length (calls s1)) _ ratio) as [m|r]; [done |].
  destruct (ok r); [| done]. cbv beta iota.
  destruct (truthy_opt (error (parse_response r))) as [e|]; [done |].
  destruct (truthy_opt (imageData (parse_response r))) as [payload|]; [| done].
  unfold bind. rewrite output_path_for_run. cbv beta iota.
  rewrite save_and_record_run. reflexivity.
Qed.

(** *** [gemini_edit_image] *)

Lemma resolve_subject_of (context : ConversationContext) (image_path : string)
    (s : State) :
  resolve_subject env (getImageFromHistory context image_path) image_path s
  = (match subject_of env context (files s) image_path with
     | Some subject => Return subject
     | None => Throw (not_found image_path)
     end, s).
Proof.
  rewrite resolve_subject_run. unfold subject_of.
  destruct (getImageFromHistory context image_path); [done |].
  destruct (files s !! against_cwd env image_path); [done |].
  by destruct (files s !! alt_path env image_path).
Qed.

Lemma edit_run (image_path edit_prompt : string)
    (aspect_ratio output_path conversation_id : option string)
    (reference_images : option (list string)) (s : State) :
  let cid := default "default" conversation_id in
  let context := session s cid in
  let s1 := touch cid s in
  gemini_edit_image env image_path edit_prompt aspect_ratio output_path
    conversation_id reference_images s
  = match invalid_explicit aspect_ratio with
    | Some r => (Return (invalid_ratio r), s1)
    | None =>
        match nullish aspect_ratio (aspectRatio context) with
        | None => (Return missing_ratio, s1)
        | Some ratio =>
            match subject_of env context (files s) image_path with
            | None => (Return (edit_thrown (not_found image_path)), s1)
            | Some (resolvedImagePath, imageBase64) =>
                lift (image_outcome env edit_thrown edit_unparsed
                        (edit_no_image image_path edit_prompt)
                        (fun finalPath context' textResponse =>
                           edit_done
                             (edit_original context image_path resolvedImagePath)
                             edit_prompt finalPath cid
                             (length (imageHistory context'))
                             (failed_images env context (files s)
                                (slice_first 10 (default [] reference_images)))
                             textResponse)
                        cid edit_prompt edited output_path
                        (edit_stem context image_path)
                        (edit_request env context (files s) edit_prompt imageBase64
                           (default [] reference_images))
                        ratio s1)
            end
        end
    end.
Proof.
  intros cid context s1.
  unfold gemini_edit_image, try_catch.
  unfold bind at 1. rewrite getOrCreateContext_run. cbv beta iota zeta.
  fold cid. fold context. fold s1.
  destruct (invalid_explicit aspect_ratio) as [r|]; [reflexivity |].
  destruct (nullish aspect_ratio (aspectRatio context)) as [ratio|];
    [| reflexivity].
  unfold bind at 1. rewrite resolve_subject_of.
  change (files s1) with (files s).
  destruct (subject_of env context (files s) image_path)
    as [[resolvedImagePath imageBase64]|]; [| reflexivity].
  cbv beta iota.
  unfold bind at 1. rewrite collect_chat_images. cbv beta iota.
  unfold bind at 1. rewrite callGeminiImageAPI_run.
  change (files s1) with (files s). rewrite app_nil_l, <- app_assoc.
  fold (edit_request env context (files s) edit_prompt imageBase64
          (default [] reference_images)).
  unfold lift, image_outcome.
  destruct (fetch_image env (length (calls s1)) _ ratio) as [m|r]; [done |].
  destruct (ok r); [| done]. cbv beta iota.
  destruct (truthy_opt (error (parse_response r))) as [e|]; [done |].
  destruct (truthy_opt (imageData (parse_response r))) as [payload|]; [| done].
  unfold bind. rewrite output_path_for_run. cbv beta iota.
  rewrite save_and_record_run. unfold edit_stem, edit_original.
  by destruct (getImageFromHistory context image_path).
Qed.

(** *** [gemini_chat] *)

Lemma slice_but_last_snoc {A} (l : list A) (x : A) :
  slice_but_last (l ++ [x]) = l.
Proof.
  unfold slice_but_last. rewrite length_app. simpl.
  replace (length l + 1 - 1) with (length l) by lia.
  by rewrite take_app_length.
Qed.

Lemma chat_run (message : string) (conversation_id system_prompt : option string)
    (images : option (list string)) (s : State) :
  let cid := default "default" conversation_id in
  let context := session s cid in
  let messageParts := chat_message env context (files s) message (default [] images) in
  let failed := failed_images env context (files s)
                  (slice_first 10 (default [] images)) in
  let asked := push_turn {| role := user; parts := messageParts |} context in
  let s2 := log_call (ChatCall system_prompt (history context) messageParts)
              (put cid asked (touch cid s)) in
  gemini_chat env message conversation_id system_prompt images s
  = match send_chat env (length (calls s)) system_prompt (history context)
            messageParts with
    | ChatFailure e => (Throw e, s2)
    | ChatText t =>
        (Return (chat_reply messageParts failed t),
         put cid (push_turn {| role := model; parts := [TextPart t] |} asked) s2)
    end.
Proof.
  intros cid context messageParts failed asked s2.
  unfold gemini_chat.
  unfold bind at 1. rewrite getOrCreateContext_run. cbv beta iota zeta.
  fold cid. fold context.
  unfold bind at 1. rewrite collect_chat_images. cbv beta iota.
  change (files (touch cid s)) with (files s).
  fold (chat_message env context (files s) message (default [] images)).
  fold messageParts. fold failed.
  unfold bind at 1. rewrite mutate_context_run. cbv beta iota.
  rewrite session_touch. fold context. fold asked.
  unfold bind at 1.
  replace (slice_but_last (history asked)) with (history context)
    by (symmetry; apply slice_but_last_snoc).
  unfold chat_sendMessage at 1.
  change (length (calls (put cid asked (touch cid s)))) with (length (calls s)).
  fold s2.
  destruct (send_chat env (length (calls s)) system_prompt (history context)
              messageParts) as [e|t]; [done |].
  unfold bind. rewrite mutate_context_run. cbv beta iota.
  unfold s2 at 1 2. 
  replace (session (log_call (ChatCall system_prompt (history context) messageParts)
                      (put cid asked (touch cid s))) cid) with asked
    by (symmetry; apply session_put_eq).
  reflexivity.
Qed.
End Runs.

(** ** The media store *)

Section MediaStore.
Import Js.

Lemma tail_drop {A} (l : list A) : tail l = drop 1 l.
Proof. by destruct l. Qed.

Lemma add_window (context : ConversationContext) (entry : ImageHistoryEntry)
    (acc : list ImageHistoryEntry) :
  imageHistory context = slice_last MAX_IMAGE_HISTORY acc ->
  imageHistory (addImageToHistory context entry)
  = slice_last MAX_IMAGE_HISTORY (acc ++ [entry]).
Proof.
  unfold addImageToHistory, slice_last, MAX_IMAGE_HISTORY. simpl.
  intros ->. rewrite !length_app, length_drop. simpl.
  destruct (decide (length acc < 10)) as [Hlt|Hge].
  - replace (length acc - 10) with 0 by lia.
    replace (length acc + 1 - 10) with 0 by lia.
    rewrite !drop_0.
    destruct (10 <? length acc - 0 + 1) eqn:E; [|done].
    apply Nat.ltb_lt in E. lia.
  - destruct (10 <? length acc - (length acc - 10) + 1) eqn:E.
    + rewrite tail_drop, drop_app_le by (rewrite length_drop; lia).
      rewrite drop_drop, (drop_app_le acc) by lia.
      f_equal. f_equal. lia.
    + apply Nat.ltb_ge in E. lia.
Qed.

Lemma add_last (context : ConversationContext) (entry : ImageHistoryEntry) :
  last (imageHistory (addImageToHistory context entry)) = Some entry.
Proof.
  unfold addImageToHistory. simpl.
  destruct (MAX_IMAGE_HISTORY <? length (imageHistory context ++ [entry])) eqn:E.
  - apply Nat.ltb_lt in E. rewrite length_app in E. simpl in E.
    unfold MAX_IMAGE_HISTORY in E.
    destruct (imageHistory context) as [|x h]; simpl in *; [lia |].
    apply last_snoc.
  - apply last_snoc.
Qed.

Lemma length_slice_last {A} (n : nat) (l : list A) :
  length (slice_last n l) = min (length l) n.
Proof. unfold slice_last. rewrite length_drop. lia. Qed.
End MediaStore.

(** ** Effect of a tool call on the media histories *)

Section Effects.
Variable env : Env.

Lemma session_same (s s' : State) (i : string) :
  conversations s' = conversations s -> session s' i = session s i.
Proof. unfold session. by intros ->. Qed.

Lemma history_same (s s' : State) (i : string) :
  conversations s' = conversations s -> session_history s' i = session_history s i.
Proof. unfold session_history. intros H. by rewrite (session_same _ _ _ H). Qed.

Lemma history_put (i j : string) (c : ConversationContext) (s : State) :
  imageHistory c = session_history s i ->
  session_history (put i c s) j = session_history s j.
Proof.
  intros H. unfold session_history. destruct (decide (i = j)) as [->|Hne].
  - by rewrite session_put_eq.
  - by rewrite session_put_ne.
Qed.

Lemma history_log (c : BackendCall) (s : State) (j : string) :
  session_history (log_call c s) j = session_history s j.
Proof. reflexivity. Qed.

Lemma history_touch (i j : string) (s : State) :
  session_history (touch i s) j = session_history s j.
Proof. unfold session_history. by rewrite session_touch. Qed.

(** An image call either fails and leaves the registry alone, or succeeds
    and appends one record of its prompt and kind to its session. *)
Lemma image_outcome_effect (thrown : string -> ToolResult)
    (unparsed : string -> string -> ToolResult)
    (no_image_result : string -> ToolResult)
    (done_result : string -> ConversationContext -> string -> ToolResult)
    (cid prompt0 : string) (kind : ImageKind) (output_path : option string)
    (stem : string) (request : list GeminiImageRequestPart) (ratio : string)
    (s : State) :
  (forall m, succeeded (thrown m) = false) ->
  (forall e t, succeeded (unparsed e t) = false) ->
  (forall t, succeeded (no_image_result t) = false) ->
  (forall p c t, succeeded (done_result p c t) = true) ->
  let x := image_outcome env thrown unparsed no_image_result done_result cid
             prompt0 kind output_path stem request ratio s in
  (succeeded x.1 = false /\ conversations x.2 = conversations s)
  \/ (succeeded x.1 = true
      /\ exists entry,
           conversations x.2
           = <[cid := addImageToHistory (session s cid) entry]> (conversations s)
           /\ prompt entry = prompt0 /\ type entry = kind).
Proof.
  intros Ht Hu Hn Hd. unfold image_outcome.
  destruct (fetch_image env (length (calls s)) request ratio) as [m|r];
    [left; by split; [apply Ht |] |].
  destruct (ok r); [| left; by split; [apply Ht |]].
  destruct (truthy_opt (error (parse_response r)));
    [left; by split; [apply Hu |] |].
  destruct (truthy_opt (imageData (parse_response r))) as [payload|];
    [| left; by split; [apply Hn |]].
  right. cbn [fst snd]. split; [apply Hd |].
  exists (recorded_entry env
            (chosen_path env output_path stem
               (log_call (ImageCall request ratio) s))
            payload prompt0 kind
            (after_path output_path (log_call (ImageCall request ratio) s))).
  split; [| split; reflexivity].
  unfold recorded_state, recorded_context, after_path. cbn [conversations].
  by destruct (truthy_opt output_path).
Qed.

Lemma session_of_insert (s s' : State) (i : string) (c : ConversationContext) :
  conversations s' = <[i := c]> (conversations s) ->
  session s' i = c /\ forall j, i <> j -> session s' j = session s j.
Proof.
  intros H. unfold session. rewrite H. split.
  - by rewrite lookup_insert_eq.
  - intros j Hj. by rewrite lookup_insert_ne.
Qed.

Lemma image_outcome_appends (thrown : string -> ToolResult)
    (unparsed : string -> string -> ToolResult)
    (no_image_result : string -> ToolResult)
    (done_result : string -> ConversationContext -> string -> ToolResult)
    (cid prompt0 : string) (kind : ImageKind) (output_path : option string)
    (stem : string) (request : list GeminiImageRequestPart) (ratio : string)
    (s : State) :
  (forall m, succeeded (thrown m) = false) ->
  (forall e t, succeeded (unparsed e t) = false) ->
  (forall t, succeeded (no_image_result t) = false) ->
  (forall p c t, succeeded (done_result p c t) = true) ->
  appends cid prompt0 kind s
    (image_outcome env thrown unparsed no_image_result done_result cid
       prompt0 kind output_path stem request ratio (touch cid s)).
Proof.
  intros Ht Hu Hn Hd.
  destruct (image_outcome_effect thrown unparsed no_image_result done_result
              cid prompt0 kind output_path stem request ratio (touch cid s)
              Ht Hu Hn Hd) as [[Hs Hc]|[Hs [entry (Hc & Hp & Hk)]]].
  - left. split; [done |]. intros j.
    by rewrite (history_same _ _ _ Hc), history_touch.
  - right. split; [done |]. exists entry.
    apply session_of_insert in Hc as [Hi Hj]. split; [| split].
    + by rewrite Hi, session_touch.
    + by rewrite Hp, Hk.
    + intros j Hne. by rewrite Hj, session_touch.
Qed.

(** A call that returns before the backend is reached. *)
Ltac returns_early :=
  left; split; [reflexivity | intros ?; apply history_touch].

Lemma unlift (x : ToolResult * State) :
  match lift x with
  | (Return r, s') => (r, s')
  | (Throw message, s') =>
      ({| content := "Error: " +:+ message; isError := true |}, s')
  end = x.
Proof. by destruct x. Qed.

Lemma generate_appends (prompt0 : string)
    (aspect_ratio output_path conversation_id : option string)
    (use_image_history : option bool) (reference_images : option (list string))
    (s : State) :
  appends (default "default" conversation_id) prompt0 generated s
    (call_tool env (GenerateImage prompt0 aspect_ratio output_path
                      conversation_id use_image_history reference_images) s).
Proof.
  unfold call_tool, dispatch. rewrite generate_run.
  destruct (invalid_explicit aspect_ratio) as [r|].
  { returns_early. }
  destruct (nullish aspect_ratio _) as [ratio|].
  2:{ returns_early. }
  rewrite unlift. by apply image_outcome_appends.
Qed.

Lemma edit_appends (image_path edit_prompt : string)
    (aspect_ratio output_path conversation_id : option string)
    (reference_images : option (list string)) (s : State) :
  appends (default "default" conversation_id) edit_prompt edited s
    (call_tool env (EditImage image_path edit_prompt aspect_ratio output_path
                      conversation_id reference_images) s).
Proof.
  unfold call_tool, dispatch. rewrite edit_run.
  destruct (invalid_explicit aspect_ratio) as [r|].
  { returns_early. }
  destruct (nullish aspect_ratio _) as [ratio|].
  2:{ returns_early. }
  destruct (subject_of env _ _ image_path) as [[resolvedImagePath imageBase64]|].
  2:{ returns_early. }
  rewrite unlift. by apply image_outcome_appends.
Qed.

(** The other tools leave every media history as it is, except that
    clearing a session empties its history. *)
Lemma chat_keeps (message : string) (conversation_id system_prompt : option string)
    (images : option (list string)) (s : State) (j : string) :
  session_history
    (call_tool env (Chat message conversation_id system_prompt images) s).2 j
  = session_history s j.
Proof.
  unfold call_tool, dispatch. rewrite chat_run.
  destruct (send_chat env _ _ _ _) as [e|t]; cbn [snd].
  - rewrite history_log, history_put; [apply history_touch |].
    unfold session_history. by rewrite session_touch.
  - rewrite history_put.
    + rewrite history_log, history_put; [apply history_touch |].
      unfold session_history. by rewrite session_touch.
    + rewrite history_log. unfold session_history.
      by rewrite session_put_eq.
Qed.

Lemma get_image_history_keeps (conversation_id : string) (s : State) :
  (call_tool env (GetImageHistory conversation_id) s).2 = s.
Proof.
  unfold call_tool, dispatch, get_image_history, bind, gets.
  destruct (conversations s !! conversation_id) as [c|]; [| done].
  by destruct (imageHistory c).
Qed.

Lemma set_aspect_ratio_keeps (aspect_ratio : string)
    (conversation_id : option string) (s : State) (j : string) :
  session_history
    (call_tool env (SetAspectRatio aspect_ratio conversation_id) s).2 j
  = session_history s j.
Proof.
  unfold call_tool, dispatch, set_aspect_ratio.
  destruct (negb (valid_ratio aspect_ratio)); [done |].
  unfold bind. rewrite getOrCreateContext_run. cbv beta iota.
  rewrite mutate_context_run. cbv beta iota. unfold ret. cbn [snd].
  rewrite history_put; [apply history_touch | done].
Qed.

Lemma clear_conversation_history (conversation_id : string) (s : State)
    (j : string) :
  session_history (call_tool env (ClearConversation conversation_id) s).2 j
  = if bool_decide (conversation_id = j) then [] else session_history s j.
Proof.
  unfold call_tool, dispatch, clear_conversation, bind, modify, session_history,
    session, ret. cbv beta iota. cbn [snd conversations set_conversations].
  case_bool_decide as H.
  - subst. by rewrite lookup_delete_eq.
  - by rewrite lookup_delete_ne.
Qed.

Lemma appends_window (cid conversationId prompt0 : string) (kind : ImageKind)
    (s : State) (x : ToolResult * State) (acc : list ImageHistoryEntry) :
  appends cid prompt0 kind s x ->
  session_history s conversationId = Js.slice_last MAX_IMAGE_HISTORY acc ->
  session_history x.2 conversationId
  = Js.slice_last MAX_IMAGE_HISTORY
      (if bool_decide (cid = conversationId) && succeeded x.1
       then acc ++ option_list (last (session_history x.2 conversationId))
       else acc).
Proof.
  intros [[Hs Hk]|[Hs [entry (Hc & _ & Ho)]]] Hacc; rewrite Hs.
  - by rewrite andb_false_r, Hk.
  - rewrite andb_true_r. case_bool_decide as Hcid.
    + subst cid. unfold session_history in *. rewrite Hc, add_last. simpl.
      by apply add_window.
    + unfold session_history in *. by rewrite Ho.
Qed.

Lemma call_tool_window (conversationId : string) (request : Request)
    (s : State) (acc : list ImageHistoryEntry) :
  session_history s conversationId = Js.slice_last MAX_IMAGE_HISTORY acc ->
  session_history (call_tool env request s).2 conversationId
  = Js.slice_last MAX_IMAGE_HISTORY (advance env conversationId request s acc).
Proof.
  intros Hacc. unfold advance.
  destruct request; cbn [clears on_session andb].
  - by rewrite chat_keeps.
  - by eapply appends_window; [apply generate_appends |].
  - by eapply appends_window; [apply edit_appends |].
  - by rewrite get_image_history_keeps.
  - rewrite clear_conversation_history. by case_bool_decide.
  - by rewrite set_aspect_ratio_keeps.
  - done.
Qed.

Lemma recorded_window (conversationId : string) (requests : list Request)
    (s : State) (acc : list ImageHistoryEntry) :
  session_history s conversationId = Js.slice_last MAX_IMAGE_HISTORY acc ->
  session_history (run env requests s) conversationId
  = Js.slice_last MAX_IMAGE_HISTORY (recorded env conversationId requests s acc).
Proof.
  revert s acc. induction requests as [|r rest IH]; intros s acc Hacc; [done |].
  simpl. apply IH. by apply call_tool_window.
Qed.

Lemma appends_count (cid conversationId prompt0 : string) (kind : ImageKind)
    (s : State) (x : ToolResult * State) (acc : list ImageHistoryEntry) :
  appends cid prompt0 kind s x ->
  length (if bool_decide (cid = conversationId) && succeeded x.1
          then acc ++ option_list (last (session_history x.2 conversationId))
          else acc)
  = if bool_decide (cid = conversationId) && succeeded x.1
    then S (length acc) else length acc.
Proof.
  intros [[Hs Hk]|[Hs [entry (Hc & _ & Ho)]]]; rewrite Hs.
  - by rewrite andb_false_r.
  - rewrite andb_true_r. case_bool_decide as Hcid; [| done].
    subst cid. unfold session_history. rewrite Hc, add_last, length_app.
    simpl. lia.
Qed.

Lemma appends_label (cid conversationId prompt0 : string) (kind : ImageKind)
    (s : State) (x : ToolResult * State) (acc : list ImageHistoryEntry) :
  appends cid prompt0 kind s x ->
  map (fun e => (prompt e, type e))
    (if bool_decide (cid = conversationId) && succeeded x.1
     then acc ++ option_list (last (session_history x.2 conversationId))
     else acc)
  = if bool_decide (cid = conversationId) && succeeded x.1
    then map (fun e => (prompt e, type e)) acc ++ [(prompt0, kind)]
    else map (fun e => (prompt e, type e)) acc.
Proof.
  intros [[Hs Hk]|[Hs [entry (Hc & Hl & Ho)]]]; rewrite Hs.
  - by rewrite andb_false_r.
  - rewrite andb_true_r. case_bool_decide as Hcid; [| done].
    subst cid. unfold session_history. rewrite Hc, add_last, map_app.
    simpl. by rewrite Hl.
Qed.

Lemma recorded_labels (conversationId : string) (requests : list Request)
    (s : State) (acc : list ImageHistoryEntry) :
  map (fun e => (prompt e, type e)) (recorded env conversationId requests s acc)
  = asked env conversationId requests s (map (fun e => (prompt e, type e)) acc).
Proof.
  revert s acc. induction requests as [|r rest IH]; intros s acc; [done |].
  simpl. rewrite IH. f_equal. unfold advance.
  destruct r; cbn [clears on_session andb label option_list]; try done.
  - eapply appends_label, generate_appends.
  - eapply appends_label, edit_appends.
  - by case_bool_decide.
Qed.

Lemma recorded_count (conversationId : string) (requests : list Request)
    (s : State) (acc : list ImageHistoryEntry) :
  length (recorded env conversationId requests s acc)
  = successes env conversationId requests s (length acc).
Proof.
  revert s acc. induction requests as [|r rest IH]; intros s acc; [done |].
  simpl. rewrite IH. f_equal. unfold advance.
  destruct r; cbn [clears on_session andb]; try done.
  - eapply appends_count, generate_appends.
  - eapply appends_count, edit_appends.
  - by case_bool_decide.
Qed.
End Effects.

(** C1. In every state the server reaches, every session holds at most
    ten media records; the history of a session consists of the most
    recent records stored by its successful generate and edit calls (since
    it was created or last cleared), in call order, the oldest ones being
    dropped beyond ten; with [N] such calls its length is [min N 10]; and
    each of these records carries the prompt and the kind of its call. *)
Theorem C1_media_history_bounded_fifo (env : Env) (disk : gmap string string)
    (requests : list Request) (conversationId : string) :
  let s := run env requests (initial_state disk) in
  let records := recorded env conversationId requests (initial_state disk) [] in
  let N := successes env conversationId requests (initial_state disk) 0 in
  length (session_history s conversationId) <= 10
  /\ length records = N
  /\ map (fun e => (prompt e, type e)) records
     = asked env conversationId requests (initial_state disk) []
  /\ session_history s conversationId = drop (N - 10) records
  /\ length (session_history s conversationId) = min N 10.
Proof.
  intros s records N.
  assert (HN : length records = N) by apply recorded_count.
  assert (Hw : session_history s conversationId
               = Js.slice_last MAX_IMAGE_HISTORY records)
    by (by apply recorded_window).
  assert (Hl : length (session_history s conversationId) = min N 10)
    by (by rewrite Hw, length_slice_last, HN).
  repeat split; [lia | done | apply recorded_labels | by rewrite Hw, <- HN | done].
Qed.

(** ** Requests sent to the image backend *)

Section Requests.
Import Js.
Variable env : Env.

Lemma image_outcome_calls (thrown : string -> ToolResult)
    (unparsed : string -> string -> ToolResult)
    (no_image_result : string -> ToolResult)
    (done_result : string -> ConversationContext -> string -> ToolResult)
    (cid prompt0 : string) (kind : ImageKind) (output_path : option string)
    (stem : string) (request : list GeminiImageRequestPart) (ratio : string)
    (s : State) :
  calls (image_outcome env thrown unparsed no_image_result done_result cid
           prompt0 kind output_path stem request ratio s).2
  = calls s ++ [ImageCall request ratio].
Proof.
  unfold image_outcome.
  destruct (fetch_image env (length (calls s)) request ratio) as [m|r]; [done |].
  destruct (ok r); [| done].
  destruct (truthy_opt (error (parse_response r))); [done |].
  destruct (truthy_opt (imageData (parse_response r))); [| done].
  cbn [snd recorded_state calls]. unfold after_path.
  by destruct (truthy_opt output_path).
Qed.

Lemma generate_calls (prompt0 : string)
    (aspect_ratio output_path conversation_id : option string)
    (use_image_history : option bool) (reference_images : option (list string))
    (s : State) :
  let context := session s (default "default" conversation_id) in
  calls (call_tool env (GenerateImage prompt0 aspect_ratio output_path
                          conversation_id use_image_history reference_images) s).2
  = calls s
    ++ match resolve_ratio aspect_ratio (aspectRatio context) with
       | inl _ => []
       | inr ratio =>
           [ImageCall (generate_request env context (files s) prompt0
                         (default false use_image_history)
                         (default [] reference_images)) ratio]
       end.
Proof.
  intros context. unfold call_tool, dispatch, resolve_ratio.
  rewrite generate_run. fold context.
  destruct (invalid_explicit aspect_ratio) as [r|];
    [by rewrite app_nil_r |].
  destruct (nullish aspect_ratio _) as [ratio|]; [| by rewrite app_nil_r].
  rewrite unlift, image_outcome_calls. reflexivity.
Qed.

Lemma generate_early (prompt0 : string)
    (aspect_ratio output_path conversation_id : option string)
    (use_image_history : option bool) (reference_images : option (list string))
    (s : State) (r : ToolResult) :
  resolve_ratio aspect_ratio
    (aspectRatio (session s (default "default" conversation_id))) = inl r ->
  call_tool env (GenerateImage prompt0 aspect_ratio output_path
                   conversation_id use_image_history reference_images) s
  = (r, touch (default "default" conversation_id) s).
Proof.
  unfold call_tool, dispatch, resolve_ratio. rewrite generate_run.
  destruct (invalid_explicit aspect_ratio); [by intros [= <-] |].
  destruct (nullish aspect_ratio _); [done | by intros [= <-]].
Qed.

Lemma edit_calls (image_path edit_prompt : string)
    (aspect_ratio output_path conversation_id : option string)
    (reference_images : option (list string)) (s : State) :
  let context := session s (default "default" conversation_id) in
  calls (call_tool env (EditImage image_path edit_prompt aspect_ratio output_path
                          conversation_id reference_images) s).2
  = calls s
    ++ match resolve_ratio aspect_ratio (aspectRatio context),
             subject_of env context (files s) image_path with
       | inr ratio, Some (_, imageBase64) =>
           [ImageCall (edit_request env context (files s) edit_prompt
                         imageBase64 (default [] reference_images)) ratio]
       | _, _ => []
       end.
Proof.
  intros context. unfold call_tool, dispatch, resolve_ratio.
  rewrite edit_run. fold context.
  destruct (invalid_explicit aspect_ratio) as [r|];
    [by rewrite app_nil_r |].
  destruct (nullish aspect_ratio _) as [ratio|]; [| by rewrite app_nil_r].
  destruct (subject_of env context (files s) image_path) as [[p b]|];
    [| by rewrite app_nil_r].
  rewrite unlift, image_outcome_calls. reflexivity.
Qed.

(** Ratio resolution on its four kinds of input. *)
Lemma resolve_ratio_cases (sessionDefault : option string) :
  (forall r, truthy r = true -> valid_ratio r = false ->
     resolve_ratio (Some r) sessionDefault = inl (invalid_ratio r))
  /\ (forall r, valid_ratio r = true ->
        resolve_ratio (Some r) sessionDefault = inr r)
  /\ resolve_ratio None sessionDefault
     = match sessionDefault with
       | Some d => inr d
       | None => inl missing_ratio
       end
  /\ resolve_ratio (Some "") sessionDefault = inr "".
Proof.
  unfold resolve_ratio, invalid_explicit, truthy_opt. repeat split.
  - intros r Ht Hv. by rewrite Ht, Hv.
  - intros r Hv. destruct (truthy r); by rewrite ?Hv.
Qed.
End Requests.

(** C2 (the code departs from the claim). An empty explicit ratio is not
    a member of the enumeration, yet the generate tool does not reject it:
    whatever the session default is, the backend is invoked with the
    empty ratio. *)
Theorem C2_empty_explicit_ratio_reaches_backend (env : Env) (prompt0 : string)
    (output_path conversation_id : option string)
    (use_image_history : option bool) (reference_images : option (list string))
    (s : State) :
  let context := session s (default "default" conversation_id) in
  valid_ratio "" = false
  /\ calls (call_tool env (GenerateImage prompt0 (Some "") output_path
                            conversation_id use_image_history
                            reference_images) s).2
     = calls s
       ++ [ImageCall (generate_request env context (files s) prompt0
                        (default false use_image_history)
                        (default [] reference_images)) ""].
Proof.
  intros context. split; [reflexivity |].
  by rewrite generate_calls.
Qed.


(** ** Editing *)

Section Editing.
Import Js.
Variable env : Env.

(** An edit call, at the level of the request handler. *)
Lemma edit_call (image_path edit_prompt : string)
    (aspect_ratio output_path conversation_id : option string)
    (reference_images : option (list string)) (s : State) :
  let cid := default "default" conversation_id in
  let context := session s cid in
  call_tool env (EditImage image_path edit_prompt aspect_ratio output_path
                   conversation_id reference_images) s
  = match resolve_ratio aspect_ratio (aspectRatio context) with
    | inl r => (r, touch cid s)
    | inr ratio =>
        match subject_of env context (files s) image_path with
        | None => (edit_thrown (not_found image_path), touch cid s)
        | Some (resolvedImagePath, imageBase64) =>
            image_outcome env edit_thrown edit_unparsed
              (edit_no_image image_path edit_prompt)
              (fun finalPath context' textResponse =>
                 edit_done (edit_original context image_path resolvedImagePath)
                   edit_prompt finalPath cid (length (imageHistory context'))
                   (failed_images env context (files s)
                      (slice_first 10 (default [] reference_images)))
                   textResponse)
              cid edit_prompt edited output_path (edit_stem context image_path)
              (edit_request env context (files s) edit_prompt imageBase64
                 (default [] reference_images))
              ratio (touch cid s)
        end
    end.
Proof.
  intros cid context. unfold call_tool, dispatch, resolve_ratio.
  rewrite edit_run. fold cid. fold context.
  destruct (invalid_explicit aspect_ratio); [done |].
  destruct (nullish aspect_ratio _); [| done].
  destruct (subject_of env context (files s) image_path) as [[p b]|]; [| done].
  apply unlift.
Qed.
End Editing.


(** ** Aggregation of the streamed response *)

Section Aggregation.
Import Js.

Lemma aggregate_parts (parts0 : list GeminiImageRequestPart)
    (image : option string) (texts : list string) :
  fold_left aggregate_part parts0 (image, texts)
  = (nullish (last (omap payload_of parts0)) image,
     texts ++ omap kept_text parts0).
Proof.
  revert image texts.
  induction parts0 as [|p parts0 IH]; intros image texts.
  - simpl. by rewrite app_nil_r.
  - cbn [fold_left]. unfold aggregate_part at 2. csimpl.
    fold (payload_of p).
    destruct (payload_of p) as [payload|] eqn:Ep.
    + rewrite IH.
      replace (kept_text p) with (@None string)
        by (unfold kept_text; by rewrite Ep).
      f_equal.
      destruct (omap payload_of parts0) as [|q qs] eqn:Eq; [reflexivity |].
      change (last (payload :: q :: qs)) with (last (q :: qs)).
      destruct (last (q :: qs)) eqn:El; [reflexivity |].
      by apply last_None in El.
    + replace (kept_text p) with (truthy_opt (text p))
        by (unfold kept_text; by rewrite Ep).
      destruct (truthy_opt (text p)) as [t|]; rewrite IH; [| done].
      by rewrite <- app_assoc.
Qed.

Lemma aggregate_chunks (chunks : list Chunk) (image : option string)
    (texts : list string) :
  fold_left aggregate_chunk chunks (image, texts)
  = (nullish (last (omap payload_of (arrival chunks))) image,
     texts ++ omap kept_text (arrival chunks)).
Proof.
  revert image texts.
  induction chunks as [|c chunks IH]; intros image texts.
  - simpl. by rewrite app_nil_r.
  - cbn [fold_left]. unfold aggregate_chunk at 2. rewrite aggregate_parts, IH.
    unfold arrival. cbn [map concat]. rewrite !omap_app, last_app.
    f_equal; [| by rewrite app_assoc].
    by destruct (last (omap payload_of (concat (map chunk_parts chunks)))).
Qed.

(** Without any assumption on the parts: the last payload, and the texts
    of the parts that carry no payload. *)
Lemma aggregate_spec (chunks : list Chunk) :
  aggregate chunks
  = (last (omap payload_of (arrival chunks)), omap kept_text (arrival chunks)).
Proof.
  unfold aggregate. rewrite aggregate_chunks. f_equal.
  by destruct (last (omap payload_of (arrival chunks))).
Qed.



End Aggregation.

Section Reporting.
Import Js.
Variable env : Env.

(** A generate call, at the level of the request handler. *)
Lemma generate_call (prompt0 : string)
    (aspect_ratio output_path conversation_id : option string)
    (use_image_history : option bool) (reference_images : option (list string))
    (s : State) :
  let cid := default "default" conversation_id in
  let context := session s cid in
  call_tool env (GenerateImage prompt0 aspect_ratio output_path conversation_id
                   use_image_history reference_images) s
  = match resolve_ratio aspect_ratio (aspectRatio context) with
    | inl r => (r, touch cid s)
    | inr ratio =>
        image_outcome env generate_thrown generate_unparsed
          (generate_no_image prompt0)
          (fun finalPath context' textResponse =>
             generate_done prompt0 finalPath cid (length (imageHistory context'))
               (failed_files env (files s) (default [] reference_images))
               textResponse)
          cid prompt0 generated output_path "generated_"
          (generate_request env context (files s) prompt0
             (default false use_image_history) (default [] reference_images))
          ratio (touch cid s)
    end.
Proof.
  intros cid context. unfold call_tool, dispatch, resolve_ratio.
  rewrite generate_run. fold cid. fold context.
  destruct (invalid_explicit aspect_ratio); [done |].
  destruct (nullish aspect_ratio _); [| done].
  apply unlift.
Qed.





End Reporting.


(** ** Chatting *)

Section Chatting.
Import Js.
Variable env : Env.

Lemma chat_call (message : string) (conversation_id system_prompt : option string)
    (images : option (list string)) (s : State) :
  let cid := default "default" conversation_id in
  let context := session s cid in
  let messageParts := chat_message env context (files s) message (default [] images) in
  let failed := failed_images env context (files s)
                  (slice_first 10 (default [] images)) in
  let asked := push_turn {| role := user; parts := messageParts |} context in
  let s2 := log_call (ChatCall system_prompt (history context) messageParts)
              (put cid asked (touch cid s)) in
  call_tool env (Chat message conversation_id system_prompt images) s
  = match send_chat env (length (calls s)) system_prompt (history context)
            messageParts with
    | ChatFailure e => ({| content := "Error: " +:+ e; isError := true |}, s2)
    | ChatText t =>
        (chat_reply messageParts failed t,
         put cid (push_turn {| role := model; parts := [TextPart t] |} asked) s2)
    end.
Proof.
  intros cid context messageParts failed asked s2.
  unfold call_tool, dispatch. rewrite chat_run.
  fold cid. fold context. fold messageParts.
  by destruct (send_chat env _ _ _ _).
Qed.
End Chatting.


(** C10. In a chat call the user turn (the message text and the images
    that loaded) is in the transcript when the backend is invoked, the
    backend being handed the transcript without that last turn; when the
    backend fails, the call returns an error and the transcript keeps the
    user turn with no model turn after it; when it answers, the model
    turn follows. *)
Theorem C10_user_turn_kept_on_failure (env : Env) (message : string)
    (conversation_id system_prompt : option string)
    (images : option (list string)) (s : State) :
  let cid := default "default" conversation_id in
  let context := session s cid in
  let asked :=
    {| role := user;
       parts := TextPart message
                :: map InlineDataPart
                     (omap (image_of env context (files s))
                        (take 10 (default [] images))) |} in
  let x := call_tool env (Chat message conversation_id system_prompt images) s in
  calls x.2
  = calls s
    ++ [ChatCall system_prompt (Js.slice_but_last (history context ++ [asked]))
          (parts asked)]
  /\ match send_chat env (length (calls s)) system_prompt (history context)
             (parts asked) with
     | ChatFailure e =>
         x.1 = {| content := "Error: " +:+ e; isError := true |}
         /\ history (session x.2 cid) = history context ++ [asked]
     | ChatText t =>
         isError x.1 = false
         /\ history (session x.2 cid)
            = history context
              ++ [asked; {| role := model; parts := [TextPart t] |}]
     end.
Proof.
  intros cid context asked x. unfold x. rewrite chat_call.
  fold cid. fold context. rewrite slice_but_last_snoc.
  change (chat_message env context (files s) message (default [] images))
    with (parts asked).
  destruct (send_chat env _ _ _ _) as [e|t]; cbn [fst snd].
  - split; [done |]. split; [done |].
    rewrite (session_same (put cid (push_turn asked context) (touch cid s)))
      by done.
    by rewrite session_put_eq.
  - split; [done |]. split; [done |].
    rewrite session_put_eq. cbn [history push_turn].
    by rewrite <- app_assoc.
Qed.

(** C8 (as amended). A chat image, the edit subject and an edit reference
    image that are not found in the session history are resolved as
    files: first the path itself, joined to the working directory when it
    is relative; when nothing exists there, the base name of the
    reference inside the default output directory; only when that is
    missing too, the reference is not found. A reference image of the
    generate tool is read from the first of these places only, without a
    history lookup and without the second attempt. *)
Theorem C8_file_resolution (env : Env) (context : ConversationContext)
    (reference : string) (s : State) :
  let primary :=
    if Path.isAbsolute reference then reference
    else Path.join [cwd env; reference] in
  let fallback :=
    Path.join [homedir env; "Documents"; "nanobanana_generated";
               Path.basename reference] in
  let png buffer :=
    {| inlineMimeType := "image/png"; data := base64_encode env buffer |} in
  (getImageFromHistory context reference = None ->
     resolve_image env context reference s
     = (match files s !! primary with
        | Some buffer => Return (png buffer)
        | None =>
            match files s !! fallback with
            | Some buffer => Return (png buffer)
            | None => Throw (enoent "access" fallback)
            end
        end, s)
     /\ resolve_subject env (getImageFromHistory context reference) reference s
        = (match files s !! primary with
           | Some buffer => Return (primary, base64_encode env buffer)
           | None =>
               match files s !! fallback with
               | Some buffer => Return (fallback, base64_encode env buffer)
               | None => Throw (not_found reference)
               end
           end, s))
  /\ resolve_generate_reference env reference s
     = (match files s !! primary with
        | Some buffer => Return (png buffer)
        | None => Throw (enoent "open" primary)
        end, s).
Proof.
  intros primary fallback png.
  assert (Hp : against_cwd env reference = primary).
  { unfold against_cwd, primary. by destruct (Path.isAbsolute reference). }
  split.
  - intros Hh. rewrite resolve_image_run, resolve_subject_run, Hh.
    unfold locate. rewrite Hp. fold fallback.
    change (alt_path env reference) with fallback.
    split; [| done].
    destruct (files s !! primary); [done |].
    by destruct (files s !! fallback).
  - rewrite resolve_generate_reference_run, Hp.
    by destruct (files s !! primary).
Qed.

(** ** Output paths *)

Section OutputPaths.
Import Js.

Lemma chars_str (l : list ascii) : chars (str l) = l.
Proof. apply String.list_ascii_of_string_of_list_ascii. Qed.

Lemma str_chars (s : string) : str (chars s) = s.
Proof. apply String.string_of_list_ascii_of_string. Qed.

Lemma append_assoc (a b c : string) : (a +:+ b) +:+ c = a +:+ b +:+ c.
Proof.
  rewrite <- (str_chars ((a +:+ b) +:+ c)), <- (str_chars (a +:+ b +:+ c)).
  by rewrite !chars_app, app_assoc.
Qed.

Lemma chars_toLowerCase (s : string) :
  chars (toLowerCase s) = map lower_char (chars s).
Proof. unfold toLowerCase. apply chars_str. Qed.

Lemma endsWith_app (a suf : string) : endsWith (a +:+ suf) suf = true.
Proof.
  unfold endsWith. apply bool_decide_eq_true.
  rewrite chars_app. by apply suffix_app_r.
Qed.

Lemma lower_png_suffix (a : string) :
  endsWith (toLowerCase (a +:+ ".png")) ".png" = true.
Proof.
  unfold endsWith. apply bool_decide_eq_true.
  rewrite chars_toLowerCase, chars_app, map_app.
  by apply suffix_app_r.
Qed.

(** Whatever is requested, the final path ends in [.png] up to the case
    of the letters. *)
Lemma requested_path_png (env : Env) (output_path : string) :
  endsWith (toLowerCase (requested_path env output_path)) ".png" = true.
Proof.
  unfold requested_path.
  destruct (endsWith (toLowerCase (against_cwd env output_path)) ".png") eqn:E;
    simpl; [done |].
  apply lower_png_suffix.
Qed.

(** *** A plain file name under the working directory *)

Lemma ext_at_slash (x : ascii) (t : list ascii) :
  "/"%char ∈ t -> ext_at (x :: t) = false.
Proof.
  intros Hin. unfold ext_at. destruct t as [|c rest]; [done |].
  apply andb_false_iff. right. apply not_true_iff_false. intros Hall.
  rewrite forallb_forall in Hall.
  apply list_elem_of_In, Hall in Hin. discriminate.
Qed.

Lemma cut_ext_after_dir (pre name : list ascii) :
  dir_prefix pre -> cut_ext (pre ++ name) = pre ++ cut_ext name.
Proof.
  induction pre as [|x pre IH]; intros Hd; [done |].
  assert (Hx : ext_at (x :: pre ++ name) = false).
  { destruct pre as [|y pre'].
    - destruct Hd as [Hd|Hd]; [done |]. injection Hd as ->.
      simpl. by destruct name.
    - apply ext_at_slash. destruct Hd as [Hd|Hd]; [done |].
      apply elem_of_app. left.
      change (last (x :: y :: pre')) with (last (y :: pre')) in Hd.
      by apply last_Some_elem_of. }
  change ((x :: pre) ++ name) with (x :: pre ++ name).
  cbn [cut_ext]. rewrite Hx, IH; [done |].
  destruct pre as [|y pre']; [by left |].
  destruct Hd as [Hd|Hd]; [done |]. by right.
Qed.

Lemma split_nonempty (l : list ascii) : Path.split l <> [].
Proof.
  destruct l as [|c l]; [done |]. simpl.
  destruct (Ascii.eqb c Path.slash); [done |].
  by destruct (Path.split l).
Qed.

Lemma split_plain (name : list ascii) :
  forallb (fun c => negb (Ascii.eqb c Path.slash)) name = true ->
  Path.split name = [name].
Proof.
  induction name as [|c name IH]; [done |].
  simpl. intros [Hc Hn]%andb_true_iff.
  apply negb_true_iff in Hc. by rewrite Hc, (IH Hn).
Qed.

Lemma split_under (l name : list ascii) :
  forallb (fun c => negb (Ascii.eqb c Path.slash)) name = true ->
  Path.split (l ++ Path.slash :: name) = Path.split l ++ [name].
Proof.
  intros Hn. induction l as [|c l IH].
  - simpl. by rewrite (split_plain _ Hn).
  - change ((c :: l) ++ Path.slash :: name) with (c :: l ++ Path.slash :: name).
    cbn [Path.split]. rewrite IH.
    destruct (Ascii.eqb c Path.slash); [done |].
    pose proof (split_nonempty l) as Hl.
    by destruct (Path.split l).
Qed.

Lemma unsplit_snoc (segs : list (list ascii)) (name : list ascii) :
  Path.unsplit (segs ++ [name])
  = match segs with
    | [] => name
    | _ => Path.unsplit segs ++ Path.slash :: name
    end.
Proof.
  induction segs as [|seg segs IH]; [done |].
  change ((seg :: segs) ++ [name]) with (seg :: segs ++ [name]).
  destruct segs as [|seg' segs']; [done |].
  change (Path.unsplit (seg :: (seg' :: segs') ++ [name]))
    with (seg ++ Path.slash :: Path.unsplit ((seg' :: segs') ++ [name])).
  rewrite IH. cbn [Path.unsplit]. by rewrite <- app_assoc.
Qed.

Lemma joined_dir_prefix (dir : list ascii) : dir_prefix (joined_dir dir).
Proof.
  unfold dir_prefix, joined_dir. destruct dir as [|c dir]; [by left |].
  destruct (fold_left _ _ _) as [|seg stack].
  - rewrite app_nil_r. destruct (Ascii.eqb c Path.slash); [by right | by left].
  - right. rewrite app_assoc. apply last_snoc.
Qed.

Lemma plain_no_trailing_slash (l name : list ascii) :
  plain name -> Path.ends_with_slash (l ++ name) = false.
Proof.
  intros (Hne & Hns & _). unfold Path.ends_with_slash.
  rewrite rev_app_distr.
  destruct (rev name) as [|z r] eqn:Er.
  - apply (f_equal (@rev ascii)) in Er. rewrite rev_involutive in Er.
    simpl in Er. done.
  - simpl. rewrite forallb_forall in Hns.
    assert (Hz : In z name).
    { apply in_rev. rewrite Er. by left. }
    apply Hns in Hz. by apply negb_true_iff in Hz.
Qed.

Lemma normalizeString_under (l name : list ascii) (allow : bool) :
  plain name ->
  Path.normalizeString (l ++ Path.slash :: name) allow
  = match fold_left (Path.norm_step allow) (Path.split l) [] with
    | [] => name
    | stack => Path.unsplit (rev stack) ++ Path.slash :: name
    end.
Proof.
  intros (Hne & Hns & Hstep). unfold Path.normalizeString.
  rewrite (split_under _ _ Hns), fold_left_app. cbn [fold_left].
  rewrite Hstep. cbn [rev]. rewrite unsplit_snoc.
  destruct (fold_left (Path.norm_step allow) (Path.split l) []) as [|seg stack];
    [done |].
  change (rev stack ++ [seg]) with (rev (seg :: stack)).
  destruct (rev (seg :: stack)) as [|a b] eqn:Er; [| done].
  apply (f_equal (@rev (list ascii))) in Er. rewrite rev_involutive in Er.
  simpl in Er. done.
Qed.

Lemma normalize_plain (name : list ascii) :
  plain name -> Path.normalize_chars name = name.
Proof.
  intros Hp. pose proof Hp as (Hne & Hns & Hstep).
  unfold Path.normalize_chars. destruct name as [|c name'] eqn:En; [done |].
  rewrite <- En in *.
  assert (Hc : Ascii.eqb c Path.slash = false).
  { rewrite En in Hns. simpl in Hns. apply andb_true_iff in Hns as [Hc _].
    by apply negb_true_iff in Hc. }
  rewrite Hc. cbn [negb].
  pose proof (plain_no_trailing_slash [] name Hp) as Ht. simpl in Ht.
  rewrite Ht.
  unfold Path.normalizeString. rewrite (split_plain _ Hns). cbn [fold_left].
  rewrite Hstep. cbn [rev app Path.unsplit].
  by rewrite En.
Qed.

Lemma normalize_under (dir name : list ascii) :
  plain name -> dir <> [] ->
  Path.normalize_chars (dir ++ Path.slash :: name) = joined_dir dir ++ name.
Proof.
  intros Hp Hd. destruct dir as [|c dir']; [done |].
  unfold Path.normalize_chars, joined_dir.
  change ((c :: dir') ++ Path.slash :: name)
    with (c :: dir' ++ Path.slash :: name).
  cbv beta iota zeta.
  change (c :: dir' ++ Path.slash :: name)
    with ((c :: dir') ++ Path.slash :: name).
  assert (Ht : Path.ends_with_slash ((c :: dir') ++ Path.slash :: name) = false).
  { pose proof (plain_no_trailing_slash ((c :: dir') ++ [Path.slash]) name Hp)
      as Ht.
    by rewrite <- app_assoc in Ht. }
  rewrite Ht, (normalizeString_under _ _ _ Hp).
  destruct Hp as (Hne & _ & _).
  destruct (fold_left _ (Path.split (c :: dir')) []) as [|seg stack].
  - rewrite app_nil_r. destruct name as [|a name']; [done |].
    by destruct (Ascii.eqb c Path.slash).
  - destruct (Path.unsplit (rev (seg :: stack)) ++ Path.slash :: name)
      as [|a b] eqn:E.
    + by destruct (Path.unsplit (rev (seg :: stack))).
    + rewrite <- E. rewrite <- !app_assoc.
      by destruct (Ascii.eqb c Path.slash).
Qed.

Lemma join_plain (dir name : string) :
  plain (chars name) ->
  Path.join [dir; name] = str (joined_dir (chars dir)) +:+ name.
Proof.
  intros Hp. pose proof Hp as (Hne & _ & _).
  assert (Hname : truthy name = true) by (by destruct name).
  rewrite <- (str_chars name) at 2. rewrite <- str_app.
  unfold Path.join. destruct dir as [|c d].
  - rewrite filter_cons_False by done.
    rewrite filter_cons_True by done. rewrite filter_nil.
    unfold Path.normalize. cbn [Js.join String.concat].
    by rewrite (normalize_plain _ Hp).
  - rewrite filter_cons_True by done.
    rewrite filter_cons_True by done. rewrite filter_nil.
    unfold Path.normalize.
    change (Js.join "/" [String c d; name])
      with (String c d +:+ "/" +:+ name).
    rewrite !chars_app.
    change (chars "/" ++ chars name) with (Path.slash :: chars name).
    by rewrite (normalize_under _ _ Hp).
Qed.

Lemma plain_out : plain (chars "out").
Proof. repeat split; done. Qed.

Lemma plain_out_jpg : plain (chars "out.jpg").
Proof. repeat split; done. Qed.

Lemma lower_under (dir name : string) :
  chars (toLowerCase (dir +:+ name))
  = map lower_char (chars dir) ++ map lower_char (chars name).
Proof. by rewrite chars_toLowerCase, chars_app, map_app. Qed.

Lemma out_not_png (dir : string) :
  endsWith (toLowerCase (dir +:+ "out")) ".png" = false.
Proof.
  unfold endsWith. apply bool_decide_eq_false. rewrite lower_under.
  change (map lower_char (chars "out"))
    with (["o"; "u"]%char ++ ["t"%char]).
  change (chars ".png") with (["."; "p"; "n"]%char ++ ["g"%char]).
  rewrite app_assoc. intros Hs. by apply suffix_snoc_inv_1 in Hs.
Qed.

Lemma out_jpg_not_png (dir : string) :
  endsWith (toLowerCase (dir +:+ "out.jpg")) ".png" = false.
Proof.
  unfold endsWith. apply bool_decide_eq_false. rewrite lower_under.
  change (map lower_char (chars "out.jpg"))
    with ((["o"; "u"; "t"; "."; "j"]%char ++ ["p"%char]) ++ ["g"%char]).
  change (chars ".png") with ((["."; "p"]%char ++ ["n"%char]) ++ ["g"%char]).
  rewrite !app_assoc. intros Hs.
  apply suffix_snoc_inv_2 in Hs. by apply suffix_snoc_inv_1 in Hs.
Qed.

Lemma replace_ext_under (dir name : string) :
  dir_prefix (chars dir) ->
  replace_ext (dir +:+ name) = dir +:+ replace_ext name.
Proof.
  intros Hd. unfold replace_ext.
  by rewrite chars_app, (cut_ext_after_dir _ _ Hd), str_app, str_chars.
Qed.

(** The two examples of the specification, under any working directory:
    both [out] and [out.jpg] end up as [out.png] in the same directory. *)
Lemma requested_out (env : Env) :
  let dir := str (joined_dir (chars (cwd env))) in
  requested_path env "out" = dir +:+ "out.png"
  /\ requested_path env "out.jpg" = dir +:+ "out.png".
Proof.
  intros dir.
  assert (Hd : dir_prefix (chars dir)).
  { unfold dir. rewrite chars_str. apply joined_dir_prefix. }
  unfold requested_path.
  change (against_cwd env "out") with (Path.join [cwd env; "out"]).
  change (against_cwd env "out.jpg") with (Path.join [cwd env; "out.jpg"]).
  rewrite (join_plain _ _ plain_out), (join_plain _ _ plain_out_jpg).
  fold dir. rewrite out_not_png, out_jpg_not_png. cbn [negb].
  rewrite !(replace_ext_under _ _ Hd), !append_assoc. done.
Qed.
End OutputPaths.


(** * Scenarios *)

(** Twelve successful generations leave the ten most recent records. *)
Example twelve_generations :
  let s := run demo (replicate 12 generate_cat) (initial_state disk) in
  successes demo "default" (replicate 12 generate_cat) (initial_state disk) 0 = 12
  /\ length (session_history s "default") = 10
  /\ timestamp <$> head (session_history s "default") = Some 1700000000008%N.
Proof. vm_compute. repeat split. Qed.

(** The scenario of the specification: configure, generate, generate
    again with the history. *)
Example configured_session :
  let s1 := run demo [SetAspectRatio "1:1" (Some "s");
                      GenerateImage "A" None None (Some "s") None None]
              (initial_state disk) in
  let s2 := (call_tool demo
               (GenerateImage "B" None None (Some "s") (Some true) None) s1).2 in
  length (session_history s1 "s") = 1
  /\ last (calls s2)
     = Some (ImageCall [image_part "image/png" "iVBORw0KGgo=";
                        text_part ("B" +:+ consistency_suffix)] "1:1").
Proof. vm_compute. repeat split. Qed.

Example lookup_examples (context : ConversationContext) :
  getImageFromHistory context "history:-1" = None
  /\ getImageFromHistory context "history:abc" = None
  /\ getImageFromHistory context "history:" = None
  /\ getImageFromHistory context "history:1.5" = None.
Proof.
  repeat split;
    apply (lookup_malformed context); reflexivity.
Qed.

(** An empty explicit ratio passes for a session that has a valid default
    as well: the default is overridden by the empty ratio. *)
Example empty_ratio_overrides_default :
  let s := run demo [SetAspectRatio "16:9" None] (initial_state disk) in
  calls (call_tool demo (GenerateImage "cat" (Some "") None None None None) s).2
  = [ImageCall [text_part "cat"] ""]
  /\ calls (call_tool demo (GenerateImage "cat" (Some "bogus") None None None None) s).2
     = []
  /\ calls (call_tool demo (SetAspectRatio "" None) s).2 = []
  /\ (call_tool demo (SetAspectRatio "" None) s).1 = invalid_ratio "".
Proof. vm_compute. repeat split. Qed.




(** C8, the claim as stated fails for the generate tool: a reference image
    that exists only under its base name in the default directory is
    found there by the chat tool, but is dropped from the request of a
    generate call. *)
Lemma C8_generate_has_no_fallback :
  disk !! Path.join [cwd demo; "b.png"] = None
  /\ disk !! Path.join [homedir demo; "Documents"; "nanobanana_generated";
                        Path.basename "b.png"] = Some "BBBB"
  /\ calls (call_tool demo (Chat "look" None None (Some ["b.png"]))
              (initial_state disk)).2
     = [ChatCall None []
          [TextPart "look";
           InlineDataPart {| inlineMimeType := "image/png"; data := "BBBB" |}]]
  /\ calls (call_tool demo
              (GenerateImage "cat" (Some "1:1") None None None (Some ["b.png"]))
              (initial_state disk)).2
     = [ImageCall [text_part "cat"] "1:1"].
Proof. vm_compute. repeat split. Qed.

Lemma C8_file_resolution_witness :
  resolve_image demo fresh_context "pics/b.png" (initial_state disk)
  = (Return {| inlineMimeType := "image/png"; data := "BBBB" |},
     initial_state disk).
Proof.
  destruct (C8_file_resolution demo fresh_context "pics/b.png"
              (initial_state disk)) as [H _].
  destruct (H eq_refl) as [H1 _].
  rewrite H1. vm_compute. reflexivity.
Defined.

(** C9, the claim as stated fails: a requested path whose extension is
    [.PNG] is kept as it is instead of being stripped and given [.png]. *)
Lemma C9_upper_case_png_is_kept :
  requested_path demo "/tmp/x.PNG" = "/tmp/x.PNG"
  /\ Js.replace_ext "/tmp/x.PNG" +:+ ".png" = "/tmp/x.png"
  /\ requested_path demo "/tmp/x.PNG" <> Js.replace_ext "/tmp/x.PNG" +:+ ".png"
  /\ filePath <$> last (session_history
                          (call_tool demo
                             (GenerateImage "cat" (Some "1:1") (Some "/tmp/x.PNG")
                                None None None)
                             (initial_state disk)).2 "default")
     = Some "/tmp/x.PNG".
Proof.
  split; [by vm_compute |]. split; [by vm_compute |].
  split; [by vm_compute |]. by vm_compute.
Qed.

Lemma C3_lookup_witness :
  getImageFromHistory fresh_context "history:-1" = None
  /\ resolve_image demo fresh_context "last" (initial_state disk)
     = (Throw (enoent "access" "/home/u/Documents/nanobanana_generated/last"),
        initial_state disk).
Proof.
  destruct (C3_history_reference_lookup demo fresh_context)
    as (_ & _ & _ & _ & Hm & Hf).
  split; [exact (Hm "-1" eq_refl) |].
  destruct (Hf "last" (initial_state disk) eq_refl) as [H1 _].
  rewrite H1. vm_compute. reflexivity.
Defined.


(** * Further properties: the registry, the files and the log *)

(** ** What a tool call leaves alone *)

Section Frame.
Import Js.
Variable env : Env.

Lemma session_log (c : BackendCall) (s : State) (j : string) :
  session (log_call c s) j = session s j.
Proof. reflexivity. Qed.

Lemma lookup_put_ne (i j : string) (c : ConversationContext) (s : State) :
  i <> j -> conversations (put i c s) !! j = conversations s !! j.
Proof. intros H. unfold put. cbn. by rewrite lookup_insert_ne. Qed.

Lemma lookup_touch_ne (i j : string) (s : State) :
  i <> j -> conversations (touch i s) !! j = conversations s !! j.
Proof. apply lookup_put_ne. Qed.

(** The state an image call leaves: as it was when the call fails, with
    one more record and one more file when it succeeds. *)
Lemma image_outcome_state (thrown : string -> ToolResult)
    (unparsed : string -> string -> ToolResult)
    (no_image_result : string -> ToolResult)
    (done_result : string -> ConversationContext -> string -> ToolResult)
    (cid prompt0 : string) (kind : ImageKind) (output_path : option string)
    (stem : string) (request : list GeminiImageRequestPart) (ratio : string)
    (s : State) :
  (forall m, succeeded (thrown m) = false) ->
  (forall e t, succeeded (unparsed e t) = false) ->
  (forall t, succeeded (no_image_result t) = false) ->
  (forall p c t, succeeded (done_result p c t) = true) ->
  let x := image_outcome env thrown unparsed no_image_result done_result cid
             prompt0 kind output_path stem request ratio s in
  (succeeded x.1 = false
   /\ conversations x.2 = conversations s /\ files x.2 = files s)
  \/ (succeeded x.1 = true
      /\ exists entry,
           conversations x.2
           = <[cid := addImageToHistory (session s cid) entry]> (conversations s)
           /\ files x.2
              = <[filePath entry := base64_decode env (base64Data entry)]> (files s)
           /\ prompt entry = prompt0 /\ type entry = kind
           /\ mimeType entry = "image/png").
Proof.
  intros Ht Hu Hn Hd. unfold image_outcome.
  destruct (fetch_image env (length (calls s)) request ratio) as [m|r];
    [left; by split; [apply Ht |] |].
  destruct (ok r); [| left; by split; [apply Ht |]].
  destruct (truthy_opt (error (parse_response r)));
    [left; by split; [apply Hu |] |].
  destruct (truthy_opt (imageData (parse_response r))) as [payload|];
    [| left; by split; [apply Hn |]].
  right. cbn [fst snd]. split; [apply Hd |].
  exists (recorded_entry env
            (chosen_path env output_path stem
               (log_call (ImageCall request ratio) s))
            payload prompt0 kind
            (after_path output_path (log_call (ImageCall request ratio) s))).
  unfold recorded_state, recorded_context, after_path.
  cbn [conversations files recorded_entry filePath base64Data prompt type
       mimeType].
  by destruct (truthy_opt output_path).
Qed.

Lemma image_outcome_stored (thrown : string -> ToolResult)
    (unparsed : string -> string -> ToolResult)
    (no_image_result : string -> ToolResult)
    (done_result : string -> ConversationContext -> string -> ToolResult)
    (cid prompt0 : string) (kind : ImageKind) (output_path : option string)
    (stem : string) (request : list GeminiImageRequestPart) (ratio : string)
    (s : State) :
  (forall m, succeeded (thrown m) = false) ->
  (forall e t, succeeded (unparsed e t) = false) ->
  (forall t, succeeded (no_image_result t) = false) ->
  (forall p c t, succeeded (done_result p c t) = true) ->
  stored env cid prompt0 kind s
    (image_outcome env thrown unparsed no_image_result done_result cid
       prompt0 kind output_path stem request ratio (touch cid s)).
Proof.
  intros Ht Hu Hn Hd.
  destruct (image_outcome_state thrown unparsed no_image_result done_result
              cid prompt0 kind output_path stem request ratio (touch cid s)
              Ht Hu Hn Hd)
    as [(Hs & Hc & Hf)|[Hs [entry (Hc & Hf & Hp & Hk & Hm)]]].
  - left. split; [done |]. split; [| done]. intros j.
    by rewrite (session_same _ _ _ Hc), session_touch.
  - right. split; [done |]. exists entry.
    apply session_of_insert in Hc as [Hi Hj].
    split; [by rewrite Hi, session_touch |].
    split; [intros j Hne; by rewrite Hj, session_touch |].
    done.
Qed.

(** A call that returns before the backend is reached. *)
Ltac stops_early :=
  left; split; [reflexivity | split; [intros ?; apply session_touch | reflexivity]].

Lemma generate_stored (prompt0 : string)
    (aspect_ratio output_path conversation_id : option string)
    (use_image_history : option bool) (reference_images : option (list string))
    (s : State) :
  stored env (default "default" conversation_id) prompt0 generated s
    (call_tool env (GenerateImage prompt0 aspect_ratio output_path
                      conversation_id use_image_history reference_images) s).
Proof.
  rewrite generate_call.
  destruct (resolve_ratio aspect_ratio _) as [r|ratio] eqn:E.
  - unfold resolve_ratio in E.
    destruct (invalid_explicit aspect_ratio); [injection E as <-; stops_early |].
    destruct (nullish aspect_ratio _); [done |]. injection E as <-. stops_early.
  - by apply image_outcome_stored.
Qed.

Lemma edit_stored (image_path edit_prompt : string)
    (aspect_ratio output_path conversation_id : option string)
    (reference_images : option (list string)) (s : State) :
  stored env (default "default" conversation_id) edit_prompt edited s
    (call_tool env (EditImage image_path edit_prompt aspect_ratio output_path
                      conversation_id reference_images) s).
Proof.
  rewrite edit_call.
  destruct (resolve_ratio aspect_ratio _) as [r|ratio] eqn:E.
  - unfold resolve_ratio in E.
    destruct (invalid_explicit aspect_ratio); [injection E as <-; stops_early |].
    destruct (nullish aspect_ratio _); [done |]. injection E as <-. stops_early.
  - destruct (subject_of env _ _ image_path) as [[p b]|]; [| stops_early].
    by apply image_outcome_stored.
Qed.

(** The sessions after a chat call. *)
Lemma chat_sessions (message : string) (conversation_id system_prompt : option string)
    (images : option (list string)) (s : State) (j : string) :
  let cid := default "default" conversation_id in
  let context := session s cid in
  let sent := chat_message env context (files s) message (default [] images) in
  let asked := push_turn {| role := user; parts := sent |} context in
  session (call_tool env (Chat message conversation_id system_prompt images) s).2 j
  = if bool_decide (cid = j) then
      match send_chat env (length (calls s)) system_prompt (history context) sent with
      | ChatFailure _ => asked
      | ChatText t => push_turn {| role := model; parts := [TextPart t] |} asked
      end
    else session s j.
Proof.
  intros cid context sent asked. rewrite chat_call.
  fold cid. fold context. fold sent. fold asked.
  destruct (send_chat env _ _ _ _) as [e|t]; cbn [snd];
    case_bool_decide as H; subst;
    rewrite ?session_log, ?session_put_eq; try done.
  - by rewrite session_put_ne, session_touch.
  - rewrite session_put_ne by done. rewrite session_log.
    by rewrite session_put_ne, session_touch.
Qed.

Lemma set_aspect_ratio_call (aspect_ratio : string)
    (conversation_id : option string) (s : State) :
  let cid := default "default" conversation_id in
  (call_tool env (SetAspectRatio aspect_ratio conversation_id) s).2
  = if valid_ratio aspect_ratio
    then put cid (with_aspectRatio aspect_ratio (session s cid)) (touch cid s)
    else s.
Proof.
  intros cid. unfold call_tool, dispatch, set_aspect_ratio.
  destruct (valid_ratio aspect_ratio); [| done]. cbn [negb].
  unfold bind. rewrite getOrCreateContext_run. cbv beta iota.
  rewrite mutate_context_run. cbv beta iota. unfold ret. cbn [snd].
  by rewrite session_touch.
Qed.

Lemma set_aspect_ratio_sessions (aspect_ratio : string)
    (conversation_id : option string) (s : State) (j : string) :
  session (call_tool env (SetAspectRatio aspect_ratio conversation_id) s).2 j
  = if valid_ratio aspect_ratio && bool_decide (default "default" conversation_id = j)
    then with_aspectRatio aspect_ratio (session s j)
    else session s j.
Proof.
  rewrite set_aspect_ratio_call.
  destruct (valid_ratio aspect_ratio); [| done]. cbn [andb].
  case_bool_decide as H.
  - subst. by rewrite session_put_eq.
  - by rewrite session_put_ne, session_touch.
Qed.

Lemma clear_conversation_sessions (conversation_id : string) (s : State)
    (j : string) :
  session (call_tool env (ClearConversation conversation_id) s).2 j
  = if bool_decide (conversation_id = j) then fresh_context else session s j.
Proof.
  unfold call_tool, dispatch, clear_conversation, bind, modify, session, ret.
  cbv beta iota. cbn [snd conversations set_conversations].
  case_bool_decide as H.
  - subst. by rewrite lookup_delete_eq.
  - by rewrite lookup_delete_ne.
Qed.

(** A session that a call does not name keeps its registry entry. *)
Lemma call_tool_elsewhere (request : Request) (s : State) (j : string) :
  target request <> Some j ->
  conversations (call_tool env request s).2 !! j = conversations s !! j.
Proof.
  destruct request; cbn [target]; intros Hj.
  - rewrite chat_call.
    assert (Hne : default "default" conversation_id <> j) by congruence.
    destruct (send_chat env _ _ _ _); cbn [snd].
    + change (conversations (log_call ?c ?s)) with (conversations s).
      by rewrite lookup_put_ne, lookup_touch_ne.
    + rewrite lookup_put_ne by done.
      change (conversations (log_call ?c ?s)) with (conversations s).
      by rewrite lookup_put_ne, lookup_touch_ne.
  - assert (Hne : default "default" conversation_id <> j) by congruence.
    rewrite generate_call.
    destruct (resolve_ratio aspect_ratio _); [by apply lookup_touch_ne |].
    destruct (image_outcome_state generate_thrown generate_unparsed
                (generate_no_image prompt0)
                (fun finalPath context' textResponse =>
                   generate_done prompt0 finalPath (default "default" conversation_id)
                     (length (imageHistory context'))
                     (failed_files env (files s) (default [] reference_images))
                     textResponse)
                (default "default" conversation_id) prompt0 generated output_path
                "generated_"
                (generate_request env (session s (default "default" conversation_id))
                   (files s) prompt0 (default false use_image_history)
                   (default [] reference_images))
                s0 (touch (default "default" conversation_id) s))
      as [(_ & Hc & _)|[_ [entry (Hc & _)]]]; try done; rewrite Hc.
    + by apply lookup_touch_ne.
    + rewrite lookup_insert_ne by done. by apply lookup_touch_ne.
  - assert (Hne : default "default" conversation_id <> j) by congruence.
    rewrite edit_call.
    destruct (resolve_ratio aspect_ratio _); [by apply lookup_touch_ne |].
    destruct (subject_of env _ _ image_path) as [[p b]|];
      [| by apply lookup_touch_ne].
    destruct (image_outcome_state edit_thrown edit_unparsed
                (edit_no_image image_path edit_prompt)
                (fun finalPath context' textResponse =>
                   edit_done
                     (edit_original (session s (default "default" conversation_id))
                        image_path p)
                     edit_prompt finalPath (default "default" conversation_id)
                     (length (imageHistory context'))
                     (failed_images env (session s (default "default" conversation_id))
                        (files s) (slice_first 10 (default [] reference_images)))
                     textResponse)
                (default "default" conversation_id) edit_prompt edited output_path
                (edit_stem (session s (default "default" conversation_id)) image_path)
                (edit_request env (session s (default "default" conversation_id))
                   (files s) edit_prompt b (default [] reference_images))
                s0 (touch (default "default" conversation_id) s))
      as [(_ & Hc & _)|[_ [entry (Hc & _)]]]; try done; rewrite Hc.
    + by apply lookup_touch_ne.
    + rewrite lookup_insert_ne by done. by apply lookup_touch_ne.
  - by rewrite get_image_history_keeps.
  - assert (Hne : conversation_id <> j) by congruence.
    unfold call_tool, dispatch, clear_conversation, bind, modify, ret.
    cbv beta iota. cbn [snd conversations set_conversations].
    by rewrite lookup_delete_ne.
  - assert (Hne : default "default" conversation_id <> j) by congruence.
    rewrite set_aspect_ratio_call.
    destruct (valid_ratio aspect_ratio); [| done].
    by rewrite lookup_put_ne, lookup_touch_ne.
  - done.
Qed.
End Frame.

(** ** The default ratio, the transcript, the files and the log *)

Section Invariants.
Import Js.
Variable env : Env.

Lemma call_tool_ratio (request : Request) (s : State) (j : string) :
  aspectRatio (session (call_tool env request s).2 j)
  = ratio_after request j (aspectRatio (session s j)).
Proof.
  destruct request; cbn [ratio_after].
  - rewrite chat_sessions. case_bool_decide as H; [| done].
    subst. by destruct (send_chat env _ _ _ _).
  - destruct (generate_stored env prompt0 aspect_ratio output_path
                conversation_id use_image_history reference_images s)
      as [(_ & H & _)|(_ & entry & Hc & Ho & _)]; [by rewrite H |].
    destruct (decide (default "default" conversation_id = j)) as [<-|Hne];
      [by rewrite Hc | by rewrite Ho].
  - destruct (edit_stored env image_path edit_prompt aspect_ratio output_path
                conversation_id reference_images s)
      as [(_ & H & _)|(_ & entry & Hc & Ho & _)]; [by rewrite H |].
    destruct (decide (default "default" conversation_id = j)) as [<-|Hne];
      [by rewrite Hc | by rewrite Ho].
  - by rewrite get_image_history_keeps.
  - rewrite clear_conversation_sessions. by case_bool_decide.
  - rewrite set_aspect_ratio_sessions.
    by destruct (valid_ratio aspect_ratio && bool_decide _).
  - done.
Qed.

Lemma ratio_after_ok (request : Request) (j : string) (old : option string) :
  match old with Some r => valid_ratio r = true | None => True end ->
  match ratio_after request j old with
  | Some r => valid_ratio r = true
  | None => True
  end.
Proof.
  intros H. destruct request; cbn [ratio_after]; try done.
  - by case_bool_decide.
  - destruct (valid_ratio aspect_ratio) eqn:E; cbn [andb]; [| done].
    by case_bool_decide.
Qed.

Lemma ratio_after_other (request : Request) (j : string) (old : option string) :
  configures j request = false -> ratio_after request j old = old.
Proof.
  destruct request; cbn [ratio_after configures]; try done.
  - by intros ->.
  - intros ->. by rewrite andb_false_r.
Qed.

Lemma run_ratio (requests : list Request) (s : State) (j : string) :
  Forall (fun r => configures j r = false) requests ->
  aspectRatio (session (run env requests s) j) = aspectRatio (session s j).
Proof.
  intros H. revert s. induction H as [|r rest Hr _ IH]; intros s; [done |].
  cbn [run]. by rewrite IH, call_tool_ratio, ratio_after_other.
Qed.

(** The transcript of a session after a call that does not clear it. *)
Lemma call_tool_transcript (request : Request) (s : State) (j : string) :
  clears j request = false ->
  exists added,
    history (session (call_tool env request s).2 j)
    = history (session s j) ++ added
    /\ (chats j request = false -> added = []).
Proof.
  destruct request; cbn [clears chats]; intros Hc.
  - rewrite chat_sessions. case_bool_decide as H.
    + subst. destruct (send_chat env _ _ _ _) as [e|t]; cbn [push_turn history].
      * by eexists.
      * rewrite <- app_assoc. by eexists.
    + exists []. by rewrite app_nil_r.
  - exists []. rewrite app_nil_r. split; [| done].
    destruct (generate_stored env prompt0 aspect_ratio output_path
                conversation_id use_image_history reference_images s)
      as [(_ & H & _)|(_ & entry & Hs & Ho & _)]; [by rewrite H |].
    destruct (decide (default "default" conversation_id = j)) as [<-|Hne];
      [by rewrite Hs | by rewrite Ho].
  - exists []. rewrite app_nil_r. split; [| done].
    destruct (edit_stored env image_path edit_prompt aspect_ratio output_path
                conversation_id reference_images s)
      as [(_ & H & _)|(_ & entry & Hs & Ho & _)]; [by rewrite H |].
    destruct (decide (default "default" conversation_id = j)) as [<-|Hne];
      [by rewrite Hs | by rewrite Ho].
  - exists []. by rewrite app_nil_r, get_image_history_keeps.
  - exists []. rewrite app_nil_r, clear_conversation_sessions.
    by rewrite Hc.
  - exists []. rewrite app_nil_r, set_aspect_ratio_sessions.
    by destruct (valid_ratio aspect_ratio && bool_decide _).
  - exists []. by rewrite app_nil_r.
Qed.

(** The backend calls a tool call issues. *)
Lemma call_tool_calls (request : Request) (s : State) :
  exists issued,
    calls (call_tool env request s).2 = calls s ++ issued
    /\ length issued <= (if remote request then 1 else 0)
    /\ (if is_chat request then 1 else 0) <= length issued.
Proof.
  destruct request; cbn [remote is_chat].
  - rewrite chat_call. destruct (send_chat env _ _ _ _); by eexists.
  - rewrite generate_calls. eexists. split; [done |].
    destruct (resolve_ratio aspect_ratio _); simpl; lia.
  - rewrite edit_calls. eexists. split; [done |].
    destruct (resolve_ratio aspect_ratio _); [simpl; lia |].
    destruct (subject_of env _ _ image_path) as [[p b]|]; simpl; lia.
  - exists []. by rewrite app_nil_r, get_image_history_keeps.
  - exists []. by rewrite app_nil_r.
  - exists []. rewrite app_nil_r, set_aspect_ratio_call.
    by destruct (valid_ratio aspect_ratio).
  - exists []. by rewrite app_nil_r.
Qed.

(** The files after a tool call. *)
Lemma call_tool_files (request : Request) (s : State) :
  let x := call_tool env request s in
  match label request, target request with
  | Some _, Some cid =>
      if succeeded x.1 then
        exists entry,
          last (session_history x.2 cid) = Some entry
          /\ files x.2
             = <[filePath entry := base64_decode env (base64Data entry)]> (files s)
      else files x.2 = files s
  | _, _ => files x.2 = files s
  end.
Proof.
  destruct request; cbn [label target]; try done.
  - rewrite chat_call. by destruct (send_chat env _ _ _ _).
  - destruct (generate_stored env prompt0 aspect_ratio output_path
                conversation_id use_image_history reference_images s)
      as [(-> & _ & H)|(-> & entry & Hs & _ & Hf & _)]; [done |].
    exists entry. unfold session_history. by rewrite Hs, add_last.
  - destruct (edit_stored env image_path edit_prompt aspect_ratio output_path
                conversation_id reference_images s)
      as [(-> & _ & H)|(-> & entry & Hs & _ & Hf & _)]; [done |].
    exists entry. unfold session_history. by rewrite Hs, add_last.
  - by rewrite get_image_history_keeps.
  - rewrite set_aspect_ratio_call. by destruct (valid_ratio aspect_ratio).
Qed.
End Invariants.

(** ** Configuring and clearing a session *)

(** X1. [set_aspect_ratio] with a ratio of the enumeration registers the
    session if needed and stores the ratio as its default, keeping its
    transcript and its media history, without touching the files or the
    backend; with any other ratio (the empty one included) it returns the
    invalid-ratio error and leaves the state exactly as it was: the
    session is not even registered. *)
Theorem X1_set_aspect_ratio_effect (env : Env) (aspect_ratio : string)
    (conversation_id : option string) (s : State) :
  let cid := default "default" conversation_id in
  let x := call_tool env (SetAspectRatio aspect_ratio conversation_id) s in
  if valid_ratio aspect_ratio then
    isError x.1 = false
    /\ is_Some (conversations x.2 !! cid)
    /\ aspectRatio (session x.2 cid) = Some aspect_ratio
    /\ history (session x.2 cid) = history (session s cid)
    /\ imageHistory (session x.2 cid) = imageHistory (session s cid)
    /\ files x.2 = files s /\ calls x.2 = calls s
  else x = (invalid_ratio aspect_ratio, s).
Proof.
  intros cid x. subst x. unfold call_tool, dispatch, set_aspect_ratio.
  destruct (valid_ratio aspect_ratio); [| done]. cbn [negb].
  unfold bind. rewrite getOrCreateContext_run. cbv beta iota.
  rewrite mutate_context_run. cbv beta iota. unfold ret. cbn [fst snd].
  fold cid. rewrite session_put_eq, session_touch.
  repeat split; try done.
  unfold put. cbn. by rewrite lookup_insert_eq.
Qed.

(** X2. The default ratio stored in a session is always absent or a
    member of the enumeration: no sequence of tool calls can store another
    one. *)
Theorem X2_stored_ratio_is_valid (env : Env) (requests : list Request)
    (s : State) :
  (forall j, ratio_ok (session s j) = true) ->
  forall j, ratio_ok (session (run env requests s) j) = true.
Proof.
  revert s. induction requests as [|r rest IH]; intros s H j; [apply H |].
  cbn [run]. apply IH. intros i. unfold ratio_ok.
  rewrite call_tool_ratio.
  pose proof (ratio_after_ok r i (aspectRatio (session s i))) as Hr.
  specialize (H i). unfold ratio_ok in H.
  destruct (aspectRatio (session s i));
    destruct (ratio_after r i _); try done; by apply Hr.
Qed.

Lemma X2_stored_ratio_witness :
  ratio_ok
    (session
       (run demo [SetAspectRatio "" None; SetAspectRatio "16:9" None;
                  GenerateImage "cat" (Some "") None None None None;
                  SetAspectRatio "7:7" None]
          (initial_state disk)) "default") = true.
Proof.
  apply X2_stored_ratio_is_valid. intros j.
  unfold ratio_ok, session, initial_state. cbn [conversations].
  by rewrite lookup_empty.
Defined.

(** X3. Only [set_aspect_ratio] and [clear_conversation] change the
    default ratio of a session: over any run without such a call on the
    session, chat, generate and edit calls (an explicit ratio override
    included), history listings and unknown tools leave it as it is. *)
Theorem X3_default_ratio_persists (env : Env) (requests : list Request)
    (s : State) (j : string) :
  Forall (fun r => configures j r = false) requests ->
  aspectRatio (session (run env requests s) j) = aspectRatio (session s j).
Proof. apply run_ratio. Qed.

Lemma X3_default_ratio_witness :
  aspectRatio
    (session
       (run demo [GenerateImage "cat" (Some "1:1") None None None None;
                  Chat "hello" None None None;
                  SetAspectRatio "4:3" (Some "other")]
          (run demo [SetAspectRatio "16:9" None] (initial_state disk)))
       "default")
  = Some "16:9".
Proof.
  rewrite X3_default_ratio_persists.
  - by vm_compute.
  - repeat constructor.
Defined.

(** X4. A ratio stored by [set_aspect_ratio] is the one sent to the
    backend, in one call, by every later generate call of the session that
    passes no ratio of its own, and by every such edit call whose subject
    resolves, as long as the session is neither reconfigured nor cleared
    in between; an edit call whose subject does not resolve makes no
    backend call. *)
Theorem X4_configured_ratio_is_sent (env : Env) (r : string)
    (conversation_id : option string) (requests : list Request)
    (prompt0 image_path : string) (output_path : option string)
    (use_image_history : option bool) (reference_images : option (list string))
    (s : State) :
  valid_ratio r = true ->
  Forall (fun q => configures (default "default" conversation_id) q = false)
    requests ->
  let cid := default "default" conversation_id in
  let s1 := run env requests
              (call_tool env (SetAspectRatio r conversation_id) s).2 in
  calls (call_tool env (GenerateImage prompt0 None output_path conversation_id
                          use_image_history reference_images) s1).2
  = calls s1
    ++ [ImageCall (generate_request env (session s1 cid) (files s1) prompt0
                     (default false use_image_history)
                     (default [] reference_images)) r]
  /\ calls (call_tool env (EditImage image_path prompt0 None output_path
                             conversation_id reference_images) s1).2
     = calls s1
       ++ match subject_of env (session s1 cid) (files s1) image_path with
          | Some (_, imageBase64) =>
              [ImageCall (edit_request env (session s1 cid) (files s1) prompt0
                            imageBase64 (default [] reference_images)) r]
          | None => []
          end.
Proof.
  intros Hr Hq cid s1.
  assert (Hs : aspectRatio (session s1 cid) = Some r).
  { unfold s1. rewrite run_ratio by done.
    rewrite call_tool_ratio. cbn [ratio_after]. fold cid.
    by rewrite Hr, bool_decide_eq_true_2. }
  rewrite generate_calls, edit_calls. fold cid. rewrite Hs.
  split; reflexivity.
Qed.

Lemma X4_configured_ratio_witness :
  calls (call_tool demo (GenerateImage "cat" None None (Some "s") None None)
           (run demo [Chat "hello" (Some "s") None None;
                      SetAspectRatio "1:1" (Some "t")]
              (call_tool demo (SetAspectRatio "21:9" (Some "s"))
                 (initial_state disk)).2)).2
  = [ChatCall None [] [TextPart "hello"]; ImageCall [text_part "cat"] "21:9"].
Proof.
  destruct (X4_configured_ratio_is_sent demo "21:9" (Some "s")
              [Chat "hello" (Some "s") None None; SetAspectRatio "1:1" (Some "t")]
              "cat" "a.png" None None None (initial_state disk))
    as [H _].
  - by vm_compute.
  - repeat constructor.
  - rewrite H. by vm_compute.
Defined.

(** X5. [clear_conversation] always succeeds and removes the whole
    session: its registry entry is gone, so its media history is reported
    as empty and its default ratio is forgotten (a generate call without a
    ratio of its own is refused without a backend call); the other
    sessions, the files on disk and the log are left alone, and clearing
    again changes nothing. *)
Theorem X5_clear_conversation_forgets (env : Env) (conversation_id : string)
    (s : State) :
  let x := call_tool env (ClearConversation conversation_id) s in
  x.1 = {| content := "Conversation history cleared for ID: " +:+ conversation_id;
           isError := false |}
  /\ conversations x.2 !! conversation_id = None
  /\ (forall j, conversation_id <> j ->
        conversations x.2 !! j = conversations s !! j)
  /\ files x.2 = files s /\ calls x.2 = calls s
  /\ content (call_tool env (GetImageHistory conversation_id) x.2).1
     = no_history conversation_id
  /\ (forall prompt0 output_path use_image_history reference_images,
        call_tool env (GenerateImage prompt0 None output_path
                         (Some conversation_id) use_image_history
                         reference_images) x.2
        = (missing_ratio, touch conversation_id x.2))
  /\ (call_tool env (ClearConversation conversation_id) x.2).2 = x.2.
Proof.
  intros x.
  assert (Hx : x = ({| content := "Conversation history cleared for ID: "
                                  +:+ conversation_id;
                       isError := false |},
                    set_conversations (fun m => delete conversation_id m) s))
    by reflexivity.
  rewrite Hx. cbn [fst snd].
  assert (Hn : conversations
                 (set_conversations (fun m => delete conversation_id m) s)
               !! conversation_id = None)
    by (cbn; apply lookup_delete_eq).
  split; [done |]. split; [done |].
  split; [intros j Hj; cbn; by apply lookup_delete_ne |].
  split; [done |]. split; [done |]. split; [| split].
  - unfold call_tool, dispatch, get_image_history, bind, gets.
    by rewrite Hn.
  - intros prompt0 output_path use_image_history reference_images.
    apply generate_early.
    change (default "default" (Some conversation_id)) with conversation_id.
    unfold session. by rewrite Hn.
  - unfold call_tool, dispatch, clear_conversation, bind, modify, ret.
    cbv beta iota. cbn [snd]. unfold set_conversations at 1.
    cbn [conversations files clock_reads random_draws calls set_conversations].
    by rewrite delete_delete_eq.
Qed.

(** X6. Sessions are isolated: over any run, a session that no call of the
    run names keeps its registry entry -- transcript, media history and
    default ratio -- exactly as it was, and a session that is not
    registered stays unregistered. *)
Theorem X6_session_isolation (env : Env) (requests : list Request) (s : State)
    (j : string) :
  Forall (fun r => target r <> Some j) requests ->
  conversations (run env requests s) !! j = conversations s !! j.
Proof.
  intros H. revert s. induction H as [|r rest Hr _ IH]; intros s; [done |].
  cbn [run]. by rewrite IH, call_tool_elsewhere.
Qed.

Lemma X6_session_isolation_witness :
  let s := run demo [SetAspectRatio "1:1" (Some "a"); generate_cat]
             (initial_state disk) in
  let s' := run demo [GenerateImage "dog" (Some "4:3") None (Some "b") None None;
                      Chat "hello" None None None;
                      ClearConversation "b"; UnknownTool "x"] s in
  conversations s' !! "a" = conversations s !! "a"
  /\ conversations s' !! "c" = None.
Proof.
  intros s s'. split.
  - apply X6_session_isolation. repeat constructor; discriminate.
  - unfold s'. rewrite (X6_session_isolation demo _ s "c").
    + by vm_compute.
    + repeat constructor; discriminate.
Defined.

(** ** Listing the media history *)

(** X7. [get_image_history] only reads: the state is left exactly as it
    was (the session is not registered by the call) and the result is
    never flagged as an error; the no-history notice is returned exactly
    when the session holds no record, be it unregistered or registered
    with an empty history. *)
Theorem X7_get_image_history_reads_only (env : Env) (conversation_id : string)
    (s : State) :
  let x := call_tool env (GetImageHistory conversation_id) s in
  x.2 = s
  /\ isError x.1 = false
  /\ (content x.1 = no_history conversation_id
      <-> session_history s conversation_id = []).
Proof.
  intros x. subst x.
  unfold call_tool, dispatch, get_image_history, bind, gets, session_history,
    session, no_history.
  destruct (conversations s !! conversation_id) as [c|]; [| done].
  change (default fresh_context (Some c)) with c.
  destruct (imageHistory c) as [|e h]; [done |].
  unfold ret. cbn [fst snd content isError]. split; [done |]. split; [done |].
  split; [| done]. intros H.
  apply (f_equal (fun t => match t with
                           | String c _ => c
                           | EmptyString => "000"%char
                           end)) in H.
  lazy in H. discriminate.
Qed.

(** ** Files and backend calls *)

(** X8. Only a successful generate or edit call writes a file, and it
    writes exactly one: the file named by the record it appends to the
    session, holding the decoded payload of that record.  Every other
    call -- a failed generate or edit call, a chat call, a configuration
    call -- leaves the files as they were. *)
Theorem X8_files_written_on_success_only (env : Env) (request : Request)
    (s : State) :
  let x := call_tool env request s in
  match label request, target request with
  | Some _, Some cid =>
      if succeeded x.1 then
        exists entry,
          last (session_history x.2 cid) = Some entry
          /\ files x.2
             = <[filePath entry := base64_decode env (base64Data entry)]> (files s)
      else files x.2 = files s
  | _, _ => files x.2 = files s
  end.
Proof. apply call_tool_files. Qed.

(** X9. No tool call deletes a file: over any run, every path that could
    be read before can still be read. *)
Theorem X9_no_file_is_deleted (env : Env) (requests : list Request) (s : State) :
  dom (files s) ⊆@{gset string} dom (files (run env requests s)).
Proof.
  revert s. induction requests as [|r rest IH]; intros s; [done |].
  cbn [run]. etrans; [| apply IH].
  pose proof (call_tool_files env r s) as H. cbv zeta in H.
  destruct (label r), (target r); try (by rewrite H).
  destruct (succeeded _); [| by rewrite H].
  destruct H as (entry & _ & ->). apply dom_insert_subseteq.
Qed.

(** X10. A tool call reaches a backend at most once and nothing is ever
    retried: over any run the log of backend calls only grows, by exactly
    one call for each chat call, by at most one for each generate or edit
    call, and not at all for the other tools. *)
Theorem X10_backend_calls (env : Env) (requests : list Request) (s : State) :
  exists issued,
    calls (run env requests s) = calls s ++ issued
    /\ length (List.filter is_chat requests) <= length issued
    /\ length issued <= length (List.filter remote requests).
Proof.
  revert s. induction requests as [|r rest IH]; intros s.
  - exists []. by rewrite app_nil_r.
  - cbn [run List.filter].
    destruct (IH (call_tool env r s).2) as (later & Hl & Hlo & Hhi).
    destruct (call_tool_calls env r s) as (now & Hn & Hnhi & Hnlo).
    exists (now ++ later). rewrite Hl, Hn, <- app_assoc. split; [done |].
    rewrite length_app.
    destruct r; cbn [is_chat remote] in *; cbn [length]; lia.
Qed.

(** ** The transcript *)

(** X11. The transcript of a session is append-only until the session is
    cleared: over any run without a [clear_conversation] on the session the
    old transcript is a prefix of the new one, and without a chat call on
    the session it is unchanged -- generate and edit calls never write to
    the transcript. *)
Theorem X11_transcript_append_only (env : Env) (requests : list Request)
    (s : State) (j : string) :
  Forall (fun r => clears j r = false) requests ->
  history (session s j) `prefix_of` history (session (run env requests s) j)
  /\ (Forall (fun r => chats j r = false) requests ->
      history (session (run env requests s) j) = history (session s j)).
Proof.
  intros H. revert s. induction H as [|r rest Hr _ IH]; intros s; [done |].
  cbn [run]. destruct (IH (call_tool env r s).2) as [IHp IHe].
  destruct (call_tool_transcript env r s j Hr) as (added & Ha & Hnone).
  split.
  - etrans; [| exact IHp]. rewrite Ha. by apply prefix_app_r.
  - intros Hc. apply Forall_cons in Hc as [Hc1 Hc2].
    rewrite (IHe Hc2), Ha, (Hnone Hc1). apply app_nil_r.
Qed.

Lemma X11_transcript_witness :
  let s := run demo_chatty [Chat "one" None None None] (initial_state disk) in
  let s' := run demo_chatty [generate_cat; Chat "two" None None None;
                             ClearConversation "other"] s in
  history (session s "default") `prefix_of` history (session s' "default")
  /\ length (history (session s' "default")) = 4.
Proof.
  intros s s'. split.
  - apply X11_transcript_append_only. repeat constructor.
  - by vm_compute.
Defined.

(** ** References into a media history that moves *)

Section Lists.
Import Js.

Lemma lookup_snoc {A} (l : list A) (x : A) (K : nat) :
  (l ++ [x]) !! K = if bool_decide (K = length l) then Some x else l !! K.
Proof.
  case_bool_decide as H.
  - subst. apply list_lookup_middle. done.
  - destruct (decide (K < length l)) as [Hlt|Hge].
    + by apply lookup_app_l.
    + rewrite !lookup_ge_None_2; [done | lia |].
      rewrite length_app. simpl. lia.
Qed.

Lemma run_app (env : Env) (before after : list Request) (s : State) :
  run env (before ++ after) s = run env after (run env before s).
Proof.
  revert s. induction before as [|r rest IH]; intros s; [done |].
  simpl. apply IH.
Qed.

Lemma replies_app (env : Env) (before after : list Request) (s : State) :
  replies env (before ++ after) s
  = replies env before s ++ replies env after (run env before s).
Proof.
  revert s. induction before as [|r rest IH]; intros s; [done |].
  simpl. by rewrite IH.
Qed.
End Lists.

(** X12. The references [history:K] are positions, not names: storing a
    record in a session that holds fewer than ten keeps every index and
    gives the new record the next one; storing a record in a full session
    moves every record one index down ([history:K] now names what
    [history:K+1] named) and gives the new record the last index; in both
    cases ["last"] names the new record. *)
Theorem X12_history_indices_shift (context : ConversationContext)
    (entry : ImageHistoryEntry) (K : nat) :
  let context' := addImageToHistory context entry in
  let n := length (imageHistory context) in
  getImageFromHistory context' "last" = Some entry
  /\ getImageFromHistory context' ("history:" +:+ Js.string_of_nat K)
     = if (n <? MAX_IMAGE_HISTORY)%nat then
         if bool_decide (K = n) then Some entry
         else getImageFromHistory context ("history:" +:+ Js.string_of_nat K)
       else
         if bool_decide (S K = n) then Some entry
         else getImageFromHistory context ("history:" +:+ Js.string_of_nat (S K)).
Proof.
  intros context' n. split.
  - unfold context'. by rewrite lookup_last, add_last.
  - unfold context'. rewrite !lookup_index.
    unfold addImageToHistory, MAX_IMAGE_HISTORY. cbn [imageHistory with_imageHistory].
    rewrite length_app. cbn [length]. fold n.
    destruct (n <? 10)%nat eqn:E.
    + apply Nat.ltb_lt in E.
      replace (10 <? n + 1)%nat with false by (symmetry; apply Nat.ltb_ge; lia).
      apply lookup_snoc.
    + apply Nat.ltb_ge in E.
      replace (10 <? n + 1)%nat with true by (symmetry; apply Nat.ltb_lt; lia).
      rewrite lookup_tail. apply lookup_snoc.
Qed.

(** ** Composing replies of the image endpoint *)

(** X13. Aggregation composes along the stream: the aggregate of two
    chunk lists received one after the other has the image of the second
    list if it has one, else the image of the first, and the text
    fragments of the first followed by those of the second. *)
Theorem X13_aggregate_app (first second : list Chunk) :
  aggregate (first ++ second)
  = (nullish (aggregate second).1 (aggregate first).1,
     (aggregate first).2 ++ (aggregate second).2).
Proof.
  rewrite !aggregate_spec. unfold arrival. cbn [fst snd].
  rewrite map_app, concat_app, !omap_app, last_app.
  by destruct (last (omap payload_of (concat (map chunk_parts second)))).
Qed.

(** ** Calls that change nothing *)

(** X14. A call of an unknown tool is answered with the flagged error
    [Error: Unknown tool: <name>], and it changes nothing, like a history
    listing and like a [set_aspect_ratio] with a ratio outside the
    enumeration: taking such a call out of a run changes neither the final
    state nor the replies to the other calls. *)
Theorem X14_calls_without_effect (env : Env) (request : Request)
    (before after : list Request) (s : State) :
  match request with
  | UnknownTool _ | GetImageHistory _ => True
  | SetAspectRatio r _ => valid_ratio r = false
  | _ => False
  end ->
  (forall name, request = UnknownTool name ->
     (call_tool env request (run env before s)).1
     = {| content := "Error: Unknown tool: " +:+ name; isError := true |})
  /\ run env (before ++ request :: after) s = run env (before ++ after) s
  /\ replies env (before ++ request :: after) s
     = replies env before s
       ++ (call_tool env request (run env before s)).1
       :: replies env after (run env before s).
Proof.
  intros H.
  assert (Hs : forall s0, (call_tool env request s0).2 = s0).
  { intros s0. destruct request; try done.
    - apply get_image_history_keeps.
    - rewrite set_aspect_ratio_call. by rewrite H. }
  split; [by intros name -> |].
  rewrite !run_app, replies_app. cbn [run replies]. by rewrite !Hs.
Qed.

Lemma X14_calls_without_effect_witness :
  run demo [generate_cat; UnknownTool "gemini_draw"; generate_cat]
    (initial_state disk)
  = run demo [generate_cat; generate_cat] (initial_state disk).
Proof.
  exact (proj1 (proj2 (X14_calls_without_effect demo (UnknownTool "gemini_draw")
                         [generate_cat] [generate_cat] (initial_state disk) I))).
Defined.

(** ** Reference images: sent, reported or ignored *)

Section References.
Import Js.
Variable env : Env.

(** Every element is kept by [f] or reported in its place. *)
Lemma omap_partition {A B C} (f : A -> option B) (g : A -> C) (l : list A) :
  length (omap f l)
  + length (omap (fun x => match f x with
                           | Some _ => None
                           | None => Some (g x)
                           end) l)
  = length l.
Proof.
  induction l as [|x l IH]; [done |].
  csimpl. destruct (f x); simpl; lia.
Qed.


(** An image call whose request does not come back with a 2xx reply. *)
Lemma image_outcome_unreached (thrown : string -> ToolResult)
    (unparsed : string -> string -> ToolResult)
    (no_image_result : string -> ToolResult)
    (done_result : string -> ConversationContext -> string -> ToolResult)
    (cid prompt0 : string) (kind : ImageKind) (output_path : option string)
    (stem : string) (request : list GeminiImageRequestPart) (ratio : string)
    (s : State) (m : string) :
  fetch_image env (length (calls s)) request ratio = NetworkFailure m
  \/ (exists r, fetch_image env (length (calls s)) request ratio = Http r
                /\ ok r = false /\ m = api_request_failed r) ->
  image_outcome env thrown unparsed no_image_result done_result cid
    prompt0 kind output_path stem request ratio s
  = (thrown m, log_call (ImageCall request ratio) s).
Proof.
  unfold image_outcome. intros [->|(r & -> & -> & ->)]; reflexivity.
Qed.
End References.




(** ** Failures of the image endpoint *)

(** X18. When the request of a generate or edit call does not come back
    with a 2xx reply -- the transport fails, or the endpoint answers with
    another status -- the call is made once, nothing is stored or written,
    and the failure is returned as the text [Error generating image: ...]
    or [Error editing image: ...] of a result that is not flagged as an
    error. *)
Theorem X18_transport_failure_is_not_flagged (env : Env)
    (prompt0 image_path : string)
    (aspect_ratio output_path conversation_id : option string)
    (use_image_history : option bool) (reference_images : option (list string))
    (s : State) (ratio m : string) :
  let cid := default "default" conversation_id in
  let context := session s cid in
  let unreached request :=
    fetch_image env (length (calls s)) request ratio = NetworkFailure m
    \/ (exists r, fetch_image env (length (calls s)) request ratio = Http r
                  /\ ok r = false /\ m = api_request_failed r) in
  resolve_ratio aspect_ratio (aspectRatio context) = inr ratio ->
  (let request := generate_request env context (files s) prompt0
                    (default false use_image_history)
                    (default [] reference_images) in
   unreached request ->
   call_tool env (GenerateImage prompt0 aspect_ratio output_path conversation_id
                    use_image_history reference_images) s
   = ({| content := "Error generating image: " +:+ m; isError := false |},
      log_call (ImageCall request ratio) (touch cid s)))
  /\ (forall resolvedImagePath imageBase64,
        subject_of env context (files s) image_path
        = Some (resolvedImagePath, imageBase64) ->
        let request := edit_request env context (files s) prompt0 imageBase64
                         (default [] reference_images) in
        unreached request ->
        call_tool env (EditImage image_path prompt0 aspect_ratio output_path
                         conversation_id reference_images) s
        = ({| content := "Error editing image: " +:+ m; isError := false |},
           log_call (ImageCall request ratio) (touch cid s))).
Proof.
  intros cid context unreached Hr. split.
  - intros request H. rewrite generate_call. fold cid. fold context.
    rewrite Hr.
    by rewrite (image_outcome_unreached env generate_thrown _ _ _ _ _ _ _ _ _ _
                  (touch cid s) m H).
  - intros p b Hs request H. rewrite edit_call. fold cid. fold context.
    rewrite Hr, Hs.
    by rewrite (image_outcome_unreached env edit_thrown _ _ _ _ _ _ _ _ _ _
                  (touch cid s) m H).
Qed.

Lemma X18_transport_failure_witness :
  call_tool demo_offline generate_cat (initial_state disk)
  = ({| content := "Error generating image: fetch failed"; isError := false |},
     log_call (ImageCall [text_part "cat"] "1:1")
       (touch "default" (initial_state disk))).
Proof.
  destruct (X18_transport_failure_is_not_flagged demo_offline "cat" "a.png"
              (Some "1:1") None None None None (initial_state disk) "1:1"
              "fetch failed" eq_refl) as [H _].
  exact (H (or_introl eq_refl)).
Defined.

(** ** From a generated image to its edit *)

(** X19. What a successful generate call stores can be edited at once as
    ["last"]: the record it appends carries the prompt, the file it names
    holds the decoded payload, and an edit call on ["last"] in the same
    session sends exactly the stored payload as its subject, read from the
    record and not from the disk. *)
Theorem X19_generated_image_is_last (env : Env) (prompt0 edit_prompt r : string)
    (aspect_ratio output_path conversation_id edit_output : option string)
    (use_image_history : option bool)
    (reference_images edit_references : option (list string)) (s : State) :
  let cid := default "default" conversation_id in
  let x := call_tool env (GenerateImage prompt0 aspect_ratio output_path
                            conversation_id use_image_history
                            reference_images) s in
  succeeded x.1 = true ->
  valid_ratio r = true ->
  exists entry,
    getImageFromHistory (session x.2 cid) "last" = Some entry
    /\ prompt entry = prompt0 /\ type entry = generated
    /\ files x.2 !! filePath entry = Some (base64_decode env (base64Data entry))
    /\ exists references,
         calls (call_tool env (EditImage "last" edit_prompt (Some r) edit_output
                                 conversation_id edit_references) x.2).2
         = calls x.2
           ++ [ImageCall (references
                          ++ [text_part (editing_prompt edit_prompt);
                              image_part "image/png" (base64Data entry)]) r].
Proof.
  intros cid x Hx Hr.
  destruct (generate_stored env prompt0 aspect_ratio output_path
              conversation_id use_image_history reference_images s)
    as [(Hs & _)|(_ & entry & Hc & _ & Hf & Hp & Hk & _)].
  { fold x in Hs. congruence. }
  fold x cid in Hc, Hf.
  assert (Hl : getImageFromHistory (session x.2 cid) "last" = Some entry)
    by (by rewrite lookup_last, Hc, add_last).
  exists entry. split; [done |]. split; [done |]. split; [done |].
  split; [rewrite Hf; apply lookup_insert_eq |].
  rewrite edit_calls. fold cid.
  destruct (resolve_ratio_cases (aspectRatio (session x.2 cid))) as (_ & Hv & _).
  rewrite (Hv r Hr). unfold subject_of. rewrite Hl. unfold edit_request. by eexists.
Qed.

Lemma X19_generated_image_witness :
  let s := (call_tool demo generate_cat (initial_state disk)).2 in
  exists entry references,
    getImageFromHistory (session s "default") "last" = Some entry
    /\ calls (call_tool demo
                (EditImage "last" "brighter" (Some "4:3") None None None) s).2
       = calls s
         ++ [ImageCall (references
                        ++ [text_part (editing_prompt "brighter");
                            image_part "image/png" (base64Data entry)]) "4:3"].
Proof.
  destruct (X19_generated_image_is_last demo "cat" "brighter" "4:3" (Some "1:1")
              None None None None None None (initial_state disk))
    as (entry & Hl & _ & _ & _ & references & H);
    [by vm_compute | by vm_compute |].
  exists entry, references. split; [exact Hl | exact H].
Defined.

(** ** Registered and unregistered sessions *)

Section Alike.
Import Js.
Variable env : Env.

Lemma alike_touched (i : string) (s : State) : alike s (touch i s).
Proof.
  split; [| done]. intros j. by rewrite session_touch.
Qed.

Lemma alike_put (i : string) (c : ConversationContext) (s s' : State) :
  alike s s' -> alike (put i c s) (put i c s').
Proof.
  intros (Hs & H). split; [| exact H]. intros j.
  destruct (decide (i = j)) as [->|Hne].
  - by rewrite !session_put_eq.
  - by rewrite !session_put_ne.
Qed.

Lemma alike_touch (i : string) (s s' : State) :
  alike s s' -> alike (touch i s) (touch i s').
Proof.
  intros H. unfold touch. rewrite (proj1 H i). by apply alike_put.
Qed.

Lemma alike_log (c : BackendCall) (s s' : State) :
  alike s s' -> alike (log_call c s) (log_call c s').
Proof.
  intros (Hs & Hf & Hc & Hr & Hk). repeat split; try done.
  cbn. by rewrite Hk.
Qed.

Lemma alike_tick (s s' : State) : alike s s' -> alike (tick s) (tick s').
Proof.
  intros (Hs & Hf & Hc & Hr & Hk). repeat split; try done.
  cbn. by rewrite Hc.
Qed.

Lemma alike_recorded (cid finalPath payload prompt0 : string) (kind : ImageKind)
    (s s' : State) :
  alike s s' ->
  recorded_context env cid finalPath payload prompt0 kind s
  = recorded_context env cid finalPath payload prompt0 kind s'
  /\ alike (recorded_state env cid finalPath payload prompt0 kind s)
       (recorded_state env cid finalPath payload prompt0 kind s').
Proof.
  intros (Hs & Hf & Hc & Hr & Hk).
  assert (He : recorded_context env cid finalPath payload prompt0 kind s
               = recorded_context env cid finalPath payload prompt0 kind s')
    by (unfold recorded_context, recorded_entry; by rewrite Hs, Hc, Hr).
  split; [exact He |].
  unfold recorded_state. rewrite He, Hf, Hc, Hr, Hk.
  split; [| done]. intros j. unfold session. cbn [conversations].
  destruct (decide (cid = j)) as [->|Hne].
  - by rewrite !lookup_insert_eq.
  - rewrite !lookup_insert_ne by done. apply Hs.
Qed.

Lemma alike_image_outcome (thrown : string -> ToolResult)
    (unparsed : string -> string -> ToolResult)
    (no_image_result : string -> ToolResult)
    (done_result : string -> ConversationContext -> string -> ToolResult)
    (cid prompt0 : string) (kind : ImageKind) (output_path : option string)
    (stem : string) (request : list GeminiImageRequestPart) (ratio : string)
    (s s' : State) :
  alike s s' ->
  (image_outcome env thrown unparsed no_image_result done_result cid prompt0
     kind output_path stem request ratio s).1
  = (image_outcome env thrown unparsed no_image_result done_result cid prompt0
       kind output_path stem request ratio s').1
  /\ alike
       (image_outcome env thrown unparsed no_image_result done_result cid prompt0
          kind output_path stem request ratio s).2
       (image_outcome env thrown unparsed no_image_result done_result cid prompt0
          kind output_path stem request ratio s').2.
Proof.
  intros H. pose proof H as (Hs & Hf & Hc & Hr & Hk).
  unfold image_outcome. rewrite Hk.
  pose proof (alike_log (ImageCall request ratio) s s' H) as Hl.
  destruct (fetch_image env (length (calls s')) request ratio) as [m|r];
    [done |].
  destruct (ok r); [| done].
  destruct (truthy_opt (error (parse_response r))); [done |].
  destruct (truthy_opt (imageData (parse_response r))) as [payload|]; [| done].
  cbn [fst snd].
  assert (Hp : chosen_path env output_path stem
                 (log_call (ImageCall request ratio) s)
               = chosen_path env output_path stem
                   (log_call (ImageCall request ratio) s'))
    by (unfold chosen_path, default_file; cbn [clock_reads log_call];
        by rewrite Hc).
  rewrite Hp.
  assert (Ha : alike (after_path output_path (log_call (ImageCall request ratio) s))
                 (after_path output_path (log_call (ImageCall request ratio) s')))
    by (unfold after_path; destruct (truthy_opt output_path);
        [done | by apply alike_tick]).
  destruct (alike_recorded cid
              (chosen_path env output_path stem
                 (log_call (ImageCall request ratio) s'))
              payload prompt0 kind _ _ Ha) as [-> Hst].
  done.
Qed.

Lemma alike_listing (conversation_id : string) (s s' : State) :
  alike s s' ->
  (call_tool env (GetImageHistory conversation_id) s).1
  = (call_tool env (GetImageHistory conversation_id) s').1.
Proof.
  intros (Hs & _). specialize (Hs conversation_id). unfold session in Hs.
  unfold call_tool, dispatch, get_image_history, bind, gets.
  destruct (conversations s !! conversation_id) as [c|],
           (conversations s' !! conversation_id) as [c'|];
    simpl in Hs; subst; try done.
  by destruct (imageHistory c').
Qed.

Lemma alike_delete (i : string) (s s' : State) :
  alike s s' ->
  alike (set_conversations (fun m => delete i m) s)
    (set_conversations (fun m => delete i m) s').
Proof.
  intros (Hs & H). split; [| exact H]. intros j. unfold session.
  cbn [conversations set_conversations].
  destruct (decide (i = j)) as [->|Hne].
  - by rewrite !lookup_delete_eq.
  - rewrite !lookup_delete_ne by done. apply Hs.
Qed.

Lemma set_aspect_ratio_reply (aspect_ratio : string)
    (conversation_id : option string) (s s' : State) :
  (call_tool env (SetAspectRatio aspect_ratio conversation_id) s).1
  = (call_tool env (SetAspectRatio aspect_ratio conversation_id) s').1.
Proof.
  unfold call_tool, dispatch, set_aspect_ratio.
  destruct (valid_ratio aspect_ratio); [| done]. cbn [negb].
  unfold bind. rewrite !getOrCreateContext_run. cbv beta iota.
  by rewrite !mutate_context_run.
Qed.

(** A call from two states that are alike: the same reply, and states
    that are alike again. *)
Lemma alike_call (request : Request) (s s' : State) :
  alike s s' ->
  (call_tool env request s).1 = (call_tool env request s').1
  /\ alike (call_tool env request s).2 (call_tool env request s').2.
Proof.
  intros H. pose proof H as (Hs & Hf & Hc & Hr & Hk).
  destruct request.
  - rewrite !chat_call.
    rewrite <- (Hs (default "default" conversation_id)), <- Hf, <- Hk.
    destruct (send_chat env _ _ _ _); cbn [fst snd]; (split; [done |]).
    + by apply alike_log, alike_put, alike_touch.
    + by apply alike_put, alike_log, alike_put, alike_touch.
  - rewrite !generate_call.
    rewrite <- (Hs (default "default" conversation_id)), <- Hf.
    destruct (resolve_ratio aspect_ratio _).
    + split; [done | by apply alike_touch].
    + by apply alike_image_outcome, alike_touch.
  - rewrite !edit_call.
    rewrite <- (Hs (default "default" conversation_id)), <- Hf.
    destruct (resolve_ratio aspect_ratio _).
    + split; [done | by apply alike_touch].
    + destruct (subject_of env _ _ image_path) as [[p b]|].
      * by apply alike_image_outcome, alike_touch.
      * split; [done | by apply alike_touch].
  - split; [by apply alike_listing |].
    by rewrite !get_image_history_keeps.
  - split; [done |]. by apply alike_delete.
  - split; [apply set_aspect_ratio_reply |].
    rewrite !set_aspect_ratio_call.
    rewrite <- (Hs (default "default" conversation_id)).
    destruct (valid_ratio aspect_ratio); [| done].
    by apply alike_put, alike_touch.
  - done.
Qed.
End Alike.

(** X20. Whether a session is registered with fresh content or not
    registered at all cannot be observed through the tools: from two states
    that agree on the files, the clock, the random source, the log and the
    content of every session -- an unregistered session read as a fresh
    one -- every run returns the same replies and ends in such states
    again. *)
Theorem X20_unregistered_session_is_fresh (env : Env) (requests : list Request)
    (s s' : State) :
  alike s s' ->
  replies env requests s = replies env requests s'
  /\ alike (run env requests s) (run env requests s').
Proof.
  revert s s'. induction requests as [|r rest IH]; intros s s' H; [done |].
  cbn [replies run]. destruct (alike_call env r s s' H) as [-> Hx].
  destruct (IH _ _ Hx) as [-> Hr]. done.
Qed.

Lemma X20_unregistered_session_witness :
  let requests := [GetImageHistory "default"; generate_cat;
                   EditImage "last" "brighter" None None None None;
                   GetImageHistory "default"] in
  replies demo requests
    (call_tool demo (GenerateImage "cat" None None None None None)
       (initial_state disk)).2
  = replies demo requests (initial_state disk).
Proof.
  intros requests. symmetry.
  apply (X20_unregistered_session_is_fresh demo requests (initial_state disk)).
  rewrite generate_early with (r := missing_ratio) by reflexivity.
  apply alike_touched.
Defined.

(** ** What the sessions hold *)

Section Contents.
Import Js.
Variable env : Env.

Lemma add_records (P : ImageHistoryEntry -> Prop) (context : ConversationContext)
    (entry : ImageHistoryEntry) :
  Forall P (imageHistory context) -> P entry ->
  Forall P (imageHistory (addImageToHistory context entry)).
Proof.
  intros Hc He. unfold addImageToHistory. cbn [imageHistory with_imageHistory].
  assert (H : Forall P (imageHistory context ++ [entry]))
    by (apply Forall_app; split; [done | by constructor]).
  destruct (MAX_IMAGE_HISTORY <? _)%nat; [| done].
  rewrite tail_drop. by apply Forall_drop.
Qed.

Lemma call_tool_media_type (request : Request) (s : State) (j : string) :
  Forall (fun e => mimeType e = "image/png") (session_history s j) ->
  Forall (fun e => mimeType e = "image/png")
    (session_history (call_tool env request s).2 j).
Proof.
  intros H. destruct request.
  - by rewrite chat_keeps.
  - unfold session_history.
    destruct (generate_stored env prompt0 aspect_ratio output_path
                conversation_id use_image_history reference_images s)
      as [(_ & Hs & _)|(_ & entry & Hc & Ho & _ & _ & _ & Hm)];
      [by rewrite Hs |].
    destruct (decide (default "default" conversation_id = j)) as [<-|Hne];
      [| by rewrite Ho].
    rewrite Hc. by apply add_records.
  - unfold session_history.
    destruct (edit_stored env image_path edit_prompt aspect_ratio output_path
                conversation_id reference_images s)
      as [(_ & Hs & _)|(_ & entry & Hc & Ho & _ & _ & _ & Hm)];
      [by rewrite Hs |].
    destruct (decide (default "default" conversation_id = j)) as [<-|Hne];
      [| by rewrite Ho].
    rewrite Hc. by apply add_records.
  - by rewrite get_image_history_keeps.
  - rewrite clear_conversation_history. by case_bool_decide.
  - by rewrite set_aspect_ratio_keeps.
  - done.
Qed.

Lemma follows_user (previous : option Role) (turns : list Turn) (message : string)
    (images : list Part) :
  follows previous
    (turns ++ [{| role := user; parts := TextPart message :: images |}])
  = follows previous turns.
Proof.
  revert previous. induction turns as [|t turns IH]; intros previous; [done |].
  cbn [app follows].
  destruct (role t), (parts t) as [|[] [|]], previous as [[]|]; by rewrite ?IH.
Qed.

Lemma follows_answer (previous : option Role) (turns : list Turn)
    (message reply : string) (images : list Part) :
  follows previous
    (turns ++ [{| role := user; parts := TextPart message :: images |};
               {| role := model; parts := [TextPart reply] |}])
  = follows previous turns.
Proof.
  revert previous. induction turns as [|t turns IH]; intros previous; [done |].
  cbn [app follows].
  destruct (role t), (parts t) as [|[] [|]], previous as [[]|]; by rewrite ?IH.
Qed.

Lemma call_tool_dialogue (request : Request) (s : State) (j : string) :
  dialogue (history (session s j)) = true ->
  dialogue (history (session (call_tool env request s).2 j)) = true.
Proof.
  intros H. destruct (clears j request) eqn:Ec.
  { destruct request; try done. cbn [clears] in Ec.
    by rewrite clear_conversation_sessions, Ec. }
  destruct (chats j request) eqn:Eh.
  - destruct request; try done. cbn [chats] in Eh.
    rewrite chat_sessions, Eh. apply bool_decide_eq_true in Eh. subst j.
    unfold dialogue, chat_message.
    destruct (send_chat env _ _ _ _); cbn [push_turn history app].
    + by rewrite follows_user.
    + rewrite <- app_assoc. cbn [app]. by rewrite follows_answer.
  - destruct (call_tool_transcript env request s j Ec) as (added & -> & Ha).
    by rewrite (Ha Eh), app_nil_r.
Qed.
End Contents.

(** X21. Every record of every session carries the media type
    [image/png], whatever the backend declared for the image: this is what
    chat and edit calls send for a history reference. *)
Theorem X21_records_are_png (env : Env) (requests : list Request) (s : State) :
  (forall j, Forall (fun e => mimeType e = "image/png") (session_history s j)) ->
  forall j,
    Forall (fun e => mimeType e = "image/png")
      (session_history (run env requests s) j).
Proof.
  revert s. induction requests as [|r rest IH]; intros s H j; [apply H |].
  cbn [run]. apply IH. intros i. by apply call_tool_media_type.
Qed.

Lemma X21_records_witness :
  Forall (fun e => mimeType e = "image/png")
    (session_history
       (run demo [generate_cat;
                  EditImage "last" "brighter" (Some "4:3") None None None]
          (initial_state disk)) "default").
Proof.
  apply X21_records_are_png. intros j.
  unfold session_history, session, initial_state. cbn [conversations].
  rewrite lookup_empty. constructor.
Defined.

(** X22. In every transcript a user turn starts with the text of its
    message and a model turn is a single text that comes right after a
    user turn, so the first turn is a user's and no two model turns are
    adjacent; user turns may be adjacent, as a failed chat call leaves its
    user turn without an answer. *)
Theorem X22_transcript_is_a_dialogue (env : Env) (requests : list Request)
    (s : State) :
  (forall j, dialogue (history (session s j)) = true) ->
  forall j, dialogue (history (session (run env requests s) j)) = true.
Proof.
  revert s. induction requests as [|r rest IH]; intros s H j; [apply H |].
  cbn [run]. apply IH. intros i. by apply call_tool_dialogue.
Qed.

Lemma X22_transcript_witness :
  let s := run demo [Chat "one" None None None; Chat "two" None None (Some ["a.png"])]
             (initial_state disk) in
  dialogue (history (session s "default")) = true
  /\ role <$> history (session s "default") = [user; user].
Proof.
  intros s. split; [| by vm_compute].
  apply X22_transcript_is_a_dialogue. intros j.
  unfold session, initial_state. cbn [conversations]. by rewrite lookup_empty.
Defined.

(** ** The paths of the stored images *)

Section PngPaths.
Import Js.
Variable env : Env.

Lemma split_app_plain (l w : list ascii) :
  forallb (fun c => negb (Ascii.eqb c Path.slash)) w = true ->
  exists init seg,
    Path.split l = init ++ [seg] /\ Path.split (l ++ w) = init ++ [seg ++ w].
Proof.
  intros Hw. induction l as [|c l (init & seg & H1 & H2)].
  - exists [], []. split; [done |]. by apply split_plain.
  - cbn [app Path.split]. rewrite H1, H2.
    destruct (Ascii.eqb c Path.slash).
    + by exists ([] :: init), seg.
    + destruct init as [|i0 init'].
      * by exists [], (c :: seg).
      * by exists ((c :: i0) :: init'), seg.
Qed.

Lemma norm_step_png (allow : bool) (stack : list (list ascii))
    (seg : list ascii) :
  Path.norm_step allow stack (seg ++ chars ".png")
  = (seg ++ chars ".png") :: stack.
Proof.
  unfold Path.norm_step.
  destruct (seg ++ chars ".png") as [|c t] eqn:E; [by destruct seg |].
  rewrite <- E.
  assert (Hl : 4 <= length (seg ++ chars ".png"))
    by (rewrite length_app; simpl; lia).
  unfold Path.is_dot, Path.is_dotdot.
  rewrite !bool_decide_eq_false_2; [done | |];
    intros H; rewrite H in Hl; simpl in Hl; lia.
Qed.

Lemma normalizeString_png (l : list ascii) (allow : bool) :
  exists x, Path.normalizeString (l ++ chars ".png") allow = x ++ chars ".png".
Proof.
  unfold Path.normalizeString.
  destruct (split_app_plain l (chars ".png") eq_refl) as (init & seg & _ & ->).
  rewrite fold_left_app. cbn [fold_left]. rewrite norm_step_png.
  cbn [rev]. rewrite unsplit_snoc.
  destruct (rev _) as [|a b].
  - by exists seg.
  - exists (Path.unsplit (a :: b) ++ Path.slash :: seg).
    by rewrite <- app_assoc.
Qed.

Lemma normalize_png (l : list ascii) :
  exists x, Path.normalize_chars (l ++ chars ".png") = x ++ chars ".png".
Proof.
  unfold Path.normalize_chars.
  destruct (l ++ chars ".png") as [|c t] eqn:E; [by destruct l |].
  rewrite <- E.
  assert (Ht : Path.ends_with_slash (l ++ chars ".png") = false)
    by (unfold Path.ends_with_slash; by rewrite rev_app_distr).
  rewrite Ht.
  destruct (normalizeString_png l (negb (Ascii.eqb c Path.slash))) as [x ->].
  destruct (x ++ chars ".png") as [|c' t'] eqn:E'; [by destruct x |].
  rewrite <- E'.
  destruct (Ascii.eqb c Path.slash); [by exists (Path.slash :: x) | by exists x].
Qed.

Lemma concat_snoc (sep last : string) (l : list string) :
  exists y, String.concat sep (l ++ [last]) = y +:+ last.
Proof.
  induction l as [|a l [y IH]]; [by exists "" |].
  cbn [app]. destruct (l ++ [last]) as [|b m] eqn:E; [by destruct l |].
  change (String.concat sep (a :: b :: m))
    with (a +:+ sep +:+ String.concat sep (b :: m)).
  rewrite IH. exists (a +:+ sep +:+ y). by rewrite !append_assoc.
Qed.

(** [path.join] keeps the extension of its last argument. *)
Lemma join_png (args : list string) (name : string) :
  exists x, Path.join (args ++ [name +:+ ".png"]) = x +:+ ".png".
Proof.
  unfold Path.join. rewrite filter_app.
  assert (Hn : truthy (name +:+ ".png") = true) by (by destruct name).
  rewrite (filter_cons_True (fun a => truthy a = true)) by exact Hn.
  rewrite filter_nil.
  destruct (concat_snoc "/" (name +:+ ".png")
              (filter (fun a => truthy a = true) args)) as [y Hy].
  destruct (filter _ args ++ [name +:+ ".png"]) as [|a l] eqn:E.
  { by destruct (filter _ args). }
  unfold Js.join. rewrite Hy. unfold Path.normalize.
  rewrite <- append_assoc, chars_app.
  destruct (normalize_png (chars (y +:+ name))) as [x ->].
  exists (str x). by rewrite str_app.
Qed.

Lemma chosen_path_png (output_path : option string) (stem : string) (s : State) :
  png_path (chosen_path env output_path stem s) = true.
Proof.
  unfold png_path, chosen_path.
  destruct (truthy_opt output_path); [apply requested_path_png |].
  unfold default_file. rewrite <- append_assoc.
  destruct (join_png [default_dir env]
              (stem +:+ string_of_N (date_now env (clock_reads s)))) as [x Hx].
  cbn [app] in Hx. rewrite Hx. apply lower_png_suffix.
Qed.

(** The path of the record a successful image call stores. *)
Lemma image_outcome_path (thrown : string -> ToolResult)
    (unparsed : string -> string -> ToolResult)
    (no_image_result : string -> ToolResult)
    (done_result : string -> ConversationContext -> string -> ToolResult)
    (cid prompt0 : string) (kind : ImageKind) (output_path : option string)
    (stem : string) (request : list GeminiImageRequestPart) (ratio : string)
    (s : State) :
  let x := image_outcome env thrown unparsed no_image_result done_result cid
             prompt0 kind output_path stem request ratio s in
  conversations x.2 = conversations s
  \/ exists entry,
       conversations x.2
       = <[cid := addImageToHistory (session s cid) entry]> (conversations s)
       /\ png_path (filePath entry) = true.
Proof.
  unfold image_outcome.
  destruct (fetch_image env (length (calls s)) request ratio) as [m|r];
    [by left |].
  destruct (ok r); [| by left].
  destruct (truthy_opt (error (parse_response r))); [by left |].
  destruct (truthy_opt (imageData (parse_response r))) as [payload|];
    [| by left].
  right. cbn [fst snd].
  exists (recorded_entry env
            (chosen_path env output_path stem
               (log_call (ImageCall request ratio) s))
            payload prompt0 kind
            (after_path output_path (log_call (ImageCall request ratio) s))).
  split; [| apply chosen_path_png].
  unfold recorded_state, recorded_context, after_path. cbn [conversations].
  by destruct (truthy_opt output_path).
Qed.

Lemma image_outcome_paths (thrown : string -> ToolResult)
    (unparsed : string -> string -> ToolResult)
    (no_image_result : string -> ToolResult)
    (done_result : string -> ConversationContext -> string -> ToolResult)
    (cid prompt0 : string) (kind : ImageKind) (output_path : option string)
    (stem : string) (request : list GeminiImageRequestPart) (ratio : string)
    (s : State) (j : string) :
  Forall (fun e => png_path (filePath e) = true) (session_history s j) ->
  Forall (fun e => png_path (filePath e) = true)
    (session_history
       (image_outcome env thrown unparsed no_image_result done_result cid
          prompt0 kind output_path stem request ratio (touch cid s)).2 j).
Proof.
  intros H.
  destruct (image_outcome_path thrown unparsed no_image_result done_result cid
              prompt0 kind output_path stem request ratio (touch cid s))
    as [Hc|(entry & Hc & Hp)].
  - by rewrite (history_same _ _ _ Hc), history_touch.
  - apply session_of_insert in Hc as [Hi Ho]. unfold session_history.
    destruct (decide (cid = j)) as [<-|Hne].
    + rewrite Hi, session_touch. by apply add_records.
    + by rewrite Ho, session_touch.
Qed.

Lemma call_tool_paths (request : Request) (s : State) (j : string) :
  Forall (fun e => png_path (filePath e) = true) (session_history s j) ->
  Forall (fun e => png_path (filePath e) = true)
    (session_history (call_tool env request s).2 j).
Proof.
  intros H. destruct request.
  - by rewrite chat_keeps.
  - rewrite generate_call.
    destruct (resolve_ratio aspect_ratio _); [cbn [snd]; by rewrite history_touch |].
    by apply image_outcome_paths.
  - rewrite edit_call.
    destruct (resolve_ratio aspect_ratio _); [cbn [snd]; by rewrite history_touch |].
    destruct (subject_of env _ _ image_path) as [[p b]|];
      [| cbn [snd]; by rewrite history_touch].
    by apply image_outcome_paths.
  - by rewrite get_image_history_keeps.
  - rewrite clear_conversation_history. by case_bool_decide.
  - by rewrite set_aspect_ratio_keeps.
  - done.
Qed.
End PngPaths.

(** X23. Every image the server stores has a [.png] path, up to letter
    case: the file path of every record of every session ends in [.png],
    whether the caller chose the output path or the server built it from
    the default directory, the subject name or record id, and the clock. *)
Theorem X23_record_paths_end_in_png (env : Env) (requests : list Request)
    (s : State) :
  (forall j, Forall (fun e => png_path (filePath e) = true) (session_history s j)) ->
  forall j,
    Forall (fun e => png_path (filePath e) = true)
      (session_history (run env requests s) j).
Proof.
  revert s. induction requests as [|r rest IH]; intros s H j; [apply H |].
  cbn [run]. apply IH. intros i. by apply call_tool_paths.
Qed.

Lemma X23_record_paths_witness :
  Forall (fun e => png_path (filePath e) = true)
    (session_history
       (run demo [GenerateImage "cat" (Some "1:1") (Some "pics/cat.jpeg") None
                    None None;
                  EditImage "last" "brighter" (Some "4:3") None None None;
                  EditImage "a.png" "darker" (Some "4:3") (Some "/tmp/X.PNG")
                    None None]
          (initial_state disk)) "default").
Proof.
  apply X23_record_paths_end_in_png. intros j.
  unfold session_history, session, initial_state. cbn [conversations].
  rewrite lookup_empty. constructor.
Defined.

(** * The texts of the replies and the output paths *)

Section Texts.
Import Js.

Lemma append_neq (a b : string) : b <> "" -> a +:+ b <> a.
Proof.
  intros Hb. induction a as [|c a IH]; [done |].
  change (String c (a +:+ b) <> String c a). by intros [= H].
Qed.

Lemma occurs_here (needle before after : string) :
  occurs needle (before +:+ needle +:+ after).
Proof. by exists before, after. Qed.




Lemma occurs_r (needle x y : string) : occurs needle y -> occurs needle (x +:+ y).
Proof.
  intros (a & b & ->). exists (x +:+ a), b. by rewrite !append_assoc.
Qed.




Lemma warning_none (what : string) : warning what [] = "".
Proof. reflexivity. Qed.
End Texts.

(** ** The request of a generate call *)

Section GenerateRequest.
Import Js.
Variable env : Env.

Lemma map_omap {A B C} (f : B -> C) (g : A -> option B) (l : list A) :
  map f (omap g l) = omap (fun x => f <$> g x) l.
Proof.
  induction l as [|x l IH]; [done |].
  csimpl. destruct (g x); csimpl; by rewrite IH.
Qed.

Lemma against_cwd_cases (p : string) :
  against_cwd env p = if Path.isAbsolute p then p else Path.join [cwd env; p].
Proof. unfold against_cwd. by destruct (Path.isAbsolute p). Qed.
End GenerateRequest.

(** C4. A generate call whose ratio resolves sends one request whose
    parts are, in order: one image part, labelled [image/png], for each
    reference image that can be read, with the encoded content of the
    file; one image part for each of the last three (or fewer) records of
    the media history, with the media type and the payload of the record,
    when [use_image_history] is set and the history is not empty, and none
    otherwise; and one text part, the prompt, followed by the consistency
    instruction exactly when history records were included. A call whose
    ratio does not resolve sends nothing. *)
Theorem C4_generate_request_parts (env : Env) (prompt0 : string)
    (aspect_ratio output_path conversation_id : option string)
    (use_image_history : option bool) (reference_images : option (list string))
    (s : State) :
  let context := session s (default "default" conversation_id) in
  let h := imageHistory context in
  let image (mime payload : string) :=
    {| text := None;
       inlineData := Some {| inlineMimeType := mime; data := payload |} |} in
  let manual :=
    omap (fun r =>
            (fun buffer => image "image/png" (base64_encode env buffer))
            <$> files s !! (if Path.isAbsolute r then r
                            else Path.join [cwd env; r]))
      (default [] reference_images) in
  let included := default false use_image_history && bool_decide (h <> []) in
  let recent := if included then drop (length h - 3) h else [] in
  let instruction :=
    String "010" (String "010" "IMPORTANT: Maintain visual consistency with the provided reference images (same style, character appearance, color palette).") in
  let final := if included then prompt0 +:+ instruction else prompt0 in
  let request :=
    manual
    ++ map (fun img => image (mimeType img) (base64Data img)) recent
    ++ [{| text := Some final; inlineData := None |}] in
  calls (call_tool env (GenerateImage prompt0 aspect_ratio output_path
                          conversation_id use_image_history reference_images) s).2
  = calls s
    ++ match resolve_ratio aspect_ratio (aspectRatio context) with
       | inl _ => []
       | inr ratio => [ImageCall request ratio]
       end
  /\ length recent = (if included then min 3 (length h) else 0)
  /\ (included = true -> last recent = last h)
  /\ (recent <> [] <-> included = true)
  /\ (final <> prompt0 <-> included = true).
Proof.
  intros context h image manual included recent instruction final request.
  assert (Hinc : with_history (default false use_image_history) context
                 = included).
  { unfold with_history, included. fold h. f_equal.
    destruct h as [|e h']; [reflexivity |].
    symmetry. by apply bool_decide_eq_true. }
  assert (Hh : included = true -> h <> []).
  { unfold included. intros [_ H]%andb_true_iff.
    by apply bool_decide_eq_true in H. }
  split; [| split; [| split; [| split]]].
  - rewrite generate_calls. fold context. unfold generate_request.
    rewrite Hinc. fold h. rewrite map_omap.
    rewrite (omap_pointwise _
               (fun r =>
                  (fun buffer => image "image/png" (base64_encode env buffer))
                  <$> files s !! (if Path.isAbsolute r then r
                                  else Path.join [cwd env; r]))).
    2:{ intros r. unfold file_of. rewrite against_cwd_cases.
        by destruct (files s !! _). }
    fold manual. unfold request, recent, final, Js.slice_last,
      MAX_REFERENCE_IMAGES.
    by destruct included.
  - unfold recent. destruct included; [| done].
    rewrite length_drop. lia.
  - intros Hi. unfold recent. rewrite Hi.
    specialize (Hh Hi). rewrite !last_lookup, lookup_drop, length_drop.
    f_equal. destruct h; [done |]. simpl. lia.
  - unfold recent. destruct included eqn:Ei; [| done].
    split; [done |]. intros _ Hd. specialize (Hh eq_refl).
    apply (f_equal length) in Hd. rewrite length_drop in Hd. simpl in Hd.
    destruct h; [done |]. simpl in Hd. lia.
  - unfold final. destruct included; [| done].
    split; [done |]. intros _. by apply append_neq.
Qed.

(** ** The turn and the reply of a chat call *)


(** ** The replies of the image tools *)

Section SuccessTexts.
Import Js.
Variable env : Env.

Lemma generate_done_saved (prompt0 finalPath cid : string) (held : nat)
    (failed : list (string * string)) (textResponse : string) :
  occurs ("Saved to: " +:+ finalPath)
    (content (generate_done prompt0 finalPath cid held failed textResponse)).
Proof.
  unfold generate_done. cbn [content]. do 7 apply occurs_r.
  eexists "", _. change ("" +:+ ?x) with x. by rewrite append_assoc.
Qed.


Lemma edit_done_saved (original edit_prompt finalPath cid : string) (held : nat)
    (failed : list (string * string)) (textResponse : string) :
  occurs ("Saved to: " +:+ finalPath)
    (content (edit_done original edit_prompt finalPath cid held failed
                textResponse)).
Proof.
  unfold edit_done. cbn [content]. do 10 apply occurs_r.
  eexists "", _. change ("" +:+ ?x) with x. by rewrite append_assoc.
Qed.





Lemma failed_files_count (disk : gmap string string) (refs : list string) :
  length (failed_files env disk refs)
  = length refs - length (omap (file_of env disk) refs).
Proof.
  pose proof (omap_partition (file_of env disk)
                (fun r => (r, enoent "open" (against_cwd env r))) refs) as H.
  cbv beta in H. unfold failed_files. lia.
Qed.

End SuccessTexts.



(** ** Where a successful call stores its image *)

Section Placement.
Import Js.
Variable env : Env.

Lemma forallb_not_slash_dot (l : list ascii) :
  forallb not_slash_dot l = true
  <-> Forall (fun c => c <> "/"%char /\ c <> "."%char) l.
Proof.
  induction l as [|c l IH]; [by split |].
  cbn [forallb]. rewrite andb_true_iff, Forall_cons, IH.
  unfold not_slash_dot.
  rewrite andb_true_iff, !negb_true_iff, !Ascii.eqb_neq. done.
Qed.

(** The regular expression accepts exactly the extensions. *)
Lemma ext_at_extension (l : list ascii) : ext_at l = true <-> extension l.
Proof.
  unfold ext_at, extension. destruct l as [|d [|c rest]].
  - split; [done | by intros (b & H & _)].
  - split; [done | by intros (b & [= -> <-] & Hb & _)].
  - rewrite andb_true_iff, Ascii.eqb_eq, forallb_not_slash_dot. split.
    + intros [-> Hf]. by exists (c :: rest).
    + by intros (b & [= -> <-] & _ & Hf).
Qed.

(** The replacement cuts the extension the input ends with, and leaves
    an input that ends with none as it is. *)
Lemma cut_ext_spec (l : list ascii) :
  (exists pre e, l = pre ++ e /\ extension e /\ cut_ext l = pre)
  \/ ((forall pre e, l = pre ++ e -> ~ extension e) /\ cut_ext l = l).
Proof.
  induction l as [|c l IH].
  - right. split; [| done]. intros pre e H.
    symmetry in H. apply app_eq_nil in H as [_ ->].
    by intros (b & H & _).
  - destruct (ext_at (c :: l)) eqn:E.
    + left. exists [], (c :: l). split; [done |].
      split; [by apply ext_at_extension |].
      destruct l as [|c' l']; [done |]. cbn [cut_ext]. by rewrite E.
    + assert (Hc : cut_ext (c :: l) = c :: cut_ext l)
        by (destruct l as [|c' l']; [done |]; cbn [cut_ext]; by rewrite E).
      rewrite Hc.
      destruct IH as [(pre & e & -> & He & ->)|(Hn & ->)].
      * left. by exists (c :: pre), e.
      * right. split; [| done]. intros [|c0 pre] e H He.
        -- cbn [app] in H. subst e. apply ext_at_extension in He. congruence.
        -- injection H as -> H. by apply (Hn pre e).
Qed.

Lemma replace_ext_spec (p : string) :
  (exists stem e, p = stem +:+ e /\ extension (chars e) /\ replace_ext p = stem)
  \/ ((forall stem e, p = stem +:+ e -> ~ extension (chars e))
      /\ replace_ext p = p).
Proof.
  unfold replace_ext.
  destruct (cut_ext_spec (chars p)) as [(pre & e & H & He & ->)|(Hn & ->)].
  - left. exists (str pre), (str e). rewrite chars_str.
    split; [| done]. by rewrite <- str_app, <- H, str_chars.
  - right. split; [| apply str_chars]. intros stem e -> He.
    apply (Hn (chars stem) (chars e)); [apply chars_app | done].
Qed.

Lemma requested_path_forced (out : string) :
  forced_png (if Path.isAbsolute out then out else Path.join [cwd env; out])
    (requested_path env out).
Proof.
  unfold forced_png, requested_path. rewrite against_cwd_cases.
  destruct (endsWith (toLowerCase _) ".png"); cbn [negb]; [done |].
  destruct (replace_ext_spec
              (if Path.isAbsolute out then out else Path.join [cwd env; out]))
    as [(stem & e & H & He & ->)|(Hn & ->)].
  - left. by exists stem, e.
  - by right.
Qed.

Lemma refused_not_succeeded (aspect_ratio sessionDefault : option string)
    (r : ToolResult) :
  resolve_ratio aspect_ratio sessionDefault = inl r -> succeeded r = false.
Proof.
  unfold resolve_ratio.
  destruct (invalid_explicit aspect_ratio); [by intros [= <-] |].
  destruct (nullish aspect_ratio _); [done | by intros [= <-]].
Qed.

(** The record and the file of a successful image call. *)
Lemma image_outcome_saved (thrown : string -> ToolResult)
    (unparsed : string -> string -> ToolResult)
    (no_image_result : string -> ToolResult)
    (done_result : string -> ConversationContext -> string -> ToolResult)
    (cid prompt0 : string) (kind : ImageKind) (output_path : option string)
    (stem : string) (request : list GeminiImageRequestPart) (ratio : string)
    (s : State) :
  (forall m, succeeded (thrown m) = false) ->
  (forall e t, succeeded (unparsed e t) = false) ->
  (forall t, succeeded (no_image_result t) = false) ->
  let x := image_outcome env thrown unparsed no_image_result done_result cid
             prompt0 kind output_path stem request ratio (touch cid s) in
  succeeded x.1 = true ->
  exists entry context' textResponse,
    x.1 = done_result (filePath entry) context' textResponse
    /\ last (session_history x.2 cid) = Some entry
    /\ files x.2 !! filePath entry
       = Some (base64_decode env (base64Data entry))
    /\ filePath entry = chosen_path env output_path stem s.
Proof.
  intros Ht Hu Hn. unfold image_outcome.
  destruct (fetch_image env _ request ratio) as [m|r];
    [cbn; by rewrite Ht |].
  destruct (ok r); [| cbn; by rewrite Ht].
  destruct (truthy_opt (error (parse_response r))); [cbn; by rewrite Hu |].
  destruct (truthy_opt (imageData (parse_response r))) as [payload|];
    [| cbn; by rewrite Hn].
  intros _. cbn [fst snd].
  eexists (recorded_entry env _ payload prompt0 kind _), _, _.
  split; [reflexivity |]. split; [| split].
  - unfold session_history, session, recorded_state, recorded_context.
    cbn [conversations]. rewrite lookup_insert_eq. apply add_last.
  - unfold recorded_state. cbn [files recorded_entry filePath base64Data].
    apply lookup_insert_eq.
  - reflexivity.
Qed.

Lemma chosen_path_cases (output_path : option string) (stem : string)
    (s : State) :
  match output_path with
  | Some (String c rest) =>
      chosen_path env output_path stem s = requested_path env (String c rest)
  | _ =>
      chosen_path env output_path stem s
      = Path.join [Path.join [homedir env; "Documents"; "nanobanana_generated"];
                   stem +:+ string_of_N (date_now env (clock_reads s))
                   +:+ ".png"]
  end.
Proof. by destruct output_path as [[|c rest]|]. Qed.
End Placement.

(** C9 (as amended). A successful generate or edit call stores its image
    in one file, named in the reply and in the record it appends, whose
    path ends in [.png] up to letter case. With a requested output path
    (not empty), the path is the requested one, joined to the working
    directory when relative, with its extension forced to [.png]: kept
    when it already ends in [.png] in any letter case, otherwise with the
    extension it ends with (a dot followed by characters other than dot
    and separator) replaced by [.png], or with [.png] appended when it
    ends with no extension; so [out] and [out.jpg] both give [out.png] in
    the same directory. Without a requested path the file lies in the
    default directory under the name [generated_], or the subject name
    ([history_] and the record id for a history subject) followed by
    [_edited_], then the clock reading and [.png]. *)
Theorem C9_output_path (env : Env) (prompt0 image_path : string)
    (aspect_ratio output_path conversation_id : option string)
    (use_image_history : option bool) (reference_images : option (list string))
    (s : State) :
  let cid := default "default" conversation_id in
  let context := session s cid in
  let subject_name :=
    match getImageFromHistory context image_path with
    | Some h => "history_" +:+ id h
    | None => Path.parse_name image_path
    end in
  let generation :=
    call_tool env (GenerateImage prompt0 aspect_ratio output_path
                     conversation_id use_image_history reference_images) s in
  let edition :=
    call_tool env (EditImage image_path prompt0 aspect_ratio output_path
                     conversation_id reference_images) s in
  let placed (name : string) (x : ToolResult * State) :=
    succeeded x.1 = true ->
    exists entry,
      last (session_history x.2 cid) = Some entry
      /\ files x.2 !! filePath entry
         = Some (base64_decode env (base64Data entry))
      /\ occurs ("Saved to: " +:+ filePath entry) (content x.1)
      /\ png_path (filePath entry) = true
      /\ match output_path with
         | Some (String c rest) =>
             forced_png
               (if Path.isAbsolute (String c rest) then String c rest
                else Path.join [cwd env; String c rest])
               (filePath entry)
         | _ =>
             filePath entry
             = Path.join
                 [Path.join [homedir env; "Documents"; "nanobanana_generated"];
                  name +:+ Js.string_of_N (date_now env (clock_reads s))
                  +:+ ".png"]
         end in
  placed "generated_" generation
  /\ placed (subject_name +:+ "_edited_") edition
  /\ exists dir,
       forall x, x = generation \/ x = edition ->
       output_path = Some "out" \/ output_path = Some "out.jpg" ->
       succeeded x.1 = true ->
       filePath <$> last (session_history x.2 cid) = Some (dir +:+ "out.png").
Proof.
  intros cid context subject_name generation edition placed.
  assert (Hg : succeeded generation.1 = true ->
               exists entry,
                 last (session_history generation.2 cid) = Some entry
                 /\ files generation.2 !! filePath entry
                    = Some (base64_decode env (base64Data entry))
                 /\ occurs ("Saved to: " +:+ filePath entry)
                      (content generation.1)
                 /\ filePath entry
                    = chosen_path env output_path "generated_" s).
  { unfold generation. rewrite generate_call. fold cid. fold context.
    destruct (resolve_ratio aspect_ratio _) as [r|ratio] eqn:E.
    { cbn [fst]. rewrite (refused_not_succeeded _ _ _ E). done. }
    intros H.
    apply image_outcome_saved in H as (entry & c & t & Hr & Hl & Hf & Hp);
      try done.
    exists entry. rewrite Hr. split; [done |]. split; [done |].
    split; [apply generate_done_saved | done]. }
  assert (He : succeeded edition.1 = true ->
               exists entry,
                 last (session_history edition.2 cid) = Some entry
                 /\ files edition.2 !! filePath entry
                    = Some (base64_decode env (base64Data entry))
                 /\ occurs ("Saved to: " +:+ filePath entry)
                      (content edition.1)
                 /\ filePath entry
                    = chosen_path env output_path
                        (subject_name +:+ "_edited_") s).
  { unfold edition. rewrite edit_call. fold cid. fold context.
    destruct (resolve_ratio aspect_ratio _) as [r|ratio] eqn:E.
    { cbn [fst]. rewrite (refused_not_succeeded _ _ _ E). done. }
    destruct (subject_of env context (files s) image_path) as [[p b]|];
      [| done].
    intros H.
    apply image_outcome_saved in H as (entry & c & t & Hr & Hl & Hf & Hp);
      try done.
    exists entry. rewrite Hr. split; [done |]. split; [done |].
    split; [apply edit_done_saved | done]. }
  assert (Hplaced : forall name x,
            (succeeded x.1 = true ->
             exists entry,
               last (session_history x.2 cid) = Some entry
               /\ files x.2 !! filePath entry
                  = Some (base64_decode env (base64Data entry))
               /\ occurs ("Saved to: " +:+ filePath entry) (content x.1)
               /\ filePath entry = chosen_path env output_path name s) ->
            placed name x).
  { intros name x Hx Hs. destruct (Hx Hs) as (entry & Hl & Hf & Ho & Hp).
    exists entry. split; [done |]. split; [done |]. split; [done |].
    split; [rewrite Hp; apply chosen_path_png |].
    pose proof (chosen_path_cases env output_path name s) as Hc.
    destruct output_path as [[|c rest]|]; rewrite Hp, Hc; try done.
    apply requested_path_forced. }
  split; [by apply Hplaced |]. split; [by apply Hplaced |].
  exists (Js.str (joined_dir (Js.chars (cwd env)))).
  destruct (requested_out env) as [Hout Hjpg]. cbv zeta in Hout, Hjpg.
  intros x Hx Hout_path Hs.
  assert (Hentry : exists entry name,
             last (session_history x.2 cid) = Some entry
             /\ filePath entry = chosen_path env output_path name s).
  { destruct Hx as [-> | ->].
    - destruct (Hg Hs) as (entry & Hl & _ & _ & Hp).
      by exists entry, "generated_".
    - destruct (He Hs) as (entry & Hl & _ & _ & Hp).
      by exists entry, (subject_name +:+ "_edited_"). }
  destruct Hentry as (entry & name & -> & Hp). cbn [fmap option_fmap option_map].
  f_equal. rewrite Hp.
  destruct Hout_path as [-> | ->]; [exact Hout | exact Hjpg].
Qed.

(** ** How many reference images are looked at *)

(** X15. A chat call looks at the first ten of its image references and
    at no other: each of the first ten that loads is sent in the user
    turn, and a call with more references returns the same reply and
    leaves the same state -- the same turn sent, the same transcript, the
    same warning -- as the call with its first ten references alone. *)
Theorem X15_chat_references_after_tenth (env : Env) (message : string)
    (conversation_id system_prompt : option string)
    (images : option (list string)) (s : State) :
  let context := session s (default "default" conversation_id) in
  let x := call_tool env (Chat message conversation_id system_prompt images) s in
  x = call_tool env (Chat message conversation_id system_prompt
                       (Some (take 10 (default [] images)))) s
  /\ exists sent,
       calls x.2 = calls s ++ [ChatCall system_prompt (history context) sent]
       /\ forall i r d,
            i < 10 -> default [] images !! i = Some r ->
            image_of env context (files s) r = Some d ->
            InlineDataPart d ∈ sent.
Proof.
  intros context x. split.
  - unfold x. rewrite !chat_call. unfold chat_message, Js.slice_first.
    change (default [] (Some (take 10 (default [] images))))
      with (take 10 (default [] images)).
    by rewrite take_idemp.
  - eexists. split.
    + unfold x. rewrite chat_call. by destruct (send_chat env _ _ _ _).
    + intros i r d Hi Hr Hd. unfold chat_message, Js.slice_first.
      apply elem_of_app. right. apply list_elem_of_fmap_2.
      apply list_elem_of_omap. exists r. split; [| exact Hd].
      apply elem_of_take. by exists i.
Qed.

(** X16. An edit call looks at the first ten of its reference images and
    at no other: when the call reaches the backend, each of the first ten
    that loads is sent in the request, and a call with more references
    returns the same reply and leaves the same state -- the same request
    sent, the same record and file, the same warning -- as the call with
    its first ten references alone. *)
Theorem X16_edit_references_after_tenth (env : Env)
    (image_path edit_prompt : string)
    (aspect_ratio output_path conversation_id : option string)
    (reference_images : option (list string)) (s : State) :
  let context := session s (default "default" conversation_id) in
  let x := call_tool env (EditImage image_path edit_prompt aspect_ratio
                            output_path conversation_id reference_images) s in
  x = call_tool env (EditImage image_path edit_prompt aspect_ratio output_path
                       conversation_id
                       (Some (take 10 (default [] reference_images)))) s
  /\ forall ratio subject,
       resolve_ratio aspect_ratio (aspectRatio context) = inr ratio ->
       subject_of env context (files s) image_path = Some subject ->
       exists request,
         calls x.2 = calls s ++ [ImageCall request ratio]
         /\ forall i r d,
              i < 10 -> default [] reference_images !! i = Some r ->
              image_of env context (files s) r = Some d ->
              {| text := None; inlineData := Some d |} ∈ request.
Proof.
  intros context x. split.
  - unfold x. rewrite !edit_call. unfold edit_request, Js.slice_first.
    change (default [] (Some (take 10 (default [] reference_images))))
      with (take 10 (default [] reference_images)).
    by rewrite take_idemp.
  - intros ratio [p b] Hr Hs. eexists. split.
    + unfold x. rewrite edit_calls. fold context. by rewrite Hr, Hs.
    + intros i r d Hi Hl Hd. unfold edit_request, Js.slice_first.
      apply elem_of_app. left.
      apply (list_elem_of_fmap_2 request_image).
      apply list_elem_of_omap. exists r. split; [| exact Hd].
      apply elem_of_take. by exists i.
Qed.


